(** * StateEstimator: the GPS / IMU / wheel-odometry fusion node of autorally_core

    A shallow embedding of [autorally_core/src/StateEstimator/StateEstimator.cpp].

    Conventions of the model.
    - A C++ [double] is a rational number [Q]; comparisons are exact and the
      rounding of floating-point arithmetic is not modelled.
    - The members of the class are grouped by who touches them: the three
      ingestion queues, the mutex-protected optimized state, the members that
      only [ImuCallback] uses, and the members that only the optimizer thread
      [GpsHelper] uses (together with its two locals that live across loop
      iterations, [prevTime] and [curTime]).
    - Members assigned in the constructor and never written afterwards form
      the record [Config].
    - GTSAM, GeographicLib and ROS are external: values computed by them are
      obtained through the operations of the class [External]; the iSAM2
      solver is represented by the history of the batches it accepted, and
      its answer to one [update] is an input of the loop iteration.
    - One iteration of the loop of [GpsHelper] is run against the contents the
      queues have when it starts: messages delivered while it runs are taken
      as delivered before or after it.  [popBlocking] on an empty queue makes
      the iteration [Blocked]; in a run of the node such an iteration leaves
      the members as they were and is taken again later.
    - Members that the modelled functions never read ([m_nh], the
      publishers and subscribers, [m_gpsCounter], [m_prevTime], [m_gravity],
      [m_omegaCoriolis]) are left out; the key counters are integers without
      an upper bound. *)

From Stdlib Require Import QArith ZArith List Bool String Lia Lqa.
Import ListNotations.

Local Open Scope Q_scope.

(** ** Numbers *)

Definition double := Q.

(** [a < b] on doubles. *)
Definition dlt (a b : double) : bool := negb (Qle_bool b a).

(** [a == 0.0] style comparisons. *)
Definition deq (a b : double) : bool := Qeq_bool a b.

(** ** Messages *)

Record Vector3 := mkVector3 { vx : double; vy : double; vz : double }.

Record Quaternion := mkQuaternion
  { qw : double; qx : double; qy : double; qz : double }.

(** sensor_msgs::NavSatFix: [header.stamp.toSec()] and the geodetic position. *)
Record NavSatFix := mkNavSatFix
  { fix_stamp : double; latitude : double; longitude : double; altitude : double }.

(** sensor_msgs::Imu. *)
Record Imu := mkImu
  { imu_stamp : double; linear_acceleration : Vector3; angular_velocity : Vector3 }.

(** nav_msgs::Odometry as received on /wheel_odom: stamp and [pose.pose]. *)
Record WheelOdom := mkWheelOdom
  { odom_stamp : double; odom_orientation : Quaternion; odom_position : Vector3 }.

(** imu_3dm_gx4::FilterOutput: the fields the node reads. *)
Record FilterOutput := mkFilterOutput
  { fo_orientation : Quaternion; fo_bias : Vector3 }.

(** nav_msgs::Odometry as published on [pose].  [out_angular] is [None] when
    the local [gyro] it is computed from was never assigned. *)
Record PoseMsg := mkPoseMsg
  { out_stamp : double;
    out_orientation : Quaternion;
    out_position : Vector3;
    out_linear : Vector3;
    out_angular : option Vector3;
    out_child_frame_id : string;
    out_frame_id : string }.

(** ** GTSAM values *)

Definition Point3 := Vector3.
Definition Rot3 := Quaternion.

Record Pose3 := mkPose3 { rotation : Rot3; translation : Point3 }.

Record NavState := mkNavState { ns_pose : Pose3; ns_v : Vector3 }.

(** imuBias::ConstantBias. *)
Record ConstantBias := mkBias { accelerometer : Vector3; gyroscope : Vector3 }.

Record PreintegrationParams := mkPreintegrationParams
  { gravityU : double;
    accelerometerCovariance : double;
    gyroscopeCovariance : double;
    integrationCovariance : double }.

(** PreintegratedImuMeasurements: the bias it was built with and the
    measurements integrated since the last reset, oldest first. *)
Record PreintegratedImuMeasurements := mkPIM
  { pim_params : PreintegrationParams;
    biasHat : ConstantBias;
    integrated : list (Vector3 * Vector3 * double) }.

Definition zero3 : Vector3 := mkVector3 0 0 0.
Definition identityRot : Rot3 := mkQuaternion 1 0 0 0.
Definition identityPose : Pose3 := mkPose3 identityRot zero3.
Definition zeroBias : ConstantBias := mkBias zero3 zero3.

Definition newPIM (p : PreintegrationParams) (b : ConstantBias)
  : PreintegratedImuMeasurements :=
  mkPIM p b [].

(** [resetIntegration()] forgets the integrated measurements and keeps the
    bias of the object. *)
Definition resetIntegration (p : PreintegratedImuMeasurements)
  : PreintegratedImuMeasurements :=
  mkPIM (pim_params p) (biasHat p) [].

Definition integrateMeasurement (p : PreintegratedImuMeasurements)
  (acc gyro : Vector3) (dt : double) : PreintegratedImuMeasurements :=
  mkPIM (pim_params p) (biasHat p) (integrated p ++ [(acc, gyro, dt)]).

Definition deltaTij (p : PreintegratedImuMeasurements) : double :=
  fold_left (fun t m => t + snd m) (integrated p) 0.

(** Geodetic origin of the local cartesian frame [m_enu]. *)
Record LocalCartesian := mkLocalCartesian
  { lat0 : double; lon0 : double; alt0 : double }.

(** Computations done by GTSAM, GeographicLib and libm. *)
Class External := {
  rot_mul : Rot3 -> Rot3 -> Rot3;
  RzRyRx : double -> double -> double -> Rot3;
  Ypr : double -> double -> double -> Rot3;
  compose : Pose3 -> Pose3 -> Pose3;
  predict : PreintegratedImuMeasurements -> NavState -> ConstantBias -> NavState;
  Forward : LocalCartesian -> double -> double -> double -> Point3;
  sqrt : double -> double
}.

(** ** Factor graph *)

Inductive Key := X (k : Z) | V (k : Z) | B (k : Z) | G (k : Z).

Inductive Factor :=
| PriorFactorPose (k : Key) (prior : Pose3) (sigmas : list double)
| PriorFactorVel (k : Key) (prior : Vector3) (sigmas : list double)
| PriorFactorBias (k : Key) (prior : ConstantBias) (sigmas : list double)
| BetweenFactorPose (k1 k2 : Key) (measured : Pose3) (sigmas : list double)
| BetweenFactorBias (k1 k2 : Key) (measured : ConstantBias) (sigmas : list double)
| ImuFactor (pose_i vel_i pose_j vel_j bias : Key) (pim : PreintegratedImuMeasurements)
| GPSFactor (k : Key) (gpsIn : Point3) (sigmas : list double).

Inductive Value :=
| ValPose (p : Pose3)
| ValVel (v : Vector3)
| ValBias (b : ConstantBias).

Record Batch := mkBatch
  { newFactors : list Factor; newVariables : list (Key * Value) }.

(** What [calculateEstimate] answers after an [update]. *)
Record Solution := mkSolution
  { estimatePose : Key -> Pose3;
    estimateVel : Key -> Vector3;
    estimateBias : Key -> ConstantBias }.

(** The answer of the solver to one [update]: [None] when it throws. *)
Definition BackendReply := option Solution.

(** ** The bounded queues *)

(** Modelled from the spec: the queue class behind [m_gpsOptQ], [m_ImuOptQ]
    and [m_odomOptQ] is declared in a header that is not part of the sources.
    A queue has a fixed capacity; [pushNonBlocking] enqueues if capacity
    remains and returns failure, dropping the sample, if the queue is full;
    [popBlocking] returns the oldest element and suspends the caller ([None])
    while the queue is empty; [size] is the current depth. *)
Record BlockingQueue (A : Type) := mkQueue { capacity : nat; items : list A }.

Arguments mkQueue {A} _ _.
Arguments capacity {A} _.
Arguments items {A} _.

Definition newQueue {A} (n : nat) : BlockingQueue A := mkQueue n [].

Definition size {A} (q : BlockingQueue A) : nat := List.length (items q).

Definition pushNonBlocking {A} (q : BlockingQueue A) (x : A)
  : bool * BlockingQueue A :=
  if (size q <? capacity q)%nat
  then (true, mkQueue (capacity q) (items q ++ [x]))
  else (false, q).

Definition popBlocking {A} (q : BlockingQueue A) : option (A * BlockingQueue A) :=
  match items q with
  | [] => None
  | x :: rest => Some (x, mkQueue (capacity q) rest)
  end.

Definition front {A} (q : BlockingQueue A) : option A := hd_error (items q).

Definition back {A} (q : BlockingQueue A) : option A :=
  match items q with
  | [] => None
  | x :: rest => Some (last rest x)
  end.

(** ** Parameters, members and outputs *)

(** The private parameters of the node handle; [None] when a parameter is not
    set, in which case [m_nh.param] takes the default. *)
Record RosParams := mkRosParams
  { p_InitialYaw : option double;
    p_InitialRotationNoise : option double;
    p_InitialVelocityNoise : option double;
    p_InitialBiasNoiseAcc : option double;
    p_InitialBiasNoiseGyro : option double;
    p_AccelerometerSigma : option double;
    p_GyroSigma : option double;
    p_AccelBiasSigma : option double;
    p_GyroBiasSigma : option double;
    p_GPSSigma : option double;
    p_SensorTransformX : option double;
    p_SensorTransformY : option double;
    p_SensorTransformZ : option double;
    p_SensorXAngle : option double;
    p_SensorYAngle : option double;
    p_SensorZAngle : option double;
    p_CarXAngle : option double;
    p_CarYAngle : option double;
    p_CarZAngle : option double;
    p_GpsSkip : option Z;
    p_Gravity : option double;
    p_InvertX : option bool;
    p_InvertY : option bool;
    p_InvertZ : option bool;
    p_Imudt : option double;
    p_GPSX : option double;
    p_GPSY : option double;
    p_GPSZ : option double;
    p_FixedInitialPose : option bool;
    p_initialRoll : option double;
    p_intialPitch : option double;
    p_initialYaw : option double;
    p_FixedOrigin : option bool;
    p_latOrigin : option double;
    p_lonOrigin : option double;
    p_altOrigin : option double }.

(** [m_nh.param<T>(name, var, default)]. *)
Definition param {A} (value : option A) (default : A) : A :=
  match value with
  | Some v => v
  | None => default
  end.

(** The members the constructor assigns and nothing writes afterwards. *)
Record Config := mkConfig
  { m_initialYaw : double;
    m_initialRotationNoise : double;
    m_initialVelNoise : double;
    m_initialBiasNoiseAcc : double;
    m_initialBiasNoiseGyro : double;
    m_AccelBiasSigma : double;
    m_GyroBiasSigma : double;
    m_gpsSigma : double;
    m_sensorX : double;
    m_sensorY : double;
    m_sensorZ : double;
    m_sensorXAngle : double;
    m_sensorYAngle : double;
    m_sensorZAngle : double;
    m_carXAngle : double;
    m_carYAngle : double;
    m_carZAngle : double;
    m_gpsSkip : Z;
    m_gravityMagnitude : double;
    m_invertx : bool;
    m_inverty : bool;
    m_invertz : bool;
    m_imuDt : double;
    m_imuPgps : Pose3;
    m_fixedOrigin : bool;
    m_preintegrationParams : PreintegrationParams;
    m_initialPose : FilterOutput;
    m_bodyPSensor : Pose3;
    m_carENUPcarNED : Pose3;
    priorNoisePose : list double;
    priorNoiseVel : list double;
    priorNoiseBias : list double;
    noiseModelBetweenbias_sigma : list double }.

Record Queues := mkQueues
  { m_gpsOptQ : BlockingQueue NavSatFix;
    m_ImuOptQ : BlockingQueue Imu;
    m_odomOptQ : BlockingQueue WheelOdom }.

(** The members guarded by [m_optimizedStateMutex]. *)
Record Optimized := mkOptimized
  { m_optimizedState : NavState;
    m_optimizedBias : ConstantBias;
    m_optimizedTime : double }.

(** The members only [ImuCallback] reads and writes. *)
Record Predictor := mkPredictor
  { m_lastImuT : double;
    m_imuQPrevTime : double;
    m_maxQSize : Z;
    m_imuMeasurements : list Imu;
    m_imuPredictor : PreintegratedImuMeasurements }.

(** The members only [GpsHelper] reads and writes, and its locals [prevTime]
    and [curTime], which are declared before the loop. *)
Record Optimizer := mkOptimizer
  { m_biasKey : Z;
    m_poseVelKey : Z;
    m_lastImuTgps : double;
    m_gotFirstFix : bool;
    m_enu : LocalCartesian;
    m_previousBias : ConstantBias;
    m_prevPose : Pose3;
    m_prevVel : Vector3;
    m_lastIMU : option Imu;
    m_isam : list Batch;
    prevTime : double;
    curTime : double }.

Record Estimator := mkEstimator
  { queues : Queues;
    optimized : Optimized;
    predictor : Predictor;
    optimizer : Optimizer }.

Inductive Event :=
| RosWarn (msg : string)
| RosWarnQueueSize (n : Z)
| Stdout (msg : string)
| StdoutParam (name : string) (value : double)
| StdoutPose (label : string) (p : Pose3)
| StdoutRot (r : Rot3)
| PublishPose (m : PoseMsg)
| PublishBiasAcc (p : Vector3)
| PublishBiasGyro (p : Vector3)
| PublishTimeDelays (p : Vector3)
| DiagOk (msg : string)
| LoopRateSleep.

(** The outcome of constructing the node: either the members are set up, or
    the constructor is still in its loop waiting for /imu/filter. *)
Inductive Startup :=
| Constructed (c : Config) (e : Estimator) (out : list Event)
| WaitingForInitialPose (out : list Event).

(** The outcome of one iteration of the loop of [GpsHelper]. *)
Inductive Outcome :=
| Completed (e : Estimator) (out : list Event)
| Blocked
| Faulted (e : Estimator) (out : list Event).

Section Model.

Context `{External}.

Local Open Scope string_scope.
Local Open Scope list_scope.

(** ** The constructor *)

(** [while (!ip) { ROS_WARN(...); ip = waitForMessage(..., Duration(15)); }]
    Every element of [replies] is what one call of [waitForMessage] returns:
    [None] when its 15 seconds expire. *)
Fixpoint waitForInitialPose (replies : list (option FilterOutput))
  : option FilterOutput * list Event :=
  match replies with
  | [] => (None, [])
  | Some ip :: _ => (Some ip, [RosWarn "Waiting for valid initial pose"])
  | None :: rest =>
      let (ip, out) := waitForInitialPose rest in
      (ip, RosWarn "Waiting for valid initial pose" :: out)
  end.

Definition banner (c : Config) (accSigma gyroSigma : double) : list Event :=
  [ StdoutParam "InitialYaw" (m_initialYaw c);
    StdoutParam "InitialRotationNoise" (m_initialRotationNoise c);
    StdoutParam "InitialVelocityNoise" (m_initialVelNoise c);
    StdoutParam "InitialBiasNoiseAcc" (m_initialBiasNoiseAcc c);
    StdoutParam "InitialBiasNoiseGyro" (m_initialBiasNoiseGyro c);
    StdoutParam "AccelerometerSigma" accSigma;
    StdoutParam "GyroSigma" gyroSigma;
    StdoutParam "AccelBiasSigma" (m_AccelBiasSigma c);
    StdoutParam "GyroBiasSigma" (m_GyroBiasSigma c);
    StdoutParam "GPSSigma" (m_gpsSigma c);
    StdoutParam "SensorTransformX" (m_sensorX c);
    StdoutParam "SensorTransformY" (m_sensorY c);
    StdoutParam "SensorTransformZ" (m_sensorZ c);
    StdoutParam "SensorXAngle" (m_sensorXAngle c);
    StdoutParam "SensorYAngle" (m_sensorYAngle c);
    StdoutParam "SensorZAngle" (m_sensorZAngle c);
    StdoutParam "CarXAngle" (m_carXAngle c);
    StdoutParam "CarYAngle" (m_carYAngle c);
    StdoutParam "CarZAngle" (m_carZAngle c);
    StdoutParam "GpsSkip" (inject_Z (m_gpsSkip c));
    StdoutParam "Gravity" (m_gravityMagnitude c) ].

(** The initial pose when [FixedInitialPose] is set. *)
Definition fixedPose (initialYaw intialPitch initialRoll : double) : FilterOutput :=
  let initialRotation := Ypr initialYaw intialPitch initialRoll in
  mkFilterOutput initialRotation zero3.

Definition makeConfig (rp : RosParams) (ip : FilterOutput) : Config :=
  let accSigma := param (p_AccelerometerSigma rp) (6 # 100) in
  let gyroSigma := param (p_GyroSigma rp) (2 # 100) in
  let rotNoise := param (p_InitialRotationNoise rp) 1 in
  let velNoise := param (p_InitialVelocityNoise rp) (1 # 10) in
  let biasNoiseAcc := param (p_InitialBiasNoiseAcc rp) (1 # 10) in
  let biasNoiseGyro := param (p_InitialBiasNoiseGyro rp) (1 # 100) in
  let accelBiasSigma := param (p_AccelBiasSigma rp) (2 # 10000) in
  let gyroBiasSigma := param (p_GyroBiasSigma rp) (3 # 100000) in
  let gpsSigma := param (p_GPSSigma rp) (7 # 100) in
  let sensorX := param (p_SensorTransformX rp) 0 in
  let sensorY := param (p_SensorTransformY rp) 0 in
  let sensorZ := param (p_SensorTransformZ rp) 0 in
  let sensorXAngle := param (p_SensorXAngle rp) 0 in
  let sensorYAngle := param (p_SensorYAngle rp) 0 in
  let sensorZAngle := param (p_SensorZAngle rp) 0 in
  let carXAngle := param (p_CarXAngle rp) 0 in
  let carYAngle := param (p_CarYAngle rp) 0 in
  let carZAngle := param (p_CarZAngle rp) 0 in
  let gravity := param (p_Gravity rp) (98 # 10) in
  {| m_initialYaw := param (p_InitialYaw rp) 5;
     m_initialRotationNoise := rotNoise;
     m_initialVelNoise := velNoise;
     m_initialBiasNoiseAcc := biasNoiseAcc;
     m_initialBiasNoiseGyro := biasNoiseGyro;
     m_AccelBiasSigma := accelBiasSigma;
     m_GyroBiasSigma := gyroBiasSigma;
     m_gpsSigma := gpsSigma;
     m_sensorX := sensorX;
     m_sensorY := sensorY;
     m_sensorZ := sensorZ;
     m_sensorXAngle := sensorXAngle;
     m_sensorYAngle := sensorYAngle;
     m_sensorZAngle := sensorZAngle;
     m_carXAngle := carXAngle;
     m_carYAngle := carYAngle;
     m_carZAngle := carZAngle;
     m_gpsSkip := param (p_GpsSkip rp) 5%Z;
     m_gravityMagnitude := gravity;
     m_invertx := param (p_InvertX rp) false;
     m_inverty := param (p_InvertY rp) false;
     m_invertz := param (p_InvertZ rp) false;
     m_imuDt := param (p_Imudt rp) (1 # 200);
     m_imuPgps :=
       mkPose3 identityRot
         (mkVector3 (param (p_GPSX rp) 0) (param (p_GPSY rp) 0) (param (p_GPSZ rp) 0));
     m_fixedOrigin := param (p_FixedOrigin rp) false;
     m_preintegrationParams :=
       mkPreintegrationParams gravity accSigma gyroSigma (1 # 100000);
     m_initialPose := ip;
     m_bodyPSensor :=
       mkPose3 (RzRyRx sensorXAngle sensorYAngle sensorZAngle)
         (mkVector3 sensorX sensorY sensorZ);
     m_carENUPcarNED := mkPose3 (RzRyRx carXAngle carYAngle carZAngle) zero3;
     priorNoisePose :=
       [rotNoise; rotNoise; 3 * rotNoise; gpsSigma; gpsSigma; gpsSigma];
     priorNoiseVel := [velNoise; velNoise; velNoise];
     priorNoiseBias :=
       [biasNoiseAcc; biasNoiseAcc; biasNoiseAcc;
        biasNoiseGyro; biasNoiseGyro; biasNoiseGyro];
     noiseModelBetweenbias_sigma :=
       [accelBiasSigma; accelBiasSigma; accelBiasSigma;
        gyroBiasSigma; gyroBiasSigma; gyroBiasSigma] |}.

(** The members as the initialiser list and the constructor body leave them. *)
Definition initialEstimator (rp : RosParams) (c : Config) : Estimator :=
  {| queues :=
       {| m_gpsOptQ := newQueue 40;
          m_ImuOptQ := newQueue 400;
          m_odomOptQ := newQueue 100 |};
     optimized :=
       {| m_optimizedState := mkNavState identityPose zero3;
          m_optimizedBias := zeroBias;
          m_optimizedTime := 0 |};
     predictor :=
       {| m_lastImuT := 0;
          m_imuQPrevTime := 0;
          m_maxQSize := 0%Z;
          m_imuMeasurements := [];
          m_imuPredictor := newPIM (m_preintegrationParams c) zeroBias |};
     optimizer :=
       {| m_biasKey := 0%Z;
          m_poseVelKey := 0%Z;
          m_lastImuTgps := 0;
          m_gotFirstFix := false;
          m_enu :=
            if m_fixedOrigin c
            then mkLocalCartesian (param (p_latOrigin rp) 0)
                   (param (p_lonOrigin rp) 0) (param (p_altOrigin rp) 0)
            else mkLocalCartesian 0 0 0;
          m_previousBias := zeroBias;
          m_prevPose := identityPose;
          m_prevVel := zero3;
          m_lastIMU := None;
          m_isam := [];
          prevTime := 0;
          curTime := 0 |} |}.

(** [StateEstimator::StateEstimator()].  [replies] are the successive results
    of [ros::topic::waitForMessage] on /imu/filter. *)
Definition StateEstimator_ctor (rp : RosParams) (replies : list (option FilterOutput))
  : Startup :=
  let accSigma := param (p_AccelerometerSigma rp) (6 # 100) in
  let gyroSigma := param (p_GyroSigma rp) (2 # 100) in
  let finish (ip : FilterOutput) (out : list Event) :=
    let c := makeConfig rp ip in
    Constructed c (initialEstimator rp c)
      ([StdoutPose "IMU->GPS" (m_imuPgps c)] ++ banner c accSigma gyroSigma ++ out
       ++ [StdoutPose "Body pose" (m_bodyPSensor c);
           StdoutPose "CarBodyPose" (m_carENUPcarNED c)]) in
  if negb (param (p_FixedInitialPose rp) false)
  then
    match waitForInitialPose replies with
    | (Some ip, out) => finish ip out
    | (None, out) =>
        let c := makeConfig rp (mkFilterOutput identityRot zero3) in
        WaitingForInitialPose
          ([StdoutPose "IMU->GPS" (m_imuPgps c)] ++ banner c accSigma gyroSigma ++ out)
    end
  else
    finish
      (fixedPose (param (p_initialYaw rp) 0) (param (p_intialPitch rp) 0)
         (param (p_initialRoll rp) 0))
      [RosWarn "Using fixed initial pose"].


(** ** Member updates *)

Definition set_queues (e : Estimator) (q : Queues) : Estimator :=
  mkEstimator q (optimized e) (predictor e) (optimizer e).

Definition set_gpsOptQ (qs : Queues) (q : BlockingQueue NavSatFix) : Queues :=
  mkQueues q (m_ImuOptQ qs) (m_odomOptQ qs).

Definition set_ImuOptQ (qs : Queues) (q : BlockingQueue Imu) : Queues :=
  mkQueues (m_gpsOptQ qs) q (m_odomOptQ qs).

Definition set_odomOptQ (qs : Queues) (q : BlockingQueue WheelOdom) : Queues :=
  mkQueues (m_gpsOptQ qs) (m_ImuOptQ qs) q.

Definition v3_add (a b : Vector3) : Vector3 :=
  mkVector3 (vx a + vx b) (vy a + vy b) (vz a + vz b).

(** ** The producers' callbacks *)

Definition GpsCallback (fix_ : NavSatFix) (e : Estimator) : Estimator * list Event :=
  let (pushed, q) := pushNonBlocking (m_gpsOptQ (queues e)) fix_ in
  (set_queues e (set_gpsOptQ (queues e) q),
   if pushed then [] else [RosWarn "Dropping a GPS measurement due to full queue!!"]).

(** The push's result is ignored: the warning is commented out in the source. *)
Definition WheelOdomCallback (odom : WheelOdom) (e : Estimator)
  : Estimator * list Event :=
  let (_, q) := pushNonBlocking (m_odomOptQ (queues e)) odom in
  (set_queues e (set_odomOptQ (queues e) q), []).

Definition GetAccGyro (c : Config) (imu : Imu) : Vector3 * Vector3 :=
  let a := linear_acceleration imu in
  let w := angular_velocity imu in
  let accx := if m_invertx c then - vx a else vx a in
  let accy := if m_inverty c then - vy a else vy a in
  let accz := if m_invertz c then - vz a else vz a in
  let gx := if m_invertx c then - vx w else vx w in
  let gy := if m_inverty c then - vy w else vy w in
  let gz := if m_invertz c then - vz w else vz w in
  (mkVector3 accx accy accz, mkVector3 gx gy gz).

(** [while (!m_imuMeasurements.empty() && front.stamp < optimizedTime)]:
    pops from the front and returns what is left, the stamp of the sample
    popped last, and [newMeasurements]. *)
Fixpoint discardOlder (optimizedTime : double) (buffered : list Imu)
  (imuQPrevTime : double) (newMeasurements : bool) : list Imu * double * bool :=
  match buffered with
  | [] => ([], imuQPrevTime, newMeasurements)
  | m :: rest =>
      if dlt (imu_stamp m) optimizedTime
      then discardOlder optimizedTime rest (imu_stamp m) true
      else (buffered, imuQPrevTime, newMeasurements)
  end.

(** The [for] loop over [m_imuMeasurements] after [resetIntegration()].
    [gyro] is the local of [ImuCallback]; it holds a value once a sample has
    been through [GetAccGyro]. *)
Fixpoint reintegrate (c : Config) (buffered : list Imu) (imuQPrevTime : double)
  (pim : PreintegratedImuMeasurements) (gyro : option Vector3)
  : PreintegratedImuMeasurements * double * option Vector3 :=
  match buffered with
  | [] => (pim, imuQPrevTime, gyro)
  | it :: rest =>
      let dt_temp := imu_stamp it - imuQPrevTime in
      let (acc, g) := GetAccGyro c it in
      reintegrate c rest (imu_stamp it) (integrateMeasurement pim acc g dt_temp) (Some g)
  end.

Definition poseMessage (imu : Imu) (currentPose : NavState) (gyro : option Vector3)
  (optimizedBias : ConstantBias) : PoseMsg :=
  {| out_stamp := imu_stamp imu;
     out_orientation := rotation (ns_pose currentPose);
     out_position := translation (ns_pose currentPose);
     out_linear := ns_v currentPose;
     out_angular := option_map (fun g => v3_add g (gyroscope optimizedBias)) gyro;
     out_child_frame_id := "base_link";
     out_frame_id := "odom" |}.

(** [ImuCallback] from the copy of the optimized state it takes under the
    mutex ([snapshot]) on.  [now] is what [ros::Time::now()] returns. *)
Definition ImuCallback_from (snapshot : Optimized) (c : Config) (now : double)
  (imu : Imu) (qs : Queues) (p : Predictor) : Queues * Predictor * list Event :=
  let dt := if deq (m_lastImuT p) 0 then 5 # 1000 else imu_stamp imu - m_lastImuT p in
  let qSize := Z.of_nat (size (m_ImuOptQ qs)) in
  let grown := (m_maxQSize p <? qSize)%Z in
  let maxQSize := if grown then qSize else m_maxQSize p in
  let warnSize := if grown && (20 <? maxQSize)%Z then [RosWarnQueueSize maxQSize] else [] in
  let (pushed, q) := pushNonBlocking (m_ImuOptQ qs) imu in
  let warnDrop :=
    if pushed then [] else [RosWarn "Dropping an IMU measurement due to full queue!!"] in
  let buffered := m_imuMeasurements p ++ [imu] in
  let optimizedState := m_optimizedState snapshot in
  let optimizedBias := m_optimizedBias snapshot in
  let optimizedTime := m_optimizedTime snapshot in
  if deq optimizedTime 0
  then
    (set_ImuOptQ qs q,
     mkPredictor (imu_stamp imu) (m_imuQPrevTime p) maxQSize buffered (m_imuPredictor p),
     warnSize ++ warnDrop)
  else
    let '(kept, imuQPrevTime, newMeasurements) :=
      discardOlder optimizedTime buffered (m_imuQPrevTime p) false in
    let '(pim, imuQPrevTime', gyro) :=
      if newMeasurements
      then reintegrate c kept imuQPrevTime (resetIntegration (m_imuPredictor p)) None
      else
        let (acc, g) := GetAccGyro c imu in
        (integrateMeasurement (m_imuPredictor p) acc g dt, imuQPrevTime, Some g) in
    let currentPose := predict pim optimizedState optimizedBias in
    let delays :=
      mkVector3 (imu_stamp imu) (now - imu_stamp imu) (imu_stamp imu - optimizedTime) in
    (set_ImuOptQ qs q,
     mkPredictor (imu_stamp imu) imuQPrevTime' maxQSize kept pim,
     warnSize ++ warnDrop
     ++ [PublishPose (poseMessage imu currentPose gyro optimizedBias);
         PublishTimeDelays delays]).

Definition ImuCallback (c : Config) (now : double) (imu : Imu) (e : Estimator)
  : Estimator * list Event :=
  let '(qs, p, out) := ImuCallback_from (optimized e) c now imu (queues e) (predictor e) in
  (mkEstimator qs (optimized e) p (optimizer e), out).


(** ** The optimizer thread *)

(** What the head of the loop body decides. *)
Record Trigger := mkTrigger
  { fix_ : option NavSatFix; usingGPS : bool; usingOdom : bool }.

(** [while (m_gpsOptQ.size() > 0) { fix = m_gpsOptQ.popBlocking(); ... }] *)
Fixpoint drainToNewest (newest : NavSatFix) (pending : list NavSatFix)
  : NavSatFix * list NavSatFix :=
  match pending with
  | [] => (newest, [])
  | f :: rest => drainToNewest f rest
  end.

(** Lines 303-321: the trigger, the new [curTime] and the queues after the
    pops; [None] when [popBlocking] finds the GPS queue empty. *)
Definition selectTrigger (e : Estimator) : option (Trigger * double * Queues) :=
  let qs := queues e in
  let o := optimizer e in
  if negb (m_gotFirstFix o) || (0 <? size (m_gpsOptQ qs))%nat
  then
    match popBlocking (m_gpsOptQ qs) with
    | None => None
    | Some (f, q) =>
        let (newest, rest) := drainToNewest f (items q) in
        Some (mkTrigger (Some newest) true false, fix_stamp newest,
              set_gpsOptQ qs (mkQueue (capacity q) rest))
    end
  else if m_gotFirstFix o && (0 <? size (m_odomOptQ qs))%nat
  then
    match back (m_odomOptQ qs) with
    | Some od => Some (mkTrigger None false true, odom_stamp od, qs)
    | None => Some (mkTrigger None false false, curTime o, qs)
    end
  else Some (mkTrigger None false false, curTime o, qs).

(** [while (m_lastIMU->stamp < fix->stamp) { m_lastImuTgps = m_lastIMU->stamp;
    m_lastIMU = m_ImuOptQ.popBlocking(); }] *)
Fixpoint readImuUpTo (t : double) (lastIMU : Imu) (lastImuTgps : double)
  (pending : list Imu) {struct pending} : option (Imu * double * list Imu) :=
  if dlt (imu_stamp lastIMU) t
  then
    match pending with
    | [] => None
    | m :: rest => readImuUpTo t m (imu_stamp lastIMU) rest
    end
  else Some (lastIMU, lastImuTgps, pending).

Definition imuPgpsSigmas : list double :=
  [1 # 1000; 1 # 1000; 1 # 1000; 3 # 100; 3 # 100; 3 # 100].

(** Lines 323-384: the first fix. *)
Definition bootstrap (c : Config) (reply : BackendReply) (e : Estimator)
  (f : NavSatFix) (cur : double) (qs : Queues) : Outcome :=
  let o := optimizer e in
  let '(enu, ENU) :=
    if negb (m_fixedOrigin c)
    then (mkLocalCartesian (latitude f) (longitude f) (altitude f), zero3)
    else (m_enu o, Forward (m_enu o) (latitude f) (longitude f) (altitude f)) in
  let initialOrientation := fo_orientation (m_initialPose c) in
  let rot :=
    rot_mul (rot_mul (rotation (m_bodyPSensor c)) initialOrientation)
      (rotation (m_carENUPcarNED c)) in
  let x0 := mkPose3 rot ENU in
  let b := fo_bias (m_initialPose c) in
  let biases := mkBias zero3 (mkVector3 (vx b) (- vy b) (- vz b)) in
  let newFactors :=
    [ PriorFactorPose (X 0) x0 (priorNoisePose c);
      PriorFactorVel (V 0) zero3 (priorNoiseVel c);
      PriorFactorBias (B 0) biases (priorNoiseBias c);
      BetweenFactorPose (X 0) (G 0) (m_imuPgps c) imuPgpsSigmas ] in
  let newVariables :=
    [ (X 0, ValPose x0);
      (V 0, ValVel zero3);
      (B 0, ValBias biases);
      (G 0, ValPose (compose x0 (m_imuPgps c))) ] in
  let out := [Stdout "Initial orientation"; StdoutRot rot] in
  let started (isam : list Batch) (lastIMU : option Imu) (lastImuTgps prev : double)
      (qs' : Queues) :=
    mkEstimator qs' (optimized e) (predictor e)
      {| m_biasKey := m_biasKey o;
         m_poseVelKey := m_poseVelKey o;
         m_lastImuTgps := lastImuTgps;
         m_gotFirstFix := true;
         m_enu := enu;
         m_previousBias := biases;
         m_prevPose := x0;
         m_prevVel := m_prevVel o;
         m_lastIMU := lastIMU;
         m_isam := isam;
         prevTime := prev;
         curTime := cur |} in
  match reply with
  | None => Faulted (started (m_isam o) (m_lastIMU o) (m_lastImuTgps o) (prevTime o) qs) out
  | Some _ =>
      let isam := m_isam o ++ [mkBatch newFactors newVariables] in
      match popBlocking (m_ImuOptQ qs) with
      | None => Blocked
      | Some (first, q) =>
          match readImuUpTo (fix_stamp f) first (imu_stamp first - (5 # 1000)) (items q) with
          | None => Blocked
          | Some (lastIMU, lastImuTgps, rest) =>
              Completed
                (started isam (Some lastIMU) lastImuTgps cur
                   (set_ImuOptQ qs (mkQueue (capacity q) rest)))
                (out ++ [LoopRateSleep])
          end
      end
  end.

(** [while (m_odomOptQ.size() > 0 && front.stamp < prevTime) popBlocking();] *)
Fixpoint tossOlder (t : double) (pending : list WheelOdom) : list WheelOdom :=
  match pending with
  | [] => []
  | od :: rest => if dlt (odom_stamp od) t then tossOlder t rest else pending
  end.

(** [while (m_odomOptQ.size() != 0 && front.stamp < curTime)
      lastOdom = m_odomOptQ.popBlocking();] *)
Fixpoint advanceLast (t : double) (lastOdom : WheelOdom) (pending : list WheelOdom)
  : WheelOdom * list WheelOdom :=
  match pending with
  | [] => (lastOdom, [])
  | od :: rest =>
      if dlt (odom_stamp od) t then advanceLast t od rest else (lastOdom, pending)
  end.

Definition odomSigmas : list double := [1 # 10; 1 # 10; 100; 100; 100; 3 # 10].

Definition odomPose (od : WheelOdom) : Pose3 :=
  mkPose3 (odom_orientation od) (odom_position od).

(** Lines 397-418.  Returns the factors added for wheel odometry, the pair
    [(firstOdom, lastOdom)] and what is left in the queue; [None] when one of
    the two [popBlocking] finds the queue empty.  The source calls
    [betweenOdomPose.between(lastOdomPose)] and does not use its value: the
    factor is built from [betweenOdomPose] as constructed from [firstOdom]. *)
Definition odomFactors (poseVelKey : Z) (usingGPS : bool) (cur : double)
  (pending : list WheelOdom)
  : option (list Factor * (WheelOdom * WheelOdom) * list WheelOdom) :=
  match pending with
  | firstOdom :: lastOdom :: rest =>
      if negb usingGPS || dlt (odom_stamp lastOdom) cur
      then
        let (lastOdom', rest') := advanceLast cur lastOdom rest in
        let betweenOdomPose := odomPose firstOdom in
        Some ([BetweenFactorPose (X poseVelKey) (X poseVelKey) betweenOdomPose odomSigmas],
              (firstOdom, lastOdom'), rest')
      else Some ([], (firstOdom, lastOdom), rest)
  | _ => None
  end.

(** [while (m_lastIMU->stamp < curTime) { ... integrateMeasurement ...;
    m_lastIMU = m_ImuOptQ.popBlocking(); }] *)
Fixpoint integrateUpTo (c : Config) (t : double) (lastIMU : Imu) (lastImuTgps : double)
  (pim : PreintegratedImuMeasurements) (pending : list Imu) {struct pending}
  : option (Imu * double * PreintegratedImuMeasurements * list Imu) :=
  if dlt (imu_stamp lastIMU) t
  then
    let (acc, gyro) := GetAccGyro c lastIMU in
    let imuDT := imu_stamp lastIMU - lastImuTgps in
    let pim' := integrateMeasurement pim acc gyro imuDT in
    match pending with
    | [] => None
    | m :: rest => integrateUpTo c t m (imu_stamp lastIMU) pim' rest
    end
  else Some (lastIMU, lastImuTgps, pim, pending).

(** Lines 443-455. *)
Definition gpsFactors (c : Config) (enu : LocalCartesian) (poseVelKey : Z)
  (f : NavSatFix) : list Factor :=
  [ GPSFactor (G (poseVelKey + 1))
      (Forward enu (latitude f) (longitude f) (altitude f))
      [m_gpsSigma c; m_gpsSigma c; 3 * m_gpsSigma c];
    BetweenFactorPose (X (poseVelKey + 1)) (G (poseVelKey + 1)) (m_imuPgps c)
      imuPgpsSigmas ].

(** Lines 385-497: one correction.  A null [m_lastIMU] or a null [fix] where
    the source dereferences it ends the process like a fault. *)
Definition steady (c : Config) (reply : BackendReply) (e : Estimator)
  (trig : Trigger) (cur : double) (qs : Queues) : Outcome :=
  let o := optimizer e in
  let k := m_poseVelKey o in
  let bk := m_biasKey o in
  let out := match fix_ trig with
             | None => [Stdout "adding factor with no GPS measurement"]
             | Some _ => []
             end in
  let odomQ := m_odomOptQ qs in
  match odomFactors k (usingGPS trig) cur (tossOlder (prevTime o) (items odomQ)) with
  | None => Blocked
  | Some (odomFs, _, odomRest) =>
      match m_lastIMU o with
      | None => Faulted (set_queues e qs) out
      | Some lastIMU0 =>
          let imuQ := m_ImuOptQ qs in
          match integrateUpTo c cur lastIMU0 (m_lastImuTgps o)
                  (newPIM (m_preintegrationParams c) (m_previousBias o)) (items imuQ) with
          | None => Blocked
          | Some (lastIMU, lastImuTgps, pre_int_data, imuRest) =>
              let qs' :=
                mkQueues (m_gpsOptQ qs) (mkQueue (capacity imuQ) imuRest)
                  (mkQueue (capacity odomQ) odomRest) in
              let imuFactor :=
                ImuFactor (X k) (V k) (X (k + 1)) (V (k + 1)) (B bk) pre_int_data in
              let biasFactor :=
                BetweenFactorBias (B bk) (B (bk + 1)) zeroBias
                  (map (fun s => sqrt (deltaTij pre_int_data) * s)
                     (noiseModelBetweenbias_sigma c)) in
              let curNavState := mkNavState (m_prevPose o) (m_prevVel o) in
              let nextNavState := predict pre_int_data curNavState (m_previousBias o) in
              let gpsFs :=
                if usingGPS trig
                then option_map (gpsFactors c (m_enu o) k) (fix_ trig)
                else Some [] in
              let newVariables :=
                [ (X (k + 1), ValPose (ns_pose nextNavState));
                  (V (k + 1), ValVel (ns_v nextNavState));
                  (B (bk + 1), ValBias (m_previousBias o));
                  (G (k + 1), ValPose (compose (ns_pose nextNavState) (m_imuPgps c))) ] in
              let at_update (isam : list Batch) (pose : Pose3) (vel : Vector3)
                  (bias : ConstantBias) (opt : Optimized) (bk' k' : Z) (prev : double) :=
                mkEstimator qs' opt (predictor e)
                  {| m_biasKey := bk';
                     m_poseVelKey := k';
                     m_lastImuTgps := lastImuTgps;
                     m_gotFirstFix := m_gotFirstFix o;
                     m_enu := m_enu o;
                     m_previousBias := bias;
                     m_prevPose := pose;
                     m_prevVel := vel;
                     m_lastIMU := Some lastIMU;
                     m_isam := isam;
                     prevTime := prev;
                     curTime := cur |} in
              let thrown :=
                Faulted
                  (at_update (m_isam o) (m_prevPose o) (m_prevVel o) (m_previousBias o)
                     (optimized e) bk k (prevTime o))
                  out in
              match gpsFs with
              | None => thrown
              | Some gpsFs' =>
                  let newFactors := odomFs ++ [imuFactor; biasFactor] ++ gpsFs' in
                  match reply with
                  | None => thrown
                  | Some sol =>
                      let pose := estimatePose sol (X (k + 1)) in
                      let vel := estimateVel sol (V (k + 1)) in
                      let bias := estimateBias sol (B (bk + 1)) in
                      Completed
                        (at_update (m_isam o ++ [mkBatch newFactors newVariables])
                           pose vel bias
                           (mkOptimized (mkNavState pose vel) bias cur)
                           (bk + 1)%Z (k + 1)%Z cur)
                        (out ++ [DiagOk "Still ok!";
                                 PublishBiasAcc (accelerometer bias);
                                 PublishBiasGyro (gyroscope bias);
                                 LoopRateSleep])
                  end
              end
          end
      end
  end.

(** One pass through the body of [while (ros::ok())] in [GpsHelper]. *)
Definition GpsHelper_iteration (c : Config) (reply : BackendReply) (e : Estimator)
  : Outcome :=
  match selectTrigger e with
  | None => Blocked
  | Some (trig, cur, qs) =>
      if negb (m_gotFirstFix (optimizer e))
      then
        match fix_ trig with
        | Some f => bootstrap c reply e f cur qs
        | None => Faulted e []
        end
      else if usingGPS trig || usingOdom trig
      then steady c reply e trig cur qs
      else Completed e []
  end.

(** ** The node as a whole *)

(** What can happen next: a message is delivered to one of the callbacks, or
    the optimizer thread goes once through its loop body. *)
Inductive Action :=
| GpsFix (f : NavSatFix)
| ImuSample (now : double) (imu : Imu)
| WheelOdomSample (odom : WheelOdom)
| HelperIteration (reply : BackendReply).

(** An exception that leaves [GpsHelper] is not caught: the process ends. *)
Inductive Process :=
| Alive (e : Estimator)
| Terminated (e : Estimator).

Definition estimatorOf (p : Process) : Estimator :=
  match p with
  | Alive e => e
  | Terminated e => e
  end.

(** An iteration that cannot finish with what the queues hold leaves the
    members as they were: it is taken again once more data has arrived. *)
Definition step (c : Config) (a : Action) (p : Process) : Process * list Event :=
  match p with
  | Terminated e => (Terminated e, [])
  | Alive e =>
      match a with
      | GpsFix f => let (e', out) := GpsCallback f e in (Alive e', out)
      | ImuSample now imu => let (e', out) := ImuCallback c now imu e in (Alive e', out)
      | WheelOdomSample od => let (e', out) := WheelOdomCallback od e in (Alive e', out)
      | HelperIteration reply =>
          match GpsHelper_iteration c reply e with
          | Completed e' out => (Alive e', out)
          | Blocked => (Alive e, [])
          | Faulted e' out => (Terminated e', out)
          end
      end
  end.

Fixpoint run (c : Config) (actions : list Action) (p : Process)
  : Process * list Event :=
  match actions with
  | [] => (p, [])
  | a :: rest =>
      let (p', out) := step c a p in
      let (p'', out') := run c rest p' in
      (p'', out ++ out')
  end.

(** From the parameter server to the outputs: construct, then run. *)
Definition node (rp : RosParams) (replies : list (option FilterOutput))
  (actions : list Action) : option (Process * list Event) :=
  match StateEstimator_ctor rp replies with
  | Constructed c e out =>
      let (p, out') := run c actions (Alive e) in Some (p, out ++ out')
  | WaitingForInitialPose _ => None
  end.

End Model.

(** ** Concrete data to evaluate the model on *)

(** A stand-in for the external computations: rotations are left alone,
    poses compose by adding translations, [predict] returns the state it is
    given and [Forward] subtracts the origin. *)
Definition flatExternal : External :=
  {| rot_mul := fun a _ => a;
     RzRyRx := fun _ _ _ => identityRot;
     Ypr := fun _ _ _ => identityRot;
     compose := fun a b => mkPose3 (rotation a) (v3_add (translation a) (translation b));
     predict := fun _ s _ => s;
     Forward := fun enu lat lon alt =>
                  mkVector3 (lat - lat0 enu) (lon - lon0 enu) (alt - alt0 enu);
     sqrt := fun x => x |}.

(** No parameter set: every [m_nh.param] takes its default. *)
Definition defaultParams : RosParams :=
  mkRosParams None None None None None None None None None None None None
    None None None None None None None None None None None None None None
    None None None None None None None None None None.

Definition sampleFilterOutput : FilterOutput :=
  mkFilterOutput identityRot zero3.

Definition fixAt (t : double) : NavSatFix := mkNavSatFix t 0 0 0.

Definition imuAt (t : double) (gx gy gz : double) : Imu :=
  mkImu t zero3 (mkVector3 gx gy gz).

Definition odomAt (t : double) (x : double) : WheelOdom :=
  mkWheelOdom t identityRot (mkVector3 x 0 0).

(** A solver answer with the same estimate for every key. *)
Definition constantSolution (b : ConstantBias) : Solution :=
  mkSolution (fun _ => identityPose) (fun _ => zero3) (fun _ => b).


Definition isPublish (ev : Event) : bool :=
  match ev with
  | PublishPose _ | PublishBiasAcc _ | PublishBiasGyro _ | PublishTimeDelays _ => true
  | _ => false
  end.

Definition isRosWarn (ev : Event) : bool :=
  match ev with
  | RosWarn _ | RosWarnQueueSize _ => true
  | _ => false
  end.

Definition isGPSFactor (f : Factor) : bool :=
  match f with
  | GPSFactor _ _ _ => true
  | _ => false
  end.


(** ** The fast predictor: vocabulary *)

(** Stamps in arrival order: none is smaller than one before it. *)
Fixpoint nondecreasing (stamps : list double) : bool :=
  match stamps with
  | [] => true
  | t :: rest => forallb (fun u => Qle_bool t u) rest && nondecreasing rest
  end.

Definition older (t : double) (m : Imu) : bool := dlt (imu_stamp m) t.

Definition notOlder (t : double) (m : Imu) : bool := negb (dlt (imu_stamp m) t).

(** The accelerations and rates a preintegration holds, oldest first. *)
Definition samplesOf (pim : PreintegratedImuMeasurements) : list (Vector3 * Vector3) :=
  map fst (integrated pim).



(** The members after the node has been constructed and [actions] have run. *)
Definition stateAfter `{External} (rp : RosParams) (replies : list (option FilterOutput))
  (actions : list Action) : option (Config * Estimator) :=
  match StateEstimator_ctor rp replies with
  | Constructed c e _ => Some (c, estimatorOf (fst (run c actions (Alive e))))
  | WaitingForInitialPose _ => None
  end.


(** ** Epochs: vocabulary *)

(** The optimized state as the constructor leaves it. *)
Definition unsetOptimized : Optimized :=
  mkOptimized (mkNavState identityPose zero3) zeroBias 0.

(** The key under which a batch inserts its first new variable. *)
Definition batchKey (b : Batch) : option Key :=
  match newVariables b with
  | (k, _) :: _ => Some k
  | [] => None
  end.

(** [X 0; X 1; ...; X (n - 1)]. *)
Definition epochs (n : nat) : list (option Key) :=
  map (fun i => Some (X (Z.of_nat i))) (seq 0 n).

(** What holds of the members whenever the optimizer thread is between two
    iterations: the two key counters agree and are not negative, the solver
    has accepted one batch per epoch, and the optimized state is still the
    constructor's as long as the counter is 0. *)
Definition betweenIterations (e : Estimator) : Prop :=
  let o := optimizer e in
  m_biasKey o = m_poseVelKey o
  /\ (0 <= m_poseVelKey o)%Z
  /\ map batchKey (m_isam o) = epochs (List.length (m_isam o))
  /\ (if m_gotFirstFix o
      then Z.of_nat (List.length (m_isam o)) = (m_poseVelKey o + 1)%Z
      else m_isam o = [] /\ m_poseVelKey o = 0%Z)
  /\ (m_poseVelKey o = 0%Z -> optimized e = unsetOptimized).

(** What is left of it after an iteration has ended in a fault. *)
Definition afterFault (e : Estimator) : Prop :=
  let o := optimizer e in
  map batchKey (m_isam o) = epochs (List.length (m_isam o))
  /\ (m_poseVelKey o = 0%Z -> optimized e = unsetOptimized).

(** What [ImuCallback] publishes. *)
Definition isPredictorOutput (ev : Event) : bool :=
  match ev with
  | PublishPose _ | PublishTimeDelays _ => true
  | _ => false
  end.

(** ** The published angular rate: vocabulary *)



Definition publishedPoses (out : list Event) : list PoseMsg :=
  flat_map (fun ev => match ev with PublishPose m => [m] | _ => [] end) out.

(** A start that ends with a correction whose gyroscope bias is (1, 1, 1). *)
Definition biasedStart : list Action :=
  [ ImuSample 8 (imuAt 8 0 0 0);
    ImuSample 11 (imuAt 11 0 0 0);
    GpsFix (fixAt 9);
    HelperIteration (Some (constantSolution zeroBias));
    WheelOdomSample (odomAt 9 0);
    WheelOdomSample (odomAt 10 1);
    GpsFix (fixAt 10);
    HelperIteration (Some (constantSolution (mkBias zero3 (mkVector3 1 1 1)))) ].

(** ** Queue overflow: vocabulary *)

Definition fullQueue {A} (q : BlockingQueue A) : Prop :=
  (capacity q <= size q)%nat.

(** No queue holds more than the capacity the constructor gave it. *)
Definition queuesBounded (e : Estimator) : Prop :=
  let qs := queues e in
  (size (m_gpsOptQ qs) <= capacity (m_gpsOptQ qs))%nat
  /\ (size (m_ImuOptQ qs) <= capacity (m_ImuOptQ qs))%nat
  /\ (size (m_odomOptQ qs) <= capacity (m_odomOptQ qs))%nat
  /\ capacity (m_gpsOptQ qs) = 40%nat
  /\ capacity (m_ImuOptQ qs) = 400%nat
  /\ capacity (m_odomOptQ qs) = 100%nat.

(** Overflow as the specification words it: whichever queue is full, the
    callback that finds it full surfaces a warning. *)
Definition spec_overflow_is_warned `{External} (c : Config) (e : Estimator) : Prop :=
  (fullQueue (m_gpsOptQ (queues e)) ->
   forall f, filter isRosWarn (snd (GpsCallback f e)) <> [])
  /\ (fullQueue (m_ImuOptQ (queues e)) ->
      forall now imu, filter isRosWarn (snd (ImuCallback c now imu e)) <> [])
  /\ (fullQueue (m_odomOptQ (queues e)) ->
      forall od, filter isRosWarn (snd (WheelOdomCallback od e)) <> []).

(** A hundred wheel-odometry messages and no optimizer iteration. *)
Definition hundredOdom : list Action :=
  repeat (WheelOdomSample (odomAt 1 0)) 100.

(** ** Start-up and configuration: vocabulary *)

(** The bootstrap wait as the specification words it: some number of expired
    waits makes the constructor give up, whatever arrives afterwards. *)
Definition spec_bootstrap_wait_bounded `{External} (rp : RosParams) : Prop :=
  exists bound : nat,
    forall replies c e out,
      firstn bound replies = repeat None bound ->
      StateEstimator_ctor rp replies <> Constructed c e out.

Definition isGpsFix (a : Action) : bool :=
  match a with
  | GpsFix _ => true
  | _ => false
  end.

Definition waitingWarning : Event := RosWarn "Waiting for valid initial pose".

(** The parameter server with [GpsSkip] replaced. *)
Definition set_p_GpsSkip (rp : RosParams) (v : option Z) : RosParams :=
  {| p_InitialYaw := p_InitialYaw rp;
     p_InitialRotationNoise := p_InitialRotationNoise rp;
     p_InitialVelocityNoise := p_InitialVelocityNoise rp;
     p_InitialBiasNoiseAcc := p_InitialBiasNoiseAcc rp;
     p_InitialBiasNoiseGyro := p_InitialBiasNoiseGyro rp;
     p_AccelerometerSigma := p_AccelerometerSigma rp;
     p_GyroSigma := p_GyroSigma rp;
     p_AccelBiasSigma := p_AccelBiasSigma rp;
     p_GyroBiasSigma := p_GyroBiasSigma rp;
     p_GPSSigma := p_GPSSigma rp;
     p_SensorTransformX := p_SensorTransformX rp;
     p_SensorTransformY := p_SensorTransformY rp;
     p_SensorTransformZ := p_SensorTransformZ rp;
     p_SensorXAngle := p_SensorXAngle rp;
     p_SensorYAngle := p_SensorYAngle rp;
     p_SensorZAngle := p_SensorZAngle rp;
     p_CarXAngle := p_CarXAngle rp;
     p_CarYAngle := p_CarYAngle rp;
     p_CarZAngle := p_CarZAngle rp;
     p_GpsSkip := v;
     p_Gravity := p_Gravity rp;
     p_InvertX := p_InvertX rp;
     p_InvertY := p_InvertY rp;
     p_InvertZ := p_InvertZ rp;
     p_Imudt := p_Imudt rp;
     p_GPSX := p_GPSX rp;
     p_GPSY := p_GPSY rp;
     p_GPSZ := p_GPSZ rp;
     p_FixedInitialPose := p_FixedInitialPose rp;
     p_initialRoll := p_initialRoll rp;
     p_intialPitch := p_intialPitch rp;
     p_initialYaw := p_initialYaw rp;
     p_FixedOrigin := p_FixedOrigin rp;
     p_latOrigin := p_latOrigin rp;
     p_lonOrigin := p_lonOrigin rp;
     p_altOrigin := p_altOrigin rp |}.

(** Two parameter servers that agree on everything but [GpsSkip]. *)
Definition differOnlyInGpsSkip (rp1 rp2 : RosParams) : Prop :=
  set_p_GpsSkip rp1 None = set_p_GpsSkip rp2 None.

(** The members with [m_gpsSkip] replaced. *)
Definition set_gpsSkip (c : Config) (k : Z) : Config :=
  {| m_initialYaw := m_initialYaw c;
     m_initialRotationNoise := m_initialRotationNoise c;
     m_initialVelNoise := m_initialVelNoise c;
     m_initialBiasNoiseAcc := m_initialBiasNoiseAcc c;
     m_initialBiasNoiseGyro := m_initialBiasNoiseGyro c;
     m_AccelBiasSigma := m_AccelBiasSigma c;
     m_GyroBiasSigma := m_GyroBiasSigma c;
     m_gpsSigma := m_gpsSigma c;
     m_sensorX := m_sensorX c;
     m_sensorY := m_sensorY c;
     m_sensorZ := m_sensorZ c;
     m_sensorXAngle := m_sensorXAngle c;
     m_sensorYAngle := m_sensorYAngle c;
     m_sensorZAngle := m_sensorZAngle c;
     m_carXAngle := m_carXAngle c;
     m_carYAngle := m_carYAngle c;
     m_carZAngle := m_carZAngle c;
     m_gpsSkip := k;
     m_gravityMagnitude := m_gravityMagnitude c;
     m_invertx := m_invertx c;
     m_inverty := m_inverty c;
     m_invertz := m_invertz c;
     m_imuDt := m_imuDt c;
     m_imuPgps := m_imuPgps c;
     m_fixedOrigin := m_fixedOrigin c;
     m_preintegrationParams := m_preintegrationParams c;
     m_initialPose := m_initialPose c;
     m_bodyPSensor := m_bodyPSensor c;
     m_carENUPcarNED := m_carENUPcarNED c;
     priorNoisePose := priorNoisePose c;
     priorNoiseVel := priorNoiseVel c;
     priorNoiseBias := priorNoiseBias c;
     noiseModelBetweenbias_sigma := noiseModelBetweenbias_sigma c |}.

(** Everything but the parameter listing the constructor prints. *)
Definition notParamListing (ev : Event) : bool :=
  match ev with
  | StdoutParam _ _ => false
  | _ => true
  end.

(** ** Wheel odometry: vocabulary *)

(** The factor built from wheel odometry: a pose constraint between pose keys. *)
Definition isWheelOdomFactor (f : Factor) : bool :=
  match f with
  | BetweenFactorPose (X _) (X _) _ _ => true
  | _ => false
  end.

(** What the specification says of a batch that holds a GPS factor: it holds
    no wheel-odometry factor. *)
Definition spec_absolute_excludes_relative (batch : Batch) : Prop :=
  filter isGPSFactor (newFactors batch) <> [] ->
  filter isWheelOdomFactor (newFactors batch) = [].

(** A first fix, then wheel odometry at 1, 2 and 3 and fixes at 4 and 5
    before the optimizer thread makes its first correction. *)
Definition fixAfterOdometry : list Action :=
  [ GpsFix (fixAt 1);
    ImuSample 0 (imuAt (1 # 2) 0 0 0);
    ImuSample 0 (imuAt (3 # 2) 0 0 0);
    HelperIteration (Some (constantSolution zeroBias));
    WheelOdomSample (odomAt 1 0);
    WheelOdomSample (odomAt 2 1);
    WheelOdomSample (odomAt 3 2);
    GpsFix (fixAt 4);
    GpsFix (fixAt 5);
    ImuSample 0 (imuAt (5 # 2) 0 0 0);
    ImuSample 0 (imuAt 6 0 0 0);
    HelperIteration (Some (constantSolution zeroBias)) ].

(** ** Reached states to evaluate on *)

(** The members of the node started with the default parameters, once the
    initial pose has arrived. *)
Definition reachedConfig : Config :=
  makeConfig (H := flatExternal) defaultParams sampleFilterOutput.

Definition startEstimator : Estimator := initialEstimator defaultParams reachedConfig.

(** What the constructor prints and warns. *)
Definition startupOutput : list Event :=
  match StateEstimator_ctor (H := flatExternal) defaultParams [Some sampleFilterOutput] with
  | Constructed _ _ out => out
  | WaitingForInitialPose out => out
  end.

(** The members after [actions]. *)
Definition reached (actions : list Action) : Estimator :=
  estimatorOf (fst (run (H := flatExternal) reachedConfig actions (Alive startEstimator))).

(** [fixAfterOdometry] without its last optimizer iteration. *)
Definition beforeCorrection : list Action := removelast fixAfterOdometry.

Definition completedEstimator (o : Outcome) : Estimator :=
  match o with
  | Completed e _ => e
  | Blocked => startEstimator
  | Faulted e _ => e
  end.

Definition outputOf (o : Outcome) : list Event :=
  match o with
  | Completed _ out => out
  | Blocked => []
  | Faulted _ out => out
  end.

(** Every queue filled to its capacity, no optimizer iteration. *)
Definition allQueuesFull : list Action :=
  repeat (GpsFix (fixAt 1)) 40
  ++ repeat (ImuSample 1 (imuAt 1 0 0 0)) 400
  ++ repeat (WheelOdomSample (odomAt 1 0)) 100.

(** ** Further vocabulary: outputs, keys and runs *)

Definition isSleep (ev : Event) : bool :=
  match ev with
  | LoopRateSleep => true
  | _ => false
  end.

Definition isBiasAcc (ev : Event) : bool :=
  match ev with
  | PublishBiasAcc _ => true
  | _ => false
  end.

Definition isBiasGyro (ev : Event) : bool :=
  match ev with
  | PublishBiasGyro _ => true
  | _ => false
  end.

(** The sizes reported by the "Queue size" warnings, in order. *)
Definition queueSizeWarnings (out : list Event) : list Z :=
  flat_map (fun ev => match ev with RosWarnQueueSize n => [n] | _ => [] end) out.

(** Every element is above the one before it, the first above [m]. *)
Fixpoint risingAbove (m : Z) (l : list Z) : Prop :=
  match l with
  | [] => True
  | x :: rest => (m < x)%Z /\ risingAbove x rest
  end.

Definition isWheelOdomSample (a : Action) : bool :=
  match a with
  | WheelOdomSample _ => true
  | _ => false
  end.

(** The inertial samples delivered in a run, in order. *)
Definition imuSamplesOf (actions : list Action) : list Imu :=
  flat_map (fun a => match a with ImuSample _ imu => [imu] | _ => [] end) actions.

(** [l1] is [l2] with some elements left out. *)
Inductive Subsequence {A : Type} : list A -> list A -> Prop :=
| subseq_nil : Subsequence [] []
| subseq_skip : forall x l1 l2, Subsequence l1 l2 -> Subsequence l1 (x :: l2)
| subseq_take : forall x l1 l2, Subsequence l1 l2 -> Subsequence (x :: l1) (x :: l2).

(** The preintegration of the predictor holds exactly the buffered samples. *)
Definition synced (c : Config) (p : Predictor) : Prop :=
  samplesOf (m_imuPredictor p) = map (GetAccGyro c) (m_imuMeasurements p).

(** The keys a factor constrains. *)
Definition factorKeys (f : Factor) : list Key :=
  match f with
  | PriorFactorPose k _ _ => [k]
  | PriorFactorVel k _ _ => [k]
  | PriorFactorBias k _ _ => [k]
  | BetweenFactorPose k1 k2 _ _ => [k1; k2]
  | BetweenFactorBias k1 k2 _ _ => [k1; k2]
  | ImuFactor xi vi xj vj b _ => [xi; vi; xj; vj; b]
  | GPSFactor k _ _ => [k]
  end.

(** The keys a batch inserts values for. *)
Definition insertedKeys (b : Batch) : list Key := map fst (newVariables b).

(** The four variables of an epoch. *)
Definition epochKeys (i : Z) : list Key := [X i; V i; B i; G i].

(** The pose, velocity and bias variables of an epoch. *)
Definition stateKeys (i : Z) : list Key := [X i; V i; B i].

(** A batch of epoch [i]: it inserts the four variables of the epoch, its
    factors constrain variables of the epoch and, after the first, the pose,
    velocity and bias of the epoch before, and after the first epoch they
    constrain the antenna pose only if a GPS factor is among them. *)
Definition batchOfEpoch (i : Z) (b : Batch) : Prop :=
  insertedKeys b = epochKeys i
  /\ Forall (fun k => In k (epochKeys i) \/ ((0 < i)%Z /\ In k (stateKeys (i - 1))))
       (flat_map factorKeys (newFactors b))
  /\ ((0 < i)%Z -> filter isGPSFactor (newFactors b) = [] ->
      ~ In (G i) (flat_map factorKeys (newFactors b))).

(** The batches of the epochs [i], [i + 1], ... *)
Fixpoint wellKeyed (i : Z) (batches : list Batch) : Prop :=
  match batches with
  | [] => True
  | b :: rest => batchOfEpoch i b /\ wellKeyed (i + 1) rest
  end.

(** The preintegrations of the IMU factors of a batch. *)
Definition imuFactorPims (b : Batch) : list PreintegratedImuMeasurements :=
  flat_map (fun f => match f with ImuFactor _ _ _ _ _ pim => [pim] | _ => [] end)
    (newFactors b).

(** A first fix, then wheel odometry at 1, 2 and 3 and no further fix. *)
Definition odometryOnly : list Action :=
  [ GpsFix (fixAt 1);
    ImuSample 0 (imuAt (1 # 2) 0 0 0);
    ImuSample 0 (imuAt (3 # 2) 0 0 0);
    HelperIteration (Some (constantSolution zeroBias));
    WheelOdomSample (odomAt 1 0);
    WheelOdomSample (odomAt 2 1);
    WheelOdomSample (odomAt 3 2);
    ImuSample 0 (imuAt (5 # 2) 0 0 0);
    ImuSample 0 (imuAt 6 0 0 0);
    HelperIteration (Some (constantSolution zeroBias)) ].

(** Two fixes and the inertial samples around them, before any iteration. *)
Definition beforeFirstFix : list Action :=
  [ GpsFix (fixAt 1);
    GpsFix (fixAt 2);
    ImuSample 0 (imuAt (1 # 2) 0 0 0);
    ImuSample 0 (imuAt (3 # 2) 0 0 0);
    ImuSample 0 (imuAt (5 # 2) 0 0 0);
    ImuSample 0 (imuAt 3 0 0 0) ].

(** Fixes and inertial samples, optimizer iterations, no wheel odometry. *)
Definition gpsWithoutOdometry : list Action :=
  [ GpsFix (fixAt 1);
    ImuSample 0 (imuAt (1 # 2) 0 0 0);
    ImuSample 0 (imuAt (3 # 2) 0 0 0);
    HelperIteration (Some (constantSolution zeroBias));
    GpsFix (fixAt 2);
    ImuSample 0 (imuAt 3 0 0 0);
    HelperIteration (Some (constantSolution zeroBias));
    ImuSample 0 (imuAt 4 0 0 0) ].

(** ** Parameters that are read and not used: vocabulary *)

(** The members of the configuration that the callbacks and the optimizer
    thread read. *)
Definition usedMembers (c : Config) :=
  (m_invertx c, m_inverty c, m_invertz c, m_imuPgps c, m_fixedOrigin c,
   m_preintegrationParams c, m_initialPose c, m_bodyPSensor c, m_carENUPcarNED c,
   priorNoisePose c, priorNoiseVel c, priorNoiseBias c, noiseModelBetweenbias_sigma c,
   m_gpsSigma c).

(** The parameter server with [InitialYaw] and [Imudt] replaced. *)
Definition set_p_InitialYaw_Imudt (rp : RosParams) (yaw dt : option double) : RosParams :=
  {| p_InitialYaw := yaw;
     p_InitialRotationNoise := p_InitialRotationNoise rp;
     p_InitialVelocityNoise := p_InitialVelocityNoise rp;
     p_InitialBiasNoiseAcc := p_InitialBiasNoiseAcc rp;
     p_InitialBiasNoiseGyro := p_InitialBiasNoiseGyro rp;
     p_AccelerometerSigma := p_AccelerometerSigma rp;
     p_GyroSigma := p_GyroSigma rp;
     p_AccelBiasSigma := p_AccelBiasSigma rp;
     p_GyroBiasSigma := p_GyroBiasSigma rp;
     p_GPSSigma := p_GPSSigma rp;
     p_SensorTransformX := p_SensorTransformX rp;
     p_SensorTransformY := p_SensorTransformY rp;
     p_SensorTransformZ := p_SensorTransformZ rp;
     p_SensorXAngle := p_SensorXAngle rp;
     p_SensorYAngle := p_SensorYAngle rp;
     p_SensorZAngle := p_SensorZAngle rp;
     p_CarXAngle := p_CarXAngle rp;
     p_CarYAngle := p_CarYAngle rp;
     p_CarZAngle := p_CarZAngle rp;
     p_GpsSkip := p_GpsSkip rp;
     p_Gravity := p_Gravity rp;
     p_InvertX := p_InvertX rp;
     p_InvertY := p_InvertY rp;
     p_InvertZ := p_InvertZ rp;
     p_Imudt := dt;
     p_GPSX := p_GPSX rp;
     p_GPSY := p_GPSY rp;
     p_GPSZ := p_GPSZ rp;
     p_FixedInitialPose := p_FixedInitialPose rp;
     p_initialRoll := p_initialRoll rp;
     p_intialPitch := p_intialPitch rp;
     p_initialYaw := p_initialYaw rp;
     p_FixedOrigin := p_FixedOrigin rp;
     p_latOrigin := p_latOrigin rp;
     p_lonOrigin := p_lonOrigin rp;
     p_altOrigin := p_altOrigin rp |}.

(** * Properties *)

Section Properties.

Context `{External}.

(** ** Trigger selection *)

Lemma last_nonempty {A} (a d d' : A) (l : list A) :
  last (a :: l) d = last (a :: l) d'.
Proof.
  revert a. induction l as [|b l IH]; intros a; [reflexivity|].
  change (last (b :: l) d = last (b :: l) d'). apply IH.
Qed.

Lemma last_cons {A} (a d : A) (l : list A) : last (a :: l) d = last l a.
Proof.
  destruct l as [|b l]; [reflexivity|].
  change (last (b :: l) d = last (b :: l) a). apply last_nonempty.
Qed.

Lemma drainToNewest_last (pending : list NavSatFix) (f : NavSatFix) :
  drainToNewest f pending = (last pending f, []).
Proof.
  revert f. induction pending as [|g rest IH]; intros f; simpl drainToNewest.
  - reflexivity.
  - rewrite IH. now rewrite <- last_cons with (d := f).
Qed.

Lemma selectTrigger_gps (e : Estimator) (f : NavSatFix) (pending : list NavSatFix) :
  items (m_gpsOptQ (queues e)) = f :: pending ->
  selectTrigger e =
    Some (mkTrigger (Some (last pending f)) true false, fix_stamp (last pending f),
          set_gpsOptQ (queues e) (mkQueue (capacity (m_gpsOptQ (queues e))) [])).
Proof.
  intros Hq. unfold selectTrigger, popBlocking, size.
  rewrite Hq. cbn [List.length Nat.ltb Nat.leb items capacity].
  rewrite orb_true_r. now rewrite drainToNewest_last.
Qed.


(** What a completed correction leaves behind. *)
Lemma steady_completed (c : Config) (reply : BackendReply) (e : Estimator)
  (trig : Trigger) (cur : double) (qs : Queues) (e' : Estimator) (out : list Event) :
  steady c reply e trig cur qs = Completed e' out ->
  let o := optimizer e in
  let k := m_poseVelKey o in
  let bk := m_biasKey o in
  exists sol odomFs pair odomRest lastIMU0 lastIMU lastImuTgps pim imuRest gpsFs,
    reply = Some sol
    /\ odomFactors k (usingGPS trig) cur (tossOlder (prevTime o) (items (m_odomOptQ qs)))
       = Some (odomFs, pair, odomRest)
    /\ m_lastIMU o = Some lastIMU0
    /\ integrateUpTo c cur lastIMU0 (m_lastImuTgps o)
         (newPIM (m_preintegrationParams c) (m_previousBias o)) (items (m_ImuOptQ qs))
       = Some (lastIMU, lastImuTgps, pim, imuRest)
    /\ (if usingGPS trig then option_map (gpsFactors c (m_enu o) k) (fix_ trig) else Some [])
       = Some gpsFs
    /\ e' =
         mkEstimator
           (mkQueues (m_gpsOptQ qs) (mkQueue (capacity (m_ImuOptQ qs)) imuRest)
              (mkQueue (capacity (m_odomOptQ qs)) odomRest))
           (mkOptimized
              (mkNavState (estimatePose sol (X (k + 1))) (estimateVel sol (V (k + 1))))
              (estimateBias sol (B (bk + 1))) cur)
           (predictor e)
           {| m_biasKey := (bk + 1)%Z;
              m_poseVelKey := (k + 1)%Z;
              m_lastImuTgps := lastImuTgps;
              m_gotFirstFix := m_gotFirstFix o;
              m_enu := m_enu o;
              m_previousBias := estimateBias sol (B (bk + 1));
              m_prevPose := estimatePose sol (X (k + 1));
              m_prevVel := estimateVel sol (V (k + 1));
              m_lastIMU := Some lastIMU;
              m_isam :=
                m_isam o ++
                [mkBatch
                   (odomFs ++
                    [ImuFactor (X k) (V k) (X (k + 1)) (V (k + 1)) (B bk) pim;
                     BetweenFactorBias (B bk) (B (bk + 1)) zeroBias
                       (map (fun s => sqrt (deltaTij pim) * s)
                          (noiseModelBetweenbias_sigma c))] ++ gpsFs)
                   (let next := predict pim (mkNavState (m_prevPose o) (m_prevVel o))
                                  (m_previousBias o) in
                    [ (X (k + 1), ValPose (ns_pose next));
                      (V (k + 1), ValVel (ns_v next));
                      (B (bk + 1), ValBias (m_previousBias o));
                      (G (k + 1), ValPose (compose (ns_pose next) (m_imuPgps c))) ])];
              prevTime := cur;
              curTime := cur |}
    /\ out =
       match fix_ trig with
       | None => [Stdout "adding factor with no GPS measurement"]
       | Some _ => []
       end
       ++ [DiagOk "Still ok!";
           PublishBiasAcc (accelerometer (estimateBias sol (B (bk + 1))));
           PublishBiasGyro (gyroscope (estimateBias sol (B (bk + 1))));
           LoopRateSleep].
Proof.
  intros Hs o k bk. unfold steady in Hs. fold o k bk in Hs.
  destruct (odomFactors _ _ _ _) as [[[odomFs pair] odomRest]|] eqn:Hodom;
    [|discriminate].
  destruct (m_lastIMU o) as [lastIMU0|] eqn:Hlast; [|discriminate].
  destruct (integrateUpTo _ _ _ _ _ _) as [[[[lastIMU lastImuTgps] pim] imuRest]|]
    eqn:Himu; [|discriminate].
  destruct (if usingGPS trig then _ else _) as [gpsFs|] eqn:Hgps; [|discriminate].
  destruct reply as [sol|]; [|discriminate].
  injection Hs as <- <-.
  exists sol, odomFs, pair, odomRest, lastIMU0, lastIMU, lastImuTgps, pim, imuRest, gpsFs.
  repeat split; assumption || reflexivity.
Qed.

Lemma readImuUpTo_length (t : double) (pending : list Imu) :
  forall lastIMU t0 lastIMU' t1 rest,
    readImuUpTo t lastIMU t0 pending = Some (lastIMU', t1, rest) ->
    (List.length rest <= List.length pending)%nat.
Proof.
  induction pending as [|m pending IH]; intros lastIMU t0 lastIMU' t1 rest Hr;
    simpl in Hr; destruct (dlt _ _).
  - discriminate.
  - injection Hr as _ _ <-. reflexivity.
  - apply IH in Hr. simpl. lia.
  - injection Hr as _ _ <-. reflexivity.
Qed.

(** What a completed first-fix iteration leaves behind. *)
Lemma bootstrap_completed (c : Config) (reply : BackendReply) (e : Estimator)
  (f : NavSatFix) (cur : double) (qs : Queues) (e' : Estimator) (out : list Event) :
  bootstrap c reply e f cur qs = Completed e' out ->
  let o := optimizer e in
  exists factors x0 guess lastIMU imuRest,
    optimized e' = optimized e
    /\ predictor e' = predictor e
    /\ m_gpsOptQ (queues e') = m_gpsOptQ qs
    /\ m_odomOptQ (queues e') = m_odomOptQ qs
    /\ m_ImuOptQ (queues e') = mkQueue (capacity (m_ImuOptQ qs)) imuRest
    /\ (List.length imuRest <= List.length (items (m_ImuOptQ qs)))%nat
    /\ m_gotFirstFix (optimizer e') = true
    /\ m_poseVelKey (optimizer e') = m_poseVelKey o
    /\ m_biasKey (optimizer e') = m_biasKey o
    /\ m_lastIMU (optimizer e') = Some lastIMU
    /\ m_isam (optimizer e') = m_isam o ++ [mkBatch factors ((X 0, x0) :: guess)]
    /\ prevTime (optimizer e') = cur
    /\ curTime (optimizer e') = cur
    /\ filter isPublish out = [].
Proof.
  intros Hb o. unfold bootstrap in Hb. fold o in Hb.
  destruct (if negb (m_fixedOrigin c) then _ else _) as [enu ENU].
  destruct reply as [sol|]; [|discriminate].
  unfold popBlocking in Hb.
  destruct (items (m_ImuOptQ qs)) as [|first pending] eqn:Hq; [discriminate|].
  cbn [items capacity] in Hb.
  destruct (readImuUpTo _ _ _ _) as [[[lastIMU lastImuTgps] rest]|] eqn:Hr;
    [|discriminate].
  injection Hb as <- <-.
  pose proof (readImuUpTo_length _ _ _ _ _ _ _ Hr) as Hlen.
  eexists _, _, _, lastIMU, rest. cbn.
  repeat split; try reflexivity. simpl. lia.
Qed.


(** ** The fast predictor *)

Lemma dlt_false_iff (a b : double) : dlt a b = false <-> b <= a.
Proof.
  unfold dlt. rewrite negb_false_iff. apply Qle_bool_iff.
Qed.

Lemma notOlder_from (t : double) (m : Imu) (rest : list Imu) :
  older t m = false ->
  forallb (fun u => Qle_bool (imu_stamp m) u) (map imu_stamp rest) = true ->
  forall x, In x rest -> older t x = false.
Proof.
  unfold older. intros Hm Hall x Hx.
  rewrite forallb_forall in Hall.
  apply dlt_false_iff. apply dlt_false_iff in Hm.
  apply Qle_trans with (imu_stamp m); [exact Hm|].
  apply Qle_bool_iff. apply Hall. now apply in_map.
Qed.

Lemma filter_none {A} (f : A -> bool) (l : list A) :
  (forall x, In x l -> f x = false) -> filter f l = [] /\ existsb f l = false.
Proof.
  induction l as [|a l IH]; intros Hall; [split; reflexivity|].
  simpl. rewrite (Hall a (or_introl eq_refl)).
  apply IH. intros x Hx. apply Hall. now right.
Qed.

Lemma filter_all {A} (f : A -> bool) (l : list A) :
  (forall x, In x l -> f x = true) -> filter f l = l.
Proof.
  induction l as [|a l IH]; intros Hall; [reflexivity|].
  simpl. rewrite (Hall a (or_introl eq_refl)). f_equal.
  apply IH. intros x Hx. apply Hall. now right.
Qed.

(** On a buffer in stamp order the loop that pops from the front removes
    exactly the samples older than the optimized time. *)
Lemma discardOlder_sorted (t : double) (buffered : list Imu) :
  forall t0 b,
    nondecreasing (map imu_stamp buffered) = true ->
    discardOlder t buffered t0 b
    = (filter (notOlder t) buffered,
       last (map imu_stamp (filter (older t) buffered)) t0,
       b || existsb (older t) buffered).
Proof.
  induction buffered as [|m rest IH]; intros t0 b Hs.
  - simpl. now rewrite orb_false_r.
  - simpl in Hs. apply andb_prop in Hs. destruct Hs as [Hall Hs].
    cbn [discardOlder filter existsb].
    change (notOlder t m) with (negb (dlt (imu_stamp m) t)).
    change (older t m) with (dlt (imu_stamp m) t).
    destruct (dlt (imu_stamp m) t) eqn:Hm; cbn [negb orb].
    + rewrite (IH _ _ Hs). cbn [map]. rewrite last_cons.
      now rewrite orb_true_r.
    + pose proof (notOlder_from t m rest Hm Hall) as Hrest.
      destruct (filter_none (older t) rest Hrest) as [-> ->].
      rewrite filter_all.
      * now rewrite orb_false_r.
      * intros x Hx. unfold notOlder. apply Hrest in Hx. unfold older in Hx.
        now rewrite Hx.
Qed.

Lemma reintegrate_samples (c : Config) (kept : list Imu) :
  forall t0 pim g,
    samplesOf (fst (fst (reintegrate c kept t0 pim g)))
    = samplesOf pim ++ map (GetAccGyro c) kept
    /\ biasHat (fst (fst (reintegrate c kept t0 pim g))) = biasHat pim
    /\ pim_params (fst (fst (reintegrate c kept t0 pim g))) = pim_params pim.
Proof.
  induction kept as [|m rest IH]; intros t0 pim g.
  - simpl. now rewrite app_nil_r.
  - cbn [reintegrate]. destruct (GetAccGyro c m) as [acc gy] eqn:Hag.
    destruct (IH (imu_stamp m) (integrateMeasurement pim acc gy (imu_stamp m - t0))
                (Some gy)) as (-> & -> & ->).
    unfold samplesOf, integrateMeasurement. cbn [integrated biasHat pim_params map].
    rewrite map_app. cbn [map fst]. rewrite <- app_assoc, Hag. now split.
Qed.


(** ** Epoch keys *)

Lemma epochs_snoc (n : nat) : epochs (S n) = epochs n ++ [Some (X (Z.of_nat n))].
Proof.
  unfold epochs. rewrite seq_S, map_app. reflexivity.
Qed.

(** The three ways an iteration completes. *)
Lemma iteration_completed (c : Config) (reply : BackendReply) (e e' : Estimator)
  (out : list Event) :
  GpsHelper_iteration c reply e = Completed e' out ->
  (m_gotFirstFix (optimizer e) = false
   /\ exists f cur qs trig,
        selectTrigger e = Some (trig, cur, qs)
        /\ bootstrap c reply e f cur qs = Completed e' out)
  \/ (m_gotFirstFix (optimizer e) = true
      /\ exists trig cur qs,
           selectTrigger e = Some (trig, cur, qs)
           /\ usingGPS trig || usingOdom trig = true
           /\ steady c reply e trig cur qs = Completed e' out)
  \/ (m_gotFirstFix (optimizer e) = true /\ e' = e /\ out = []).
Proof.
  unfold GpsHelper_iteration.
  destruct (selectTrigger e) as [[[trig cur] qs]|] eqn:Hsel; [|discriminate].
  destruct (m_gotFirstFix (optimizer e)); cbn [negb].
  - destruct (usingGPS trig || usingOdom trig) eqn:Hu.
    + intros Hs. right. left. split; [reflexivity|]. now exists trig, cur, qs.
    + intros [= <- <-]. right. right. now repeat split.
  - destruct (fix_ trig) as [f|]; [|discriminate].
    intros Hb. left. split; [reflexivity|]. now exists f, cur, qs, trig.
Qed.

(** An iteration that ends in a fault has added no batch, moved no key and
    not touched the optimized state. *)
Lemma iteration_faulted (c : Config) (reply : BackendReply) (e e' : Estimator)
  (out : list Event) :
  GpsHelper_iteration c reply e = Faulted e' out ->
  optimized e' = optimized e
  /\ predictor e' = predictor e
  /\ m_isam (optimizer e') = m_isam (optimizer e)
  /\ m_poseVelKey (optimizer e') = m_poseVelKey (optimizer e)
  /\ m_biasKey (optimizer e') = m_biasKey (optimizer e)
  /\ filter isPredictorOutput out = [].
Proof.
  unfold GpsHelper_iteration.
  destruct (selectTrigger e) as [[[trig cur] qs]|]; [|discriminate].
  destruct (m_gotFirstFix (optimizer e)); cbn [negb].
  - destruct (usingGPS trig || usingOdom trig); [|discriminate].
    unfold steady.
    destruct (odomFactors _ _ _ _) as [[[odomFs pair] odomRest]|]; [|discriminate].
    destruct (m_lastIMU (optimizer e)) as [lastIMU0|].
    + destruct (integrateUpTo _ _ _ _ _ _) as [[[[lastIMU lastImuTgps] pim] imuRest]|];
        [|discriminate].
      destruct (if usingGPS trig then _ else _) as [gpsFs|].
      * destruct reply; [discriminate|]. intros [= <- <-].
        destruct (fix_ trig); now repeat split.
      * intros [= <- <-]. destruct (fix_ trig); now repeat split.
    + intros [= <- <-]. destruct (fix_ trig); now repeat split.
  - destruct (fix_ trig) as [f|].
    + unfold bootstrap.
      destruct (if negb (m_fixedOrigin c) then _ else _) as [enu ENU].
      destruct reply.
      * destruct (popBlocking _) as [[first q]|]; [|discriminate].
        destruct (readImuUpTo _ _ _ _) as [[[a b] r]|]; discriminate.
      * intros [= <- <-]. now repeat split.
    + intros [= <- <-]. now repeat split.
Qed.

Lemma steady_keeps_invariant (c : Config) (reply : BackendReply) (e e' : Estimator)
  (trig : Trigger) (cur : double) (qs : Queues) (out : list Event) :
  betweenIterations e ->
  m_gotFirstFix (optimizer e) = true ->
  steady c reply e trig cur qs = Completed e' out ->
  betweenIterations e'
  /\ m_poseVelKey (optimizer e') = (m_poseVelKey (optimizer e) + 1)%Z
  /\ filter isPredictorOutput out = [].
Proof.
  intros (Hk & Hpos & Hlog & Hlen & Hcell) Hgot Hs.
  apply steady_completed in Hs.
  destruct Hs as (sol & odomFs & pair & odomRest & l0 & l1 & t1 & pim & imuRest
                  & gpsFs & _ & _ & _ & _ & _ & -> & ->).
  rewrite Hgot in Hlen. cbv iota in Hlen. clear Hcell.
  split; [|split; [reflexivity|]].
  - unfold betweenIterations. cbn [optimizer optimized m_biasKey m_poseVelKey m_isam
                                    m_gotFirstFix m_optimizedTime].
    rewrite Hgot, Hk. split; [reflexivity|]. split; [lia|].
    rewrite length_app, map_app, Nat.add_1_r, epochs_snoc, Hlog.
    cbn [List.length map batchKey newVariables].
    split; [|split; [lia|intros Hz; exfalso; lia]].
    now rewrite Hlen.
  - destruct (fix_ trig); reflexivity.
Qed.

Lemma bootstrap_keeps_invariant (c : Config) (reply : BackendReply) (e e' : Estimator)
  (f : NavSatFix) (cur : double) (qs : Queues) (out : list Event) :
  betweenIterations e ->
  m_gotFirstFix (optimizer e) = false ->
  bootstrap c reply e f cur qs = Completed e' out ->
  betweenIterations e'
  /\ m_poseVelKey (optimizer e') = m_poseVelKey (optimizer e)
  /\ filter isPredictorOutput out = [].
Proof.
  intros (Hk & Hpos & Hlog & Hlen & Hcell) Hgot Hb.
  pose proof Hb as Hout.
  apply bootstrap_completed in Hb.
  destruct Hb as (factors & x0 & guess & lastIMU & imuRest & Hopt & _ & _ & _ & _ & _
                  & Hgot' & Hk' & Hbk' & _ & Hisam & _ & _ & _).
  rewrite Hgot in Hlen. destruct Hlen as [Hnil Hzero].
  split; [|split; [exact Hk'|]].
  - unfold betweenIterations.
    rewrite Hgot', Hk', Hbk', Hisam, Hopt, Hnil. cbn.
    repeat split; try assumption. now rewrite Hzero.
  - unfold bootstrap in Hout.
    destruct (if negb (m_fixedOrigin c) then _ else _) as [enu ENU].
    destruct reply; [|discriminate].
    destruct (popBlocking _) as [[first q]|]; [|discriminate].
    destruct (readImuUpTo _ _ _ _) as [[[a b] r]|]; [|discriminate].
    now injection Hout as _ <-.
Qed.

Lemma betweenIterations_frame (e e' : Estimator) :
  optimizer e' = optimizer e ->
  optimized e' = optimized e ->
  betweenIterations e -> betweenIterations e'.
Proof.
  unfold betweenIterations. now intros -> ->.
Qed.

Lemma GpsCallback_frame (f : NavSatFix) (e : Estimator) :
  optimizer (fst (GpsCallback f e)) = optimizer e
  /\ optimized (fst (GpsCallback f e)) = optimized e
  /\ predictor (fst (GpsCallback f e)) = predictor e
  /\ filter isPredictorOutput (snd (GpsCallback f e)) = [].
Proof.
  unfold GpsCallback. destruct (pushNonBlocking _ _) as [[|] q]; now repeat split.
Qed.

Lemma WheelOdomCallback_frame (od : WheelOdom) (e : Estimator) :
  optimizer (fst (WheelOdomCallback od e)) = optimizer e
  /\ optimized (fst (WheelOdomCallback od e)) = optimized e
  /\ predictor (fst (WheelOdomCallback od e)) = predictor e
  /\ snd (WheelOdomCallback od e) = [].
Proof.
  unfold WheelOdomCallback. destruct (pushNonBlocking _ _) as [b q]; now repeat split.
Qed.

Lemma ImuCallback_frame (c : Config) (now : double) (imu : Imu) (e : Estimator) :
  optimizer (fst (ImuCallback c now imu e)) = optimizer e
  /\ optimized (fst (ImuCallback c now imu e)) = optimized e.
Proof.
  unfold ImuCallback.
  destruct (ImuCallback_from _ _ _ _ _ _) as [[qs p] out]. now split.
Qed.

(** While the optimized time is the constructor's 0, [ImuCallback] returns
    before it integrates or publishes anything. *)
Lemma ImuCallback_from_unset (snapshot : Optimized) (c : Config) (now : double)
  (imu : Imu) (qs : Queues) (p : Predictor) :
  deq (m_optimizedTime snapshot) 0 = true ->
  filter isPredictorOutput (snd (ImuCallback_from snapshot c now imu qs p)) = []
  /\ m_imuPredictor (snd (fst (ImuCallback_from snapshot c now imu qs p)))
     = m_imuPredictor p
  /\ m_imuMeasurements (snd (fst (ImuCallback_from snapshot c now imu qs p)))
     = m_imuMeasurements p ++ [imu]
  /\ filter isPublish (snd (ImuCallback_from snapshot c now imu qs p)) = [].
Proof.
  intros Hunset. unfold ImuCallback_from.
  destruct (pushNonBlocking _ _) as [pushed q]. rewrite Hunset.
  cbn [fst snd m_imuPredictor m_imuMeasurements].
  repeat split; destruct ((m_maxQSize p <? _)%Z && _); destruct pushed; reflexivity.
Qed.

Lemma initialEstimator_betweenIterations (rp : RosParams) (c : Config) :
  betweenIterations (initialEstimator rp c).
Proof.
  unfold betweenIterations. cbn. repeat split. lia.
Qed.

Lemma ctor_constructed (rp : RosParams) (replies : list (option FilterOutput))
  (c : Config) (e : Estimator) (out : list Event) :
  StateEstimator_ctor rp replies = Constructed c e out ->
  e = initialEstimator rp c /\ exists ip, c = makeConfig rp ip.
Proof.
  unfold StateEstimator_ctor.
  destruct (negb _).
  - destruct (waitForInitialPose replies) as [[ip|] w]; [|discriminate].
    intros [= <- <- _]. split; [reflexivity|]. now exists ip.
  - intros [= <- <- _]. split; [reflexivity|]. eexists. reflexivity.
Qed.

(** One step of the node: the invariant, the key counter and the silence of
    the predictor before the first correction. *)
Lemma step_facts (c : Config) (a : Action) (e : Estimator) (p : Process)
  (out : list Event) :
  betweenIterations e ->
  step c a (Alive e) = (p, out) ->
  match p with
  | Alive e' => betweenIterations e'
  | Terminated e' => afterFault e'
  end
  /\ (m_poseVelKey (optimizer e) <= m_poseVelKey (optimizer (estimatorOf p)))%Z
  /\ (m_poseVelKey (optimizer e) = 0%Z -> filter isPredictorOutput out = []).
Proof.
  intros Hinv. destruct a as [f|now imu|od|reply]; cbn [step].
  - destruct (GpsCallback f e) as [e' o] eqn:Hcb.
    pose proof (GpsCallback_frame f e) as (Ho & Hz & _ & Hout).
    rewrite Hcb in Ho, Hz, Hout. cbn [fst snd] in Ho, Hz, Hout.
    intros [= <- <-]. cbn [estimatorOf]. rewrite Ho.
    split; [now apply (betweenIterations_frame e)|]. split; [lia|now intros _].
  - destruct (ImuCallback c now imu e) as [e' o] eqn:Hcb.
    pose proof (ImuCallback_frame c now imu e) as (Ho & Hz).
    rewrite Hcb in Ho, Hz. cbn [fst] in Ho, Hz.
    intros [= <- <-]. cbn [estimatorOf]. rewrite Ho.
    split; [now apply (betweenIterations_frame e)|]. split; [lia|].
    intros Hzero. destruct Hinv as (_ & _ & _ & _ & Hcell).
    specialize (Hcell Hzero).
    unfold ImuCallback in Hcb.
    pose proof (ImuCallback_from_unset (optimized e) c now imu (queues e) (predictor e))
      as (Hsilent & _).
    { rewrite Hcell. reflexivity. }
    destruct (ImuCallback_from _ _ _ _ _ _) as [[qs pr] o'].
    injection Hcb as _ <-. exact Hsilent.
  - destruct (WheelOdomCallback od e) as [e' o] eqn:Hcb.
    pose proof (WheelOdomCallback_frame od e) as (Ho & Hz & _ & Hout).
    rewrite Hcb in Ho, Hz, Hout. cbn [fst snd] in Ho, Hz, Hout.
    intros [= <- <-]. cbn [estimatorOf]. rewrite Ho.
    split; [now apply (betweenIterations_frame e)|]. split; [lia|].
    intros _. now rewrite Hout.
  - destruct (GpsHelper_iteration c reply e) as [e' o| |e' o] eqn:Hit;
      intros [= <- <-]; cbn [estimatorOf].
    + apply iteration_completed in Hit.
      destruct Hit as [(Hgot & f & cur & qs & trig0 & _ & Hb)
                      |[(Hgot & trig & cur & qs & _ & _ & Hs)|(_ & -> & ->)]].
      * destruct (bootstrap_keeps_invariant _ _ _ _ _ _ _ _ Hinv Hgot Hb)
          as (Hinv' & -> & Hout).
        split; [exact Hinv'|]. split; [lia|now intros _].
      * destruct (steady_keeps_invariant _ _ _ _ _ _ _ _ Hinv Hgot Hs)
          as (Hinv' & -> & Hout).
        split; [exact Hinv'|]. split; [lia|now intros _].
      * split; [exact Hinv|]. split; [lia|now intros _].
    + split; [exact Hinv|]. split; [lia|now intros _].
    + apply iteration_faulted in Hit.
      destruct Hit as (Hopt & _ & Hisam & Hkey & _ & Hout).
      destruct Hinv as (_ & _ & Hlog & _ & Hcell).
      split; [|split; [lia|now intros _]].
      unfold afterFault. rewrite Hopt, Hisam, Hkey. now split.
Qed.

Lemma run_terminated (c : Config) (actions : list Action) (e : Estimator) :
  run c actions (Terminated e) = (Terminated e, []).
Proof.
  induction actions as [|a rest IH]; [reflexivity|].
  cbn [run step]. now rewrite IH.
Qed.

Lemma run_facts (c : Config) (actions : list Action) :
  forall (e : Estimator) (p : Process) (out : list Event),
    betweenIterations e ->
    run c actions (Alive e) = (p, out) ->
    match p with
    | Alive e' => betweenIterations e'
    | Terminated e' => afterFault e'
    end
    /\ (m_poseVelKey (optimizer e) <= m_poseVelKey (optimizer (estimatorOf p)))%Z
    /\ (m_poseVelKey (optimizer (estimatorOf p)) = 0%Z ->
        filter isPredictorOutput out = []).
Proof.
  induction actions as [|a rest IH]; intros e p out Hinv Hrun.
  - injection Hrun as <- <-. cbn [estimatorOf].
    split; [exact Hinv|]. split; [lia|now intros _].
  - cbn [run] in Hrun.
    destruct (step c a (Alive e)) as [p1 out1] eqn:Hstep.
    destruct (run c rest p1) as [p2 out2] eqn:Hrest.
    injection Hrun as <- <-.
    destruct (step_facts c a e p1 out1 Hinv Hstep) as (Hp1 & Hle1 & Hsil1).
    assert (Hpos : (0 <= m_poseVelKey (optimizer e))%Z) by apply Hinv.
    destruct p1 as [e1|e1].
    + destruct (IH e1 p2 out2 Hp1 Hrest) as (Hp2 & Hle2 & Hsil2).
      cbn [estimatorOf] in Hle1.
      split; [exact Hp2|]. split; [lia|].
      intros Hzero. rewrite filter_app, Hsil2 by exact Hzero.
      rewrite Hsil1 by lia. reflexivity.
    + rewrite run_terminated in Hrest. injection Hrest as <- <-.
      cbn [estimatorOf] in *.
      split; [exact Hp1|]. split; [exact Hle1|].
      intros Hzero. rewrite app_nil_r. apply Hsil1. lia.
Qed.

(** C3: the constructor sets both key counters to 0 and the first-fix
    iteration submits the variables keyed 0; every later completed correction
    submits the variables keyed one above the counter, writes the solver's
    estimates for exactly those keys to the optimized state and moves the
    counter up by one; the batches the solver has accepted are keyed
    0, 1, 2, ... without gap or repetition. *)
Theorem epoch_keys_increase_by_one
  (rp : RosParams) (replies : list (option FilterOutput)) (c : Config)
  (e0 : Estimator) (out0 : list Event) (actions : list Action)
  (p : Process) (out1 : list Event) :
  StateEstimator_ctor rp replies = Constructed c e0 out0 ->
  run c actions (Alive e0) = (p, out1) ->
  m_poseVelKey (optimizer e0) = 0%Z
  /\ map batchKey (m_isam (optimizer (estimatorOf p)))
     = epochs (List.length (m_isam (optimizer (estimatorOf p))))
  /\ forall e reply e' out,
       p = Alive e ->
       GpsHelper_iteration c reply e = Completed e' out ->
       let k := m_poseVelKey (optimizer e) in
       if m_gotFirstFix (optimizer e)
       then
         (e' = e /\ out = [])
         \/ (exists sol batch,
                reply = Some sol
                /\ m_isam (optimizer e') = m_isam (optimizer e) ++ [batch]
                /\ batchKey batch = Some (X (k + 1))
                /\ optimized e'
                   = mkOptimized
                       (mkNavState (estimatePose sol (X (k + 1)))
                          (estimateVel sol (V (k + 1))))
                       (estimateBias sol (B (k + 1))) (curTime (optimizer e'))
                /\ m_poseVelKey (optimizer e') = (k + 1)%Z
                /\ m_biasKey (optimizer e') = (k + 1)%Z)
       else
         exists batch,
           m_isam (optimizer e') = [batch]
           /\ batchKey batch = Some (X 0)
           /\ optimized e' = optimized e
           /\ m_poseVelKey (optimizer e') = 0%Z
           /\ m_biasKey (optimizer e') = 0%Z.
Proof.
  intros Hctor Hrun.
  apply ctor_constructed in Hctor. destruct Hctor as (-> & _).
  pose proof (run_facts c actions _ p out1
                (initialEstimator_betweenIterations rp c) Hrun) as (Hp & _ & _).
  split; [reflexivity|]. split.
  - destruct p as [e|e]; apply Hp.
  - intros e reply e' out -> Hit k. cbn [estimatorOf] in Hp.
    destruct Hp as (Hk & Hpos & Hlog & Hlen & Hcell).
    apply iteration_completed in Hit.
    destruct Hit as [(Hgot & f & cur & qs & trig0 & _ & Hb)
                    |[(Hgot & trig & cur & qs & _ & _ & Hs)|(Hgot & -> & ->)]];
      rewrite Hgot in *.
    + apply bootstrap_completed in Hb.
      destruct Hb as (factors & x0 & guess & lastIMU & imuRest & Hopt & _ & _ & _ & _
                      & _ & _ & Hk' & Hbk' & _ & Hisam & _ & _ & _).
      destruct Hlen as [Hnil Hzero].
      eexists. rewrite Hisam, Hnil, Hk', Hbk', Hk, Hzero.
      now repeat split.
    + right. apply steady_completed in Hs.
      destruct Hs as (sol & odomFs & pair & odomRest & l0 & l1 & t1 & pim & imuRest
                      & gpsFs & -> & _ & _ & _ & _ & -> & _).
      exists sol. eexists. cbn. fold k. rewrite Hk. fold k.
      now repeat split.
    + now left.
Qed.

(** C9: the constructor leaves the optimized time at 0; an inertial sample
    that finds it there publishes nothing and integrates nothing; and in every
    run of the node the predictor has published nothing as long as no
    correction has moved the epoch counter, in which case the optimized state
    is still the constructor's. *)
Theorem no_prediction_before_first_correction
  (rp : RosParams) (replies : list (option FilterOutput)) (c : Config)
  (e0 : Estimator) (out0 : list Event) :
  StateEstimator_ctor rp replies = Constructed c e0 out0 ->
  optimized e0 = unsetOptimized
  /\ (forall now imu e,
         deq (m_optimizedTime (optimized e)) 0 = true ->
         filter isPredictorOutput (snd (ImuCallback c now imu e)) = []
         /\ m_imuPredictor (predictor (fst (ImuCallback c now imu e)))
            = m_imuPredictor (predictor e))
  /\ (forall actions p out,
         run c actions (Alive e0) = (p, out) ->
         m_poseVelKey (optimizer (estimatorOf p)) = 0%Z ->
         optimized (estimatorOf p) = unsetOptimized
         /\ filter isPredictorOutput out = []).
Proof.
  intros Hctor. apply ctor_constructed in Hctor. destruct Hctor as (-> & _).
  split; [reflexivity|]. split.
  - intros now imu e Hunset. unfold ImuCallback.
    pose proof (ImuCallback_from_unset (optimized e) c now imu (queues e) (predictor e)
                  Hunset) as (Hsilent & Hpim & _).
    destruct (ImuCallback_from _ _ _ _ _ _) as [[qs pr] o]. now split.
  - intros actions p out Hrun Hzero.
    pose proof (run_facts c actions _ p out
                  (initialEstimator_betweenIterations rp c) Hrun) as (Hp & Hle & Hsil).
    split; [|now apply Hsil].
    destruct p as [e|e]; cbn [estimatorOf] in *; now apply Hp.
Qed.

(** ** Faults of the solver *)

(** An iteration that submits a batch ends in a fault when the solver throws. *)
Lemma iteration_faults_when_solver_throws (c : Config) (sol : Solution)
  (e e1 : Estimator) (out1 : list Event) :
  GpsHelper_iteration c (Some sol) e = Completed e1 out1 ->
  m_isam (optimizer e1) <> m_isam (optimizer e) ->
  exists e2 out2, GpsHelper_iteration c None e = Faulted e2 out2.
Proof.
  unfold GpsHelper_iteration.
  destruct (selectTrigger e) as [[[trig cur] qs]|]; [|discriminate].
  destruct (m_gotFirstFix (optimizer e)); cbn [negb].
  - destruct (usingGPS trig || usingOdom trig).
    + unfold steady.
      destruct (odomFactors _ _ _ _) as [[[odomFs pair] odomRest]|]; [|discriminate].
      destruct (m_lastIMU (optimizer e)) as [lastIMU0|]; [|discriminate].
      destruct (integrateUpTo _ _ _ _ _ _) as [[[[lastIMU lastImuTgps] pim] imuRest]|];
        [|discriminate].
      destruct (if usingGPS trig then _ else _) as [gpsFs|]; [|discriminate].
      intros _ _. eexists _, _. reflexivity.
    + intros [= <- _] Hne. now contradiction Hne.
  - destruct (fix_ trig) as [f|]; [|discriminate].
    unfold bootstrap.
    destruct (if negb (m_fixedOrigin c) then _ else _) as [enu ENU].
    intros _ _. eexists _, _. reflexivity.
Qed.

(** C7: when the solver throws, the iteration leaves [m_optimizedState],
    [m_optimizedBias] and [m_optimizedTime] as they were and publishes
    nothing; an inertial sample processed on the members it leaves behind is
    predicted from the optimized state of before; and an iteration that had
    a batch to submit does end in that fault. *)
Theorem backend_fault_keeps_optimized_state
  (c : Config) (e : Estimator) (p : Process) (out : list Event) :
  step c (HelperIteration None) (Alive e) = (p, out) ->
  optimized (estimatorOf p) = optimized e
  /\ filter isPublish out = []
  /\ (forall now imu,
         ImuCallback c now imu (estimatorOf p)
         = (let '(qs, pr, o) :=
              ImuCallback_from (optimized e) c now imu
                (queues (estimatorOf p)) (predictor (estimatorOf p)) in
            (mkEstimator qs (optimized e) pr (optimizer (estimatorOf p)), o)))
  /\ (forall sol e1 out1,
         GpsHelper_iteration c (Some sol) e = Completed e1 out1 ->
         m_isam (optimizer e1) <> m_isam (optimizer e) ->
         exists e2, p = Terminated e2).
Proof.
  cbn [step]. intros Hstep.
  assert (Hopt : optimized (estimatorOf p) = optimized e /\ filter isPublish out = []).
  { destruct (GpsHelper_iteration c None e) as [e' o| |e' o] eqn:Hit;
      injection Hstep as <- <-; cbn [estimatorOf].
    - apply iteration_completed in Hit.
      destruct Hit as [(_ & f & cur & qs & trig0 & _ & Hb)
                      |[(_ & trig & cur & qs & _ & _ & Hs)|(_ & -> & ->)]].
      + apply bootstrap_completed in Hb.
        destruct Hb as (? & ? & ? & ? & ? & Hopt & _ & _ & _ & _ & _ & _ & _ & _ & _
                        & _ & _ & _ & Hout).
        now split.
      + apply steady_completed in Hs.
        destruct Hs as (sol & ? & ? & ? & ? & ? & ? & ? & ? & ? & Hsol & _).
        discriminate.
      + now split.
    - now split.
    - unfold GpsHelper_iteration in Hit.
      destruct (selectTrigger e) as [[[trig cur] qs]|]; [|discriminate].
      destruct (m_gotFirstFix (optimizer e)); cbn [negb] in Hit.
      + destruct (usingGPS trig || usingOdom trig); [|discriminate].
        unfold steady in Hit.
        destruct (odomFactors _ _ _ _) as [[[odomFs pair] odomRest]|]; [|discriminate].
        destruct (m_lastIMU (optimizer e)) as [lastIMU0|].
        * destruct (integrateUpTo _ _ _ _ _ _)
            as [[[[lastIMU lastImuTgps] pim] imuRest]|]; [|discriminate].
          destruct (if usingGPS trig then _ else _) as [gpsFs|];
            injection Hit as <- <-; destruct (fix_ trig); now split.
        * injection Hit as <- <-. destruct (fix_ trig); now split.
      + destruct (fix_ trig) as [f|].
        * unfold bootstrap in Hit.
          destruct (if negb (m_fixedOrigin c) then _ else _) as [enu ENU].
          injection Hit as <- <-. now split.
        * injection Hit as <- <-. now split. }
  destruct Hopt as [Hopt Hout].
  split; [exact Hopt|]. split; [exact Hout|]. split.
  - intros now imu. unfold ImuCallback. now rewrite Hopt.
  - intros sol e1 out1 Hit Hne.
    destruct (iteration_faults_when_solver_throws c sol e e1 out1 Hit Hne)
      as (e2 & out2 & Hf).
    rewrite Hf in Hstep. injection Hstep as <- _. now exists e2.
Qed.

(** ** The published angular rate *)

(** Popping from the front leaves nothing or a buffer that still ends with
    the sample pushed last; it leaves something when that sample is not older
    than the optimized time. *)
Lemma discardOlder_newest (t : double) (imu : Imu) (buffered : list Imu) :
  forall t0 b,
    let kept := fst (fst (discardOlder t (buffered ++ [imu]) t0 b)) in
    (kept = [] /\ older t imu = true) \/ exists before, kept = before ++ [imu].
Proof.
  induction buffered as [|m rest IH]; intros t0 b; cbn [app discardOlder].
  - change (dlt (imu_stamp imu) t) with (older t imu).
    destruct (older t imu); cbn [fst].
    + now left.
    + right. now exists [].
  - destruct (dlt (imu_stamp m) t).
    + apply IH.
    + right. now exists (m :: rest).
Qed.



(** ** Queue overflow *)

Lemma pushNonBlocking_full {A} (q : BlockingQueue A) (x : A) :
  fullQueue q -> pushNonBlocking q x = (false, q).
Proof.
  unfold fullQueue, pushNonBlocking. intros Hfull.
  destruct (Nat.ltb_spec (size q) (capacity q)); [lia|reflexivity].
Qed.

Lemma pushNonBlocking_bounded {A} (q : BlockingQueue A) (x : A) :
  (size q <= capacity q)%nat ->
  capacity (snd (pushNonBlocking q x)) = capacity q
  /\ (size (snd (pushNonBlocking q x)) <= capacity q)%nat.
Proof.
  unfold pushNonBlocking, size. intros Hle.
  destruct (Nat.ltb_spec (List.length (items q)) (capacity q)); cbn [snd capacity items].
  - rewrite length_app. cbn. split; [reflexivity|lia].
  - now split.
Qed.

Lemma tossOlder_length (t : double) (pending : list WheelOdom) :
  (List.length (tossOlder t pending) <= List.length pending)%nat.
Proof.
  induction pending as [|od rest IH]; cbn [tossOlder]; [lia|].
  destruct (dlt _ _); cbn [List.length]; lia.
Qed.

Lemma advanceLast_length (t : double) (pending : list WheelOdom) :
  forall lastOdom,
    (List.length (snd (advanceLast t lastOdom pending)) <= List.length pending)%nat.
Proof.
  induction pending as [|od rest IH]; intros lastOdom; cbn [advanceLast].
  - cbn. lia.
  - destruct (dlt _ _); cbn [snd List.length]; [specialize (IH od)|]; lia.
Qed.

Lemma odomFactors_length (k : Z) (g : bool) (cur : double) (pending : list WheelOdom)
  fs pair rest :
  odomFactors k g cur pending = Some (fs, pair, rest) ->
  (List.length rest <= List.length pending)%nat.
Proof.
  unfold odomFactors. destruct pending as [|a [|b l]]; try discriminate.
  destruct (negb g || dlt (odom_stamp b) cur).
  - pose proof (advanceLast_length cur l b) as Hlen.
    destruct (advanceLast cur b l) as [last' rest']. intros [= _ _ <-].
    cbn [snd List.length] in *. lia.
  - intros [= _ _ <-]. cbn [List.length]. lia.
Qed.

Lemma integrateUpTo_length (c : Config) (t : double) (pending : list Imu) :
  forall lastIMU t0 pim lastIMU' t1 pim' rest,
    integrateUpTo c t lastIMU t0 pim pending = Some (lastIMU', t1, pim', rest) ->
    (List.length rest <= List.length pending)%nat.
Proof.
  induction pending as [|m pending IH]; intros lastIMU t0 pim lastIMU' t1 pim' rest Hi;
    cbn [integrateUpTo] in Hi; destruct (dlt _ _).
  - destruct (GetAccGyro c lastIMU). discriminate.
  - injection Hi as _ _ _ <-. reflexivity.
  - destruct (GetAccGyro c lastIMU). apply IH in Hi. cbn [List.length]. lia.
  - injection Hi as _ _ _ <-. reflexivity.
Qed.

Lemma selectTrigger_queues (e : Estimator) (trig : Trigger) (cur : double) (qs : Queues) :
  selectTrigger e = Some (trig, cur, qs) ->
  m_ImuOptQ qs = m_ImuOptQ (queues e)
  /\ m_odomOptQ qs = m_odomOptQ (queues e)
  /\ capacity (m_gpsOptQ qs) = capacity (m_gpsOptQ (queues e))
  /\ (size (m_gpsOptQ qs) <= size (m_gpsOptQ (queues e)))%nat.
Proof.
  unfold selectTrigger.
  destruct (negb _ || _).
  - unfold popBlocking.
    destruct (items (m_gpsOptQ (queues e))) as [|f pending] eqn:Hq; [discriminate|].
    cbn [items capacity]. rewrite drainToNewest_last.
    intros [= _ _ <-]. unfold size. rewrite Hq. cbn. repeat split. lia.
  - destruct (_ && _).
    + destruct (back _); intros [= _ _ <-]; now repeat split.
    + intros [= _ _ <-]. now repeat split.
Qed.

Lemma iteration_queuesBounded (c : Config) (reply : BackendReply) (e e' : Estimator)
  (out : list Event) :
  queuesBounded e ->
  GpsHelper_iteration c reply e = Completed e' out ->
  queuesBounded e'.
Proof.
  intros (Hg & Hi & Ho & Hcg & Hci & Hco) Hit.
  apply iteration_completed in Hit.
  destruct Hit as [(_ & f & cur & qs & trig & Hsel & Hb)
                  |[(_ & trig & cur & qs & Hsel & _ & Hs)|(_ & -> & _)]].
  - apply selectTrigger_queues in Hsel. destruct Hsel as (Hqi & Hqo & Hqc & Hql).
    apply bootstrap_completed in Hb.
    destruct Hb as (? & ? & ? & ? & imuRest & _ & _ & Hg' & Ho' & Hi' & Hlen & _).
    unfold queuesBounded. rewrite Hg', Ho', Hi', Hqo, Hqc.
    rewrite Hqi in Hlen |- *. unfold size in *. cbn [capacity items].
    repeat split; try assumption; lia.
  - apply selectTrigger_queues in Hsel. destruct Hsel as (Hqi & Hqo & Hqc & Hql).
    apply steady_completed in Hs.
    destruct Hs as (sol & odomFs & pair & odomRest & l0 & l1 & t1 & pim & imuRest
                    & gpsFs & _ & Hodom & _ & Himu & _ & -> & _).
    apply odomFactors_length in Hodom. apply integrateUpTo_length in Himu.
    pose proof (tossOlder_length (prevTime (optimizer e)) (items (m_odomOptQ qs))) as Ht.
    unfold queuesBounded. cbn [queues m_gpsOptQ m_ImuOptQ m_odomOptQ].
    rewrite Hqi, Hqo in *. rewrite Hqc. unfold size in *. cbn [capacity items].
    repeat split; try assumption; lia.
  - now repeat split.
Qed.

Lemma step_queuesBounded (c : Config) (a : Action) (e e' : Estimator)
  (out : list Event) :
  queuesBounded e ->
  step c a (Alive e) = (Alive e', out) ->
  queuesBounded e'.
Proof.
  intros Hb. pose proof Hb as (Hg & Hi & Ho & Hcg & Hci & Hco).
  destruct a as [f|now imu|od|reply]; cbn [step].
  - unfold GpsCallback.
    pose proof (pushNonBlocking_bounded (m_gpsOptQ (queues e)) f Hg) as [Hc Hs].
    destruct (pushNonBlocking _ _) as [pushed q]. cbn [snd] in Hc, Hs.
    intros [= <- _]. unfold queuesBounded. cbn. rewrite Hc. now repeat split.
  - unfold ImuCallback, ImuCallback_from.
    pose proof (pushNonBlocking_bounded (m_ImuOptQ (queues e)) imu Hi) as [Hc Hs].
    destruct (pushNonBlocking _ _) as [pushed q]. cbn [snd] in Hc, Hs.
    destruct (deq _ _).
    + intros [= <- _]. unfold queuesBounded. cbn. rewrite Hc. now repeat split.
    + destruct (discardOlder _ _ _ _) as [[kept t1] nm].
      destruct (if nm then _ else _) as [[pim t2] gyro].
      intros [= <- _]. unfold queuesBounded. cbn. rewrite Hc. now repeat split.
  - unfold WheelOdomCallback.
    pose proof (pushNonBlocking_bounded (m_odomOptQ (queues e)) od Ho) as [Hc Hs].
    destruct (pushNonBlocking _ _) as [pushed q]. cbn [snd] in Hc, Hs.
    intros [= <- _]. unfold queuesBounded. cbn. rewrite Hc. now repeat split.
  - destruct (GpsHelper_iteration c reply e) as [e1 o| |e1 o] eqn:Hit;
      intros [= <- _]; [|exact Hb].
    exact (iteration_queuesBounded c reply e e1 o Hb Hit).
Qed.

Lemma run_queuesBounded (c : Config) (actions : list Action) :
  forall (e e' : Estimator) (out : list Event),
    queuesBounded e ->
    run c actions (Alive e) = (Alive e', out) ->
    queuesBounded e'.
Proof.
  induction actions as [|a rest IH]; intros e e' out Hb Hrun.
  - now injection Hrun as <- _.
  - cbn [run] in Hrun.
    destruct (step c a (Alive e)) as [p1 out1] eqn:Hstep.
    destruct (run c rest p1) as [p2 out2] eqn:Hrest.
    injection Hrun as -> _.
    destruct p1 as [e1|e1].
    + apply (IH e1 e' out2); [|exact Hrest].
      exact (step_queuesBounded c a e e1 out1 Hb Hstep).
    + rewrite run_terminated in Hrest. discriminate.
Qed.

(** C6, as amended: a push into a full queue fails and the sample is dropped,
    the queue and every other member staying as they were; the GPS callback
    and the IMU callback warn about it and return, the IMU callback going on
    to buffer the sample for prediction; the wheel-odometry callback drops
    the sample silently; and in a running node no queue ever holds more than
    its capacity of 40, 400 and 100 samples. *)
Theorem full_queue_drops_sample
  (c : Config) (e : Estimator) :
  (fullQueue (m_gpsOptQ (queues e)) ->
   forall f,
     GpsCallback f e = (e, [RosWarn "Dropping a GPS measurement due to full queue!!"]))
  /\ (fullQueue (m_ImuOptQ (queues e)) ->
      forall now imu,
        queues (fst (ImuCallback c now imu e)) = queues e
        /\ In (RosWarn "Dropping an IMU measurement due to full queue!!")
             (snd (ImuCallback c now imu e)))
  /\ (fullQueue (m_odomOptQ (queues e)) ->
      forall od, WheelOdomCallback od e = (e, []))
  /\ (forall rp replies e0 out0 actions e' out,
         StateEstimator_ctor rp replies = Constructed c e0 out0 ->
         run c actions (Alive e0) = (Alive e', out) ->
         queuesBounded e').
Proof.
  split; [|split; [|split]].
  - intros Hfull f. unfold GpsCallback.
    rewrite (pushNonBlocking_full _ f Hfull).
    destruct e as [[g i o] opt pr oz]. reflexivity.
  - intros Hfull now imu. unfold ImuCallback, ImuCallback_from.
    rewrite (pushNonBlocking_full _ imu Hfull).
    destruct (deq _ _).
    + cbn [fst snd queues]. split.
      * destruct e as [[g i o] opt pr oz]. reflexivity.
      * apply in_or_app. right. now left.
    + destruct (discardOlder _ _ _ _) as [[kept t1] nm].
      destruct (if nm then _ else _) as [[pim t2] gyro].
      cbn [fst snd queues]. split.
      * destruct e as [[g i o] opt pr oz]. reflexivity.
      * apply in_or_app. right. apply in_or_app. left. now left.
  - intros Hfull od. unfold WheelOdomCallback.
    rewrite (pushNonBlocking_full _ od Hfull).
    destruct e as [[g i o] opt pr oz]. reflexivity.
  - intros rp replies e0 out0 actions e' out Hctor Hrun.
    apply ctor_constructed in Hctor. destruct Hctor as (-> & _).
    apply (run_queuesBounded c actions (initialEstimator rp c) e' out); [|exact Hrun].
    unfold queuesBounded. cbn. repeat split; lia.
Qed.

(** ** Start-up *)

Lemma wait_expired (n : nat) :
  waitForInitialPose (repeat None n) = (None, repeat waitingWarning n).
Proof.
  induction n as [|n IH]; [reflexivity|].
  cbn [repeat waitForInitialPose]. now rewrite IH.
Qed.

Lemma wait_arrives (n : nat) (ip : FilterOutput) (later : list (option FilterOutput)) :
  waitForInitialPose (repeat None n ++ Some ip :: later)
  = (Some ip, repeat waitingWarning (S n)).
Proof.
  induction n as [|n IH]; [reflexivity|].
  cbn [repeat app waitForInitialPose]. now rewrite IH.
Qed.

Lemma filter_warnings_repeat (n : nat) :
  filter isRosWarn (repeat waitingWarning n) = repeat waitingWarning n.
Proof.
  induction n as [|n IH]; [reflexivity|]. cbn. now rewrite IH.
Qed.

(** Without a fix the optimizer thread stays in its first [popBlocking]. *)
Lemma run_without_fix (c : Config) (actions : list Action) :
  forall (e : Estimator) (p : Process) (out : list Event),
    m_gotFirstFix (optimizer e) = false ->
    items (m_gpsOptQ (queues e)) = [] ->
    optimized e = unsetOptimized ->
    forallb (fun a => negb (isGpsFix a)) actions = true ->
    run c actions (Alive e) = (p, out) ->
    exists e',
      p = Alive e'
      /\ optimizer e' = optimizer e
      /\ optimized e' = unsetOptimized
      /\ filter isPublish out = [].
Proof.
  induction actions as [|a rest IH]; intros e p out Hgot Hq Hopt Hno Hrun.
  - injection Hrun as <- <-. now exists e.
  - cbn [forallb] in Hno. apply andb_prop in Hno. destruct Hno as [Ha Hno].
    cbn [run] in Hrun.
    destruct (step c a (Alive e)) as [p1 out1] eqn:Hstep.
    destruct (run c rest p1) as [p2 out2] eqn:Hrest.
    injection Hrun as <- <-.
    assert (Hs : exists e1, p1 = Alive e1 /\ optimizer e1 = optimizer e
                            /\ optimized e1 = unsetOptimized
                            /\ items (m_gpsOptQ (queues e1)) = []
                            /\ filter isPublish out1 = []).
    { destruct a as [f|now imu|od|reply]; cbn [step] in Hstep.
      - discriminate.
      - unfold ImuCallback in Hstep.
        pose proof (ImuCallback_from_unset (optimized e) c now imu (queues e)
                      (predictor e)) as (_ & _ & _ & Hpub).
        { now rewrite Hopt. }
        unfold ImuCallback_from in *.
        destruct (pushNonBlocking _ _) as [pushed q].
        rewrite Hopt in *. cbn [m_optimizedTime unsetOptimized] in *.
        change (deq 0 0) with true in *. cbv iota in *.
        injection Hstep as <- <-. eexists. now repeat split.
      - unfold WheelOdomCallback in Hstep.
        destruct (pushNonBlocking _ _) as [pushed q].
        injection Hstep as <- <-. eexists. now repeat split.
      - unfold GpsHelper_iteration, selectTrigger, popBlocking in Hstep.
        rewrite Hgot, Hq in Hstep. cbn in Hstep.
        injection Hstep as <- <-. now exists e. }
    destruct Hs as (e1 & -> & Ho1 & Hopt1 & Hq1 & Hout1).
    destruct (IH e1 p2 out2) as (e2 & -> & Ho2 & Hopt2 & Hout2); try assumption.
    { now rewrite Ho1. }
    exists e2. rewrite filter_app, Hout1, Hout2, Ho2, Ho1. now repeat split.
Qed.

(** C8, as amended: each wait for the initial pose lasts at most 15 seconds,
    but an expired wait is followed by a warning and another wait, any number
    of times, and the constructor goes on as soon as a message arrives; no
    expiry is fatal.  Nothing is produced without the initial data: the
    constructor does not finish before the pose has arrived, and without a
    fix the optimizer thread stays blocked, the optimized state unset and
    nothing published. *)
Theorem bootstrap_wait_is_retried_without_bound
  (rp : RosParams) (n : nat) (ip : FilterOutput) (later : list (option FilterOutput)) :
  param (p_FixedInitialPose rp) false = false ->
  (exists out,
      StateEstimator_ctor rp (repeat None n) = WaitingForInitialPose out
      /\ filter isRosWarn out = repeat waitingWarning n)
  /\ (exists out,
         StateEstimator_ctor rp (repeat None n ++ Some ip :: later)
         = Constructed (makeConfig rp ip) (initialEstimator rp (makeConfig rp ip)) out
         /\ filter isRosWarn out = repeat waitingWarning (S n))
  /\ (forall actions p out,
         forallb (fun a => negb (isGpsFix a)) actions = true ->
         run (makeConfig rp ip) actions (Alive (initialEstimator rp (makeConfig rp ip)))
         = (p, out) ->
         exists e,
           p = Alive e
           /\ m_gotFirstFix (optimizer e) = false
           /\ m_isam (optimizer e) = []
           /\ optimized e = unsetOptimized
           /\ filter isPublish out = []).
Proof.
  intros Hwait. split; [|split].
  - unfold StateEstimator_ctor. rewrite Hwait, wait_expired. cbn [negb].
    eexists. split; [reflexivity|].
    rewrite !filter_app. cbn [filter isRosWarn banner app].
    apply filter_warnings_repeat.
  - unfold StateEstimator_ctor. rewrite Hwait, wait_arrives. cbn [negb].
    eexists. split; [reflexivity|].
    rewrite !filter_app. cbn [filter isRosWarn banner app].
    rewrite app_nil_r. apply (filter_warnings_repeat (S n)).
  - intros actions p out Hno Hrun.
    destruct (run_without_fix _ actions (initialEstimator rp (makeConfig rp ip)) p out
                eq_refl eq_refl eq_refl Hno Hrun)
      as (e & -> & Ho & Hopt & Hout).
    exists e. rewrite Ho. now repeat split.
Qed.

(** ** The GpsSkip parameter *)

Lemma reintegrate_gpsSkip (k : Z) (c : Config) (buffered : list Imu) :
  forall t0 pim g,
    reintegrate (set_gpsSkip c k) buffered t0 pim g = reintegrate c buffered t0 pim g.
Proof.
  induction buffered as [|m rest IH]; intros t0 pim g; [reflexivity|].
  cbn [reintegrate].
  change (GetAccGyro (set_gpsSkip c k) m) with (GetAccGyro c m).
  destruct (GetAccGyro c m). apply IH.
Qed.

Lemma integrateUpTo_gpsSkip (k : Z) (c : Config) (t : double) (pending : list Imu) :
  forall lastIMU t0 pim,
    integrateUpTo (set_gpsSkip c k) t lastIMU t0 pim pending
    = integrateUpTo c t lastIMU t0 pim pending.
Proof.
  induction pending as [|m rest IH]; intros lastIMU t0 pim; cbn [integrateUpTo];
    change (GetAccGyro (set_gpsSkip c k) lastIMU) with (GetAccGyro c lastIMU);
    destruct (dlt _ _); try reflexivity.
  destruct (GetAccGyro c lastIMU). apply IH.
Qed.

Lemma ImuCallback_gpsSkip (k : Z) (c : Config) (now : double) (imu : Imu)
  (e : Estimator) :
  ImuCallback (set_gpsSkip c k) now imu e = ImuCallback c now imu e.
Proof.
  unfold ImuCallback, ImuCallback_from.
  destruct (pushNonBlocking _ _) as [pushed q].
  destruct (deq _ _); [reflexivity|].
  destruct (discardOlder _ _ _ _) as [[kept t1] nm].
  rewrite reintegrate_gpsSkip.
  change (GetAccGyro (set_gpsSkip c k) imu) with (GetAccGyro c imu).
  reflexivity.
Qed.

Lemma GpsHelper_iteration_gpsSkip (k : Z) (c : Config) (reply : BackendReply)
  (e : Estimator) :
  GpsHelper_iteration (set_gpsSkip c k) reply e = GpsHelper_iteration c reply e.
Proof.
  unfold GpsHelper_iteration.
  destruct (selectTrigger e) as [[[trig cur] qs]|]; [|reflexivity].
  destruct (negb _).
  - destruct (fix_ trig); reflexivity.
  - destruct (_ || _); [|reflexivity].
    unfold steady.
    destruct (odomFactors _ _ _ _) as [[[odomFs pair] odomRest]|]; [|reflexivity].
    destruct (m_lastIMU (optimizer e)) as [lastIMU0|]; [|reflexivity].
    rewrite integrateUpTo_gpsSkip. reflexivity.
Qed.

Lemma run_gpsSkip (k : Z) (c : Config) (actions : list Action) :
  forall p, run (set_gpsSkip c k) actions p = run c actions p.
Proof.
  induction actions as [|a rest IH]; intros p; [reflexivity|].
  cbn [run].
  assert (Hstep : step (set_gpsSkip c k) a p = step c a p).
  { destruct p as [e|e]; [|reflexivity].
    destruct a as [f|now imu|od|reply]; cbn [step]; try reflexivity.
    - now rewrite ImuCallback_gpsSkip.
    - now rewrite GpsHelper_iteration_gpsSkip. }
  rewrite Hstep. destruct (step c a p) as [p1 out1]. now rewrite IH.
Qed.

Lemma set_p_GpsSkip_same (rp : RosParams) :
  set_p_GpsSkip rp (p_GpsSkip rp) = rp.
Proof. now destruct rp. Qed.

Lemma set_p_GpsSkip_twice (rp : RosParams) (v w : option Z) :
  set_p_GpsSkip (set_p_GpsSkip rp v) w = set_p_GpsSkip rp w.
Proof. reflexivity. Qed.

(** Replacing [GpsSkip] changes the value the constructor prints and nothing
    else. *)
Lemma node_gpsSkip (rp : RosParams) (v : option Z)
  (replies : list (option FilterOutput)) (actions : list Action) :
  match node (set_p_GpsSkip rp v) replies actions, node rp replies actions with
  | Some (p1, out1), Some (p2, out2) =>
      p1 = p2 /\ filter notParamListing out1 = filter notParamListing out2
  | None, None => True
  | _, _ => False
  end.
Proof.
  unfold node, StateEstimator_ctor.
  change (p_FixedInitialPose (set_p_GpsSkip rp v)) with (p_FixedInitialPose rp).
  assert (Hfinish : forall ip out,
    match
      (let (p, out') :=
         run (makeConfig (set_p_GpsSkip rp v) ip) actions
           (Alive (initialEstimator (set_p_GpsSkip rp v)
                     (makeConfig (set_p_GpsSkip rp v) ip))) in
       Some (p, ([StdoutPose "IMU->GPS" (m_imuPgps (makeConfig (set_p_GpsSkip rp v) ip))]
                 ++ banner (makeConfig (set_p_GpsSkip rp v) ip)
                      (param (p_AccelerometerSigma rp) (6 # 100))
                      (param (p_GyroSigma rp) (2 # 100))
                 ++ out
                 ++ [StdoutPose "Body pose" (m_bodyPSensor (makeConfig (set_p_GpsSkip rp v) ip));
                     StdoutPose "CarBodyPose"
                       (m_carENUPcarNED (makeConfig (set_p_GpsSkip rp v) ip))])
                ++ out')),
      (let (p, out') :=
         run (makeConfig rp ip) actions (Alive (initialEstimator rp (makeConfig rp ip))) in
       Some (p, ([StdoutPose "IMU->GPS" (m_imuPgps (makeConfig rp ip))]
                 ++ banner (makeConfig rp ip)
                      (param (p_AccelerometerSigma rp) (6 # 100))
                      (param (p_GyroSigma rp) (2 # 100))
                 ++ out
                 ++ [StdoutPose "Body pose" (m_bodyPSensor (makeConfig rp ip));
                     StdoutPose "CarBodyPose" (m_carENUPcarNED (makeConfig rp ip))])
                ++ out'))
    with
    | Some (p1, out1), Some (p2, out2) =>
        p1 = p2 /\ filter notParamListing out1 = filter notParamListing out2
    | None, None => True
    | _, _ => False
    end).
  { intros ip out.
    change (makeConfig (set_p_GpsSkip rp v) ip)
      with (set_gpsSkip (makeConfig rp ip) (param v 5%Z)).
    rewrite run_gpsSkip.
    change (initialEstimator (set_p_GpsSkip rp v)
              (set_gpsSkip (makeConfig rp ip) (param v 5%Z)))
      with (initialEstimator rp (makeConfig rp ip)).
    destruct (run _ _ _) as [p out'].
    split; [reflexivity|].
    rewrite !filter_app. reflexivity. }
  destruct (negb _).
  - destruct (waitForInitialPose replies) as [[ip|] w].
    + apply Hfinish.
    + exact I.
  - apply Hfinish.
Qed.

(** C10: two nodes whose parameters differ only in [GpsSkip], given the same
    replies to the wait for the initial pose and the same messages and solver
    answers, end with the same members (the batches submitted and the
    optimized state among them) and produce the same outputs, the published
    poses and biases among them, apart from the value printed for GpsSkip. *)
Theorem gpsSkip_has_no_effect
  (rp1 rp2 : RosParams) (replies : list (option FilterOutput))
  (actions : list Action) :
  differOnlyInGpsSkip rp1 rp2 ->
  match node rp1 replies actions, node rp2 replies actions with
  | Some (p1, out1), Some (p2, out2) =>
      p1 = p2
      /\ filter notParamListing out1 = filter notParamListing out2
      /\ filter isPublish out1 = filter isPublish out2
  | None, None => True
  | _, _ => False
  end.
Proof.
  unfold differOnlyInGpsSkip. intros Hdiff.
  assert (Hrp : rp1 = set_p_GpsSkip rp2 (p_GpsSkip rp1)).
  { rewrite <- (set_p_GpsSkip_same rp1) at 1.
    rewrite <- (set_p_GpsSkip_twice rp1 None), Hdiff. reflexivity. }
  clear Hdiff. revert Hrp. generalize (p_GpsSkip rp1). intros v ->.
  pose proof (node_gpsSkip rp2 v replies actions) as Hn.
  destruct (node (set_p_GpsSkip rp2 v) replies actions) as [[p1 out1]|];
    destruct (node rp2 replies actions) as [[p2 out2]|]; try exact Hn.
  destruct Hn as [Hp Hout]. split; [exact Hp|]. split; [exact Hout|].
  assert (Hsub : forall l, filter isPublish l = filter isPublish (filter notParamListing l)).
  { induction l as [|ev l IH]; [reflexivity|].
    destruct ev; cbn; rewrite <- ?IH; reflexivity. }
  now rewrite (Hsub out1), (Hsub out2), Hout.
Qed.

(** ** Wheel odometry *)

Lemma tossOlder_spec (t : double) (pending : list WheelOdom) :
  exists tossed,
    pending = tossed ++ tossOlder t pending
    /\ Forall (fun od => dlt (odom_stamp od) t = true) tossed
    /\ match tossOlder t pending with
       | [] => True
       | od :: _ => dlt (odom_stamp od) t = false
       end.
Proof.
  induction pending as [|od rest IH]; cbn [tossOlder].
  - exists []. now repeat split.
  - destruct (dlt (odom_stamp od) t) eqn:Hod.
    + destruct IH as (tossed & Heq & Hall & Hhd).
      exists (od :: tossed). cbn [app]. rewrite <- Heq.
      repeat split; [now constructor | exact Hhd].
    + exists []. now repeat split.
Qed.

Lemma advanceLast_spec (t : double) (pending : list WheelOdom) :
  forall lastOdom,
    exists skipped,
      pending = skipped ++ snd (advanceLast t lastOdom pending)
      /\ Forall (fun od => dlt (odom_stamp od) t = true) skipped
      /\ fst (advanceLast t lastOdom pending) = last skipped lastOdom
      /\ match snd (advanceLast t lastOdom pending) with
         | [] => True
         | od :: _ => dlt (odom_stamp od) t = false
         end.
Proof.
  induction pending as [|od rest IH]; intros lastOdom; cbn [advanceLast].
  - exists []. now repeat split.
  - destruct (dlt (odom_stamp od) t) eqn:Hod.
    + destruct (IH od) as (skipped & Heq & Hall & Hlast & Hhd).
      exists (od :: skipped). cbn [app]. rewrite <- Heq, last_cons.
      repeat split; [now constructor | exact Hlast | exact Hhd].
    + exists []. cbn [fst snd app last]. now repeat split.
Qed.

(** Whatever the trigger and the samples, the factor built from wheel
    odometry holds the pose of the first sample of the pair and names the key
    of the previous epoch twice. *)
Lemma odomFactors_content (k : Z) (g : bool) (cur : double) (pending : list WheelOdom)
  fs firstOdom lastOdom rest :
  odomFactors k g cur pending = Some (fs, (firstOdom, lastOdom), rest) ->
  fs = [] \/ fs = [BetweenFactorPose (X k) (X k) (odomPose firstOdom) odomSigmas].
Proof.
  unfold odomFactors. destruct pending as [|a [|b l]]; try discriminate.
  destruct (negb g || dlt (odom_stamp b) cur).
  - destruct (advanceLast cur b l). intros [= <- <- _ _]. now right.
  - intros [= <- _ _ _]. now left.
Qed.

Lemma selectTrigger_steady (e : Estimator) (trig : Trigger) (cur : double) (qs : Queues) :
  m_gotFirstFix (optimizer e) = true ->
  selectTrigger e = Some (trig, cur, qs) ->
  usingGPS trig || usingOdom trig = true ->
  usingGPS trig = (0 <? size (m_gpsOptQ (queues e)))%nat
  /\ m_odomOptQ qs = m_odomOptQ (queues e)
  /\ (usingGPS trig = false ->
      exists newest,
        back (m_odomOptQ (queues e)) = Some newest /\ cur = odom_stamp newest).
Proof.
  intros Hgot. unfold selectTrigger. rewrite Hgot. cbn [negb orb andb].
  destruct (0 <? size (m_gpsOptQ (queues e)))%nat.
  - destruct (popBlocking _) as [[f q]|]; [|discriminate].
    destruct (drainToNewest f (items q)). intros [= <- _ <-] _.
    now repeat split.
  - destruct (0 <? size (m_odomOptQ (queues e)))%nat.
    + destruct (back (m_odomOptQ (queues e))) as [od|].
      * intros [= <- <- <-] _. repeat split. intros _. now exists od.
      * intros [= <- _ _]. discriminate.
    + intros [= <- _ _]. discriminate.
Qed.

(** C4, as amended: a correction first drops the queued wheel-odometry
    samples stamped before the previous correction and pops the next two; with
    the relative trigger, whose time is the stamp of the newest queued sample,
    and with the absolute trigger when the second of the two is stamped before
    the fix, it moves the later sample of the pair on through the samples
    stamped before the trigger time and adds one wheel-odometry factor; with
    the absolute trigger and a second sample not stamped before the fix it
    adds none. *)
Theorem wheel_odometry_factor_is_guarded
  (c : Config) (reply : BackendReply) (e e' : Estimator) (out : list Event) :
  m_gotFirstFix (optimizer e) = true ->
  GpsHelper_iteration c reply e = Completed e' out ->
  m_isam (optimizer e') <> m_isam (optimizer e) ->
  let o := optimizer e in
  let absolute := (0 <? size (m_gpsOptQ (queues e)))%nat in
  let cur := curTime (optimizer e') in
  exists tossed firstOdom second more batch,
    items (m_odomOptQ (queues e)) = tossed ++ firstOdom :: second :: more
    /\ Forall (fun od => dlt (odom_stamp od) (prevTime o) = true) tossed
    /\ dlt (odom_stamp firstOdom) (prevTime o) = false
    /\ m_isam (optimizer e') = m_isam o ++ [batch]
    /\ (absolute = false ->
        exists newest,
          back (m_odomOptQ (queues e)) = Some newest /\ cur = odom_stamp newest)
    /\ (absolute = true ->
        exists f pending,
          items (m_gpsOptQ (queues e)) = f :: pending
          /\ cur = fix_stamp (last pending f))
    /\ if negb absolute || dlt (odom_stamp second) cur
       then
         exists skipped fs,
           more = skipped ++ items (m_odomOptQ (queues e'))
           /\ Forall (fun od => dlt (odom_stamp od) cur = true) skipped
           /\ match items (m_odomOptQ (queues e')) with
              | [] => True
              | od :: _ => dlt (odom_stamp od) cur = false
              end
           /\ odomFactors (m_poseVelKey o) absolute cur (firstOdom :: second :: more)
              = Some (fs, (firstOdom, last skipped second),
                      items (m_odomOptQ (queues e')))
           /\ List.length (filter isWheelOdomFactor (newFactors batch)) = 1%nat
       else
         items (m_odomOptQ (queues e')) = more
         /\ filter isWheelOdomFactor (newFactors batch) = [].
Proof.
  intros Hgot Hit Hne o absolute cur.
  apply iteration_completed in Hit.
  destruct Hit as [(Hgot' & _)|[(_ & trig & cur0 & qs & Hsel & Hu & Hs)|(_ & -> & _)]];
    [congruence| |now contradiction Hne].
  destruct (selectTrigger_steady e trig cur0 qs Hgot Hsel Hu) as (Habs & Hq & Hrel).
  apply steady_completed in Hs.
  destruct Hs as (sol & odomFs & pair & odomRest & l0 & l1 & t1 & pim & imuRest
                  & gpsFs & _ & Hodom & _ & _ & Hgps & He' & _).
  assert (Hcur : cur = cur0) by (subst cur e'; reflexivity).
  assert (Hrest : items (m_odomOptQ (queues e')) = odomRest) by (subst e'; reflexivity).
  assert (Hgf : filter isWheelOdomFactor gpsFs = []).
  { destruct (usingGPS trig).
    - destruct (fix_ trig); [|discriminate]. now injection Hgps as <-.
    - now injection Hgps as <-. }
  rewrite Hcur, Hrest. fold absolute in Habs. rewrite Habs, Hq in *. fold o in Hodom.
  destruct (tossOlder_spec (prevTime o) (items (m_odomOptQ (queues e))))
    as (tossed & Heq & Hall & Hhd).
  unfold odomFactors in Hodom.
  destruct (tossOlder (prevTime o) (items (m_odomOptQ (queues e))))
    as [|firstOdom [|second more]] eqn:Htoss; try discriminate.
  exists tossed, firstOdom, second, more.
  eexists. split; [exact Heq|]. split; [exact Hall|]. split; [exact Hhd|].
  split; [subst e'; reflexivity|]. split; [exact Hrel|].
  split.
  { intros Ha. unfold absolute, size in Ha.
    destruct (items (m_gpsOptQ (queues e))) as [|f pending] eqn:Hgq; [discriminate|].
    exists f, pending. split; [reflexivity|].
    rewrite (selectTrigger_gps e f pending Hgq) in Hsel. now injection Hsel as _ <- _. }
  cbn [newFactors]. rewrite !filter_app, Hgf.
  destruct (negb absolute || dlt (odom_stamp second) cur0) eqn:Hc.
  - destruct (advanceLast_spec cur0 more second) as (skipped & Hm & Hsk & Hlast & Hnext).
    destruct (advanceLast cur0 second more) as [lastOdom rest'] eqn:Hadv.
    cbn [fst snd] in Hm, Hlast, Hnext.
    injection Hodom as <- _ <-. subst lastOdom.
    exists skipped. eexists. repeat split; try eassumption; try reflexivity.
    unfold odomFactors. rewrite Hc, Hadv. reflexivity.
  - injection Hodom as <- _ <-. now split.
Qed.

End Properties.

(** * The properties on concrete runs *)




Lemma epoch_keys_increase_by_one_witness :
  StateEstimator_ctor (H := flatExternal) defaultParams [Some sampleFilterOutput]
  = Constructed reachedConfig startEstimator startupOutput
  /\ map batchKey (m_isam (optimizer (reached fixAfterOdometry)))
     = [Some (X 0); Some (X 1)].
Proof.
  assert (Hctor :
            StateEstimator_ctor (H := flatExternal) defaultParams [Some sampleFilterOutput]
            = Constructed reachedConfig startEstimator startupOutput)
    by (vm_compute; reflexivity).
  split; [exact Hctor|].
  exact (proj1 (proj2
           (@epoch_keys_increase_by_one flatExternal defaultParams
              [Some sampleFilterOutput] reachedConfig startEstimator startupOutput
              fixAfterOdometry
              (fst (run (H := flatExternal) reachedConfig fixAfterOdometry
                      (Alive startEstimator)))
              (snd (run (H := flatExternal) reachedConfig fixAfterOdometry
                      (Alive startEstimator)))
              Hctor
              (surjective_pairing _)))).
Defined.

(** The correction that follows [beforeCorrection]. *)
Lemma fixAfterOdometry_correction :
  GpsHelper_iteration (H := flatExternal) reachedConfig
    (Some (constantSolution zeroBias)) (reached beforeCorrection)
  = Completed (reached fixAfterOdometry)
      (outputOf (GpsHelper_iteration (H := flatExternal) reachedConfig
                   (Some (constantSolution zeroBias)) (reached beforeCorrection))).
Proof. vm_compute. reflexivity. Qed.

Lemma wheel_odometry_factor_is_guarded_witness :
  m_gotFirstFix (optimizer (reached beforeCorrection)) = true
  /\ m_isam (optimizer (reached fixAfterOdometry))
     <> m_isam (optimizer (reached beforeCorrection))
  /\ exists tossed firstOdom second more,
       items (m_odomOptQ (queues (reached beforeCorrection)))
       = tossed ++ firstOdom :: second :: more
       /\ dlt (odom_stamp firstOdom) (prevTime (optimizer (reached beforeCorrection)))
          = false.
Proof.
  assert (Hgot : m_gotFirstFix (optimizer (reached beforeCorrection)) = true)
    by (vm_compute; reflexivity).
  assert (Hne : m_isam (optimizer (reached fixAfterOdometry))
                <> m_isam (optimizer (reached beforeCorrection))).
  { intros Heq. apply (f_equal (@List.length Batch)) in Heq.
    vm_compute in Heq. discriminate Heq. }
  split; [exact Hgot|]. split; [exact Hne|].
  destruct (@wheel_odometry_factor_is_guarded flatExternal reachedConfig
              (Some (constantSolution zeroBias)) (reached beforeCorrection)
              (reached fixAfterOdometry) _ Hgot fixAfterOdometry_correction Hne)
    as (tossed & firstOdom & second & more & batch & Heq & _ & Hfirst & _).
  exists tossed, firstOdom, second, more. split; [exact Heq|exact Hfirst].
Defined.

(** In [fixAfterOdometry] the correction is triggered by the fix at 5, the
    second wheel-odometry sample is stamped 2, and the batch holds a GPS
    factor together with a wheel-odometry factor; that factor carries the
    pose of the first sample and names the key X 0 twice. *)
Lemma absolute_trigger_with_lagging_odometry_adds_factor :
  exists first batch,
    m_isam (optimizer (reached fixAfterOdometry)) = [first; batch]
    /\ filter isWheelOdomFactor (newFactors batch)
       = [BetweenFactorPose (X 0) (X 0) (odomPose (odomAt 1 0)) odomSigmas]
    /\ ~ spec_absolute_excludes_relative batch.
Proof.
  eexists _, _. split; [vm_compute; reflexivity|].
  split; [vm_compute; reflexivity|].
  unfold spec_absolute_excludes_relative. cbn [newFactors]. intros Hspec.
  assert (Hgps : filter isGPSFactor
                   (newFactors
                      (last (m_isam (optimizer (reached fixAfterOdometry)))
                         (mkBatch [] []))) <> [])
    by (vm_compute; discriminate).
  vm_compute in Hgps. vm_compute in Hspec. specialize (Hspec Hgps). discriminate Hspec.
Qed.



Lemma full_queue_drops_sample_witness :
  fullQueue (m_gpsOptQ (queues (reached allQueuesFull)))
  /\ fullQueue (m_ImuOptQ (queues (reached allQueuesFull)))
  /\ fullQueue (m_odomOptQ (queues (reached allQueuesFull)))
  /\ GpsCallback (fixAt 2) (reached allQueuesFull)
     = (reached allQueuesFull, [RosWarn "Dropping a GPS measurement due to full queue!!"])
  /\ In (RosWarn "Dropping an IMU measurement due to full queue!!")
       (snd (ImuCallback (H := flatExternal) reachedConfig 2 (imuAt 2 0 0 0)
               (reached allQueuesFull)))
  /\ WheelOdomCallback (odomAt 2 0) (reached allQueuesFull) = (reached allQueuesFull, []).
Proof.
  assert (Hg : fullQueue (m_gpsOptQ (queues (reached allQueuesFull))))
    by (unfold fullQueue; vm_compute; apply le_n).
  assert (Hi : fullQueue (m_ImuOptQ (queues (reached allQueuesFull))))
    by (unfold fullQueue; vm_compute; apply le_n).
  assert (Ho : fullQueue (m_odomOptQ (queues (reached allQueuesFull))))
    by (unfold fullQueue; vm_compute; apply le_n).
  destruct (@full_queue_drops_sample flatExternal reachedConfig (reached allQueuesFull))
    as (Hgps & Himu & Hodom & _).
  split; [exact Hg|]. split; [exact Hi|]. split; [exact Ho|].
  split; [exact (Hgps Hg (fixAt 2))|].
  split; [exact (proj2 (Himu Hi 2 (imuAt 2 0 0 0)))|].
  exact (Hodom Ho (odomAt 2 0)).
Defined.

(** After a hundred wheel-odometry messages the queue is full; the next
    message is dropped and the callback surfaces nothing. *)
Lemma wheel_odometry_overflow_is_silent :
  size (m_odomOptQ (queues (reached hundredOdom))) = 100%nat
  /\ capacity (m_odomOptQ (queues (reached hundredOdom))) = 100%nat
  /\ WheelOdomCallback (odomAt 2 0) (reached hundredOdom) = (reached hundredOdom, [])
  /\ ~ spec_overflow_is_warned (H := flatExternal) reachedConfig (reached hundredOdom).
Proof.
  split; [vm_compute; reflexivity|].
  split; [vm_compute; reflexivity|].
  split; [vm_compute; reflexivity|].
  intros (_ & _ & Hodom).
  apply (Hodom ltac:(unfold fullQueue; vm_compute; apply le_n) (odomAt 2 0)).
  vm_compute. reflexivity.
Qed.

Lemma backend_fault_keeps_optimized_state_witness :
  step (H := flatExternal) reachedConfig (HelperIteration None)
    (Alive (reached beforeCorrection))
  = (Terminated
       (completedEstimator
          (GpsHelper_iteration (H := flatExternal) reachedConfig None
             (reached beforeCorrection))),
     outputOf
       (GpsHelper_iteration (H := flatExternal) reachedConfig None
          (reached beforeCorrection)))
  /\ optimized
       (completedEstimator
          (GpsHelper_iteration (H := flatExternal) reachedConfig None
             (reached beforeCorrection)))
     = optimized (reached beforeCorrection).
Proof.
  assert (Hstep :
            step (H := flatExternal) reachedConfig (HelperIteration None)
              (Alive (reached beforeCorrection))
            = (Terminated
                 (completedEstimator
                    (GpsHelper_iteration (H := flatExternal) reachedConfig None
                       (reached beforeCorrection))),
               outputOf
                 (GpsHelper_iteration (H := flatExternal) reachedConfig None
                    (reached beforeCorrection))))
    by (vm_compute; reflexivity).
  split; [exact Hstep|].
  exact (proj1 (@backend_fault_keeps_optimized_state flatExternal reachedConfig
                  (reached beforeCorrection) _ _ Hstep)).
Defined.

Lemma bootstrap_wait_is_retried_without_bound_witness :
  param (p_FixedInitialPose defaultParams) false = false
  /\ exists out,
       StateEstimator_ctor (H := flatExternal) defaultParams
         (repeat None 2 ++ Some sampleFilterOutput :: [])
       = Constructed reachedConfig startEstimator out
       /\ filter isRosWarn out = repeat waitingWarning 3.
Proof.
  split; [reflexivity|].
  exact (proj1 (proj2
           (@bootstrap_wait_is_retried_without_bound flatExternal defaultParams 2
              sampleFilterOutput [] eq_refl))).
Defined.

(** However many waits have expired, a message that arrives afterwards lets
    the constructor finish: there is no bound after which it gives up. *)
Lemma bootstrap_wait_has_no_bound :
  StateEstimator_ctor (H := flatExternal) defaultParams [None; None; Some sampleFilterOutput]
  = Constructed reachedConfig startEstimator
      (match StateEstimator_ctor (H := flatExternal) defaultParams
               [None; None; Some sampleFilterOutput] with
       | Constructed _ _ out => out
       | WaitingForInitialPose out => out
       end)
  /\ ~ spec_bootstrap_wait_bounded (H := flatExternal) defaultParams.
Proof.
  split; [vm_compute; reflexivity|].
  intros [bound Hbound].
  assert (Hctor : exists c e out,
             StateEstimator_ctor (H := flatExternal) defaultParams
               (repeat None bound ++ [Some sampleFilterOutput])
             = Constructed c e out).
  { unfold StateEstimator_ctor. cbn [defaultParams p_FixedInitialPose param negb].
    rewrite wait_arrives. eexists _, _, _. reflexivity. }
  destruct Hctor as (c & e & out & Hctor).
  apply (Hbound (repeat None bound ++ [Some sampleFilterOutput]) c e out); [|exact Hctor].
  rewrite firstn_app, repeat_length, Nat.sub_diag, firstn_O, app_nil_r.
  apply firstn_all2. rewrite repeat_length. apply le_n.
Qed.

Lemma no_prediction_before_first_correction_witness :
  StateEstimator_ctor (H := flatExternal) defaultParams [Some sampleFilterOutput]
  = Constructed reachedConfig startEstimator startupOutput
  /\ optimized startEstimator = unsetOptimized
  /\ filter isPredictorOutput
       (snd (ImuCallback (H := flatExternal) reachedConfig 12 (imuAt 12 1 0 0)
               startEstimator)) = [].
Proof.
  assert (Hctor :
            StateEstimator_ctor (H := flatExternal) defaultParams [Some sampleFilterOutput]
            = Constructed reachedConfig startEstimator startupOutput)
    by (vm_compute; reflexivity).
  destruct (@no_prediction_before_first_correction flatExternal defaultParams
              [Some sampleFilterOutput] reachedConfig startEstimator startupOutput Hctor)
    as (Hunset & Hsample & _).
  split; [exact Hctor|]. split; [exact Hunset|].
  exact (proj1 (Hsample 12 (imuAt 12 1 0 0) startEstimator eq_refl)).
Defined.

Lemma gpsSkip_has_no_effect_witness :
  differOnlyInGpsSkip defaultParams (set_p_GpsSkip defaultParams (Some 1%Z))
  /\ match node (H := flatExternal) defaultParams [Some sampleFilterOutput] fixAfterOdometry,
           node (H := flatExternal) (set_p_GpsSkip defaultParams (Some 1%Z))
             [Some sampleFilterOutput] fixAfterOdometry with
     | Some (p1, out1), Some (p2, out2) =>
         p1 = p2
         /\ filter notParamListing out1 = filter notParamListing out2
         /\ filter isPublish out1 = filter isPublish out2
     | None, None => True
     | _, _ => False
     end.
Proof.
  split; [reflexivity|].
  exact (@gpsSkip_has_no_effect flatExternal defaultParams
           (set_p_GpsSkip defaultParams (Some 1%Z)) [Some sampleFilterOutput]
           fixAfterOdometry eq_refl).
Defined.

(** * Further properties of the callbacks and the optimizer thread *)

Section FurtherProperties.

Context `{External}.

(** ** The first fix *)

Lemma readImuUpTo_spec (t : double) (pending : list Imu) :
  forall l0 t0 l t1 rest,
    readImuUpTo t l0 t0 pending = Some (l, t1, rest) ->
    exists dropped,
      l0 :: pending = dropped ++ l :: rest
      /\ Forall (fun m => dlt (imu_stamp m) t = true) dropped
      /\ dlt (imu_stamp l) t = false
      /\ t1 = last (map imu_stamp dropped) t0.
Proof.
  induction pending as [|m pending IH]; intros l0 t0 l t1 rest Hr; cbn [readImuUpTo] in Hr;
    destruct (dlt (imu_stamp l0) t) eqn:Hl0.
  - discriminate.
  - injection Hr as <- <- <-. exists []. now repeat split.
  - destruct (IH _ _ _ _ _ Hr) as (dropped & Heq & Hall & Hl & Ht1).
    exists (l0 :: dropped). cbn [app map]. rewrite <- Heq, last_cons.
    repeat split; [now constructor | exact Hl | exact Ht1].
  - injection Hr as <- <- <-. exists []. now repeat split.
Qed.

(** The first completed iteration is [bootstrap] on the newest queued fix. *)
Lemma first_fix_iteration (c : Config) (reply : BackendReply) (e e' : Estimator)
  (out : list Event) :
  m_gotFirstFix (optimizer e) = false ->
  GpsHelper_iteration c reply e = Completed e' out ->
  exists f pending,
    items (m_gpsOptQ (queues e)) = f :: pending
    /\ bootstrap c reply e (last pending f) (fix_stamp (last pending f))
         (set_gpsOptQ (queues e) (mkQueue (capacity (m_gpsOptQ (queues e))) []))
       = Completed e' out.
Proof.
  intros Hgot. unfold GpsHelper_iteration.
  destruct (items (m_gpsOptQ (queues e))) as [|f pending] eqn:Hq.
  - unfold selectTrigger, popBlocking. rewrite Hgot, Hq. discriminate.
  - rewrite (selectTrigger_gps e f pending Hq), Hgot. cbn [negb fix_].
    intros Hb. now exists f, pending.
Qed.

(** The members a completed [bootstrap] leaves behind. *)
Lemma bootstrap_explicit (c : Config) (reply : BackendReply) (e : Estimator)
  (f : NavSatFix) (cur : double) (qs : Queues) (e' : Estimator) (out : list Event) :
  bootstrap c reply e f cur qs = Completed e' out ->
  let o := optimizer e in
  let enu := if m_fixedOrigin c then m_enu o
             else mkLocalCartesian (latitude f) (longitude f) (altitude f) in
  let ENU := if m_fixedOrigin c
             then Forward (m_enu o) (latitude f) (longitude f) (altitude f)
             else zero3 in
  let x0 :=
    mkPose3
      (rot_mul (rot_mul (rotation (m_bodyPSensor c)) (fo_orientation (m_initialPose c)))
         (rotation (m_carENUPcarNED c)))
      ENU in
  let b := fo_bias (m_initialPose c) in
  let biases := mkBias zero3 (mkVector3 (vx b) (- vy b) (- vz b)) in
  exists first rest0 lastIMU t1 rest,
    items (m_ImuOptQ qs) = first :: rest0
    /\ readImuUpTo (fix_stamp f) first (imu_stamp first - (5 # 1000)) rest0
       = Some (lastIMU, t1, rest)
    /\ e' =
       mkEstimator (set_ImuOptQ qs (mkQueue (capacity (m_ImuOptQ qs)) rest))
         (optimized e) (predictor e)
         {| m_biasKey := m_biasKey o;
            m_poseVelKey := m_poseVelKey o;
            m_lastImuTgps := t1;
            m_gotFirstFix := true;
            m_enu := enu;
            m_previousBias := biases;
            m_prevPose := x0;
            m_prevVel := m_prevVel o;
            m_lastIMU := Some lastIMU;
            m_isam :=
              m_isam o ++
              [mkBatch
                 [ PriorFactorPose (X 0) x0 (priorNoisePose c);
                   PriorFactorVel (V 0) zero3 (priorNoiseVel c);
                   PriorFactorBias (B 0) biases (priorNoiseBias c);
                   BetweenFactorPose (X 0) (G 0) (m_imuPgps c) imuPgpsSigmas ]
                 [ (X 0, ValPose x0);
                   (V 0, ValVel zero3);
                   (B 0, ValBias biases);
                   (G 0, ValPose (compose x0 (m_imuPgps c))) ]];
            prevTime := cur;
            curTime := cur |}
    /\ out = [Stdout "Initial orientation"; StdoutRot (rotation x0); LoopRateSleep].
Proof.
  intros Hb o enu ENU x0 b biases. unfold bootstrap in Hb. fold o in Hb.
  subst enu ENU x0.
  destruct (m_fixedOrigin c); cbn [negb] in Hb |- *;
    (destruct reply as [sol|]; [|discriminate]);
    unfold popBlocking in Hb;
    (destruct (items (m_ImuOptQ qs)) as [|first rest0]; [discriminate|]);
    cbn [items capacity] in Hb;
    (destruct (readImuUpTo _ _ _ _) as [[[lastIMU t1] rest]|] eqn:Hr; [|discriminate]);
    injection Hb as <- <-;
    exists first, rest0, lastIMU, t1, rest; now repeat split.
Qed.

(** X1: the first completed iteration takes the newest queued fix and empties
    the GPS queue; unless a fixed origin is configured it makes that fix the
    origin of the local frame and starts at position (0, 0, 0), otherwise it
    keeps the origin and starts at the fix projected into it; the batch it
    submits holds priors on that pose, on zero velocity and on the initial
    bias, the gyroscope part of which is the bias of the initial-pose message
    with its y and z components negated. *)
Theorem first_fix_sets_origin_and_priors
  (c : Config) (reply : BackendReply) (e e' : Estimator) (out : list Event) :
  m_gotFirstFix (optimizer e) = false ->
  GpsHelper_iteration c reply e = Completed e' out ->
  exists f pending,
    items (m_gpsOptQ (queues e)) = f :: pending
    /\ items (m_gpsOptQ (queues e')) = []
    /\ m_gotFirstFix (optimizer e') = true
    /\ prevTime (optimizer e') = fix_stamp (last pending f)
    /\ (if m_fixedOrigin c
        then
          m_enu (optimizer e') = m_enu (optimizer e)
          /\ translation (m_prevPose (optimizer e'))
             = Forward (m_enu (optimizer e)) (latitude (last pending f))
                 (longitude (last pending f)) (altitude (last pending f))
        else
          m_enu (optimizer e')
          = mkLocalCartesian (latitude (last pending f)) (longitude (last pending f))
              (altitude (last pending f))
          /\ translation (m_prevPose (optimizer e')) = zero3)
    /\ m_previousBias (optimizer e')
       = mkBias zero3
           (mkVector3 (vx (fo_bias (m_initialPose c))) (- vy (fo_bias (m_initialPose c)))
              (- vz (fo_bias (m_initialPose c))))
    /\ exists guess,
         m_isam (optimizer e')
         = m_isam (optimizer e) ++
           [mkBatch
              [ PriorFactorPose (X 0) (m_prevPose (optimizer e')) (priorNoisePose c);
                PriorFactorVel (V 0) zero3 (priorNoiseVel c);
                PriorFactorBias (B 0) (m_previousBias (optimizer e')) (priorNoiseBias c);
                BetweenFactorPose (X 0) (G 0) (m_imuPgps c) imuPgpsSigmas ]
              guess].
Proof.
  intros Hgot Hit.
  destruct (first_fix_iteration c reply e e' out Hgot Hit) as (f & pending & Hq & Hb).
  apply bootstrap_explicit in Hb.
  destruct Hb as (first & rest0 & lastIMU & t1 & rest & _ & _ & -> & _).
  exists f, pending. cbn.
  split; [exact Hq|]. split; [reflexivity|]. split; [reflexivity|].
  split; [reflexivity|]. split; [destruct (m_fixedOrigin c); now split|].
  split; [reflexivity|]. eexists. reflexivity.
Qed.

(** X2: the first completed iteration pops inertial samples from the queue up
    to the first one that is not stamped before the fix, which it keeps as
    [m_lastIMU]; the samples popped before it are all stamped before the fix,
    and [m_lastImuTgps] is the stamp of the last of them or, when there is
    none, 5 ms before the stamp of the sample kept. *)
Theorem first_fix_aligns_inertial_queue
  (c : Config) (reply : BackendReply) (e e' : Estimator) (out : list Event) :
  m_gotFirstFix (optimizer e) = false ->
  GpsHelper_iteration c reply e = Completed e' out ->
  exists f pending dropped kept,
    items (m_gpsOptQ (queues e)) = f :: pending
    /\ items (m_ImuOptQ (queues e)) = dropped ++ kept :: items (m_ImuOptQ (queues e'))
    /\ m_lastIMU (optimizer e') = Some kept
    /\ Forall (fun m => dlt (imu_stamp m) (fix_stamp (last pending f)) = true) dropped
    /\ dlt (imu_stamp kept) (fix_stamp (last pending f)) = false
    /\ m_lastImuTgps (optimizer e')
       = last (map imu_stamp dropped) (imu_stamp (hd kept dropped) - (5 # 1000)).
Proof.
  intros Hgot Hit.
  destruct (first_fix_iteration c reply e e' out Hgot Hit) as (f & pending & Hq & Hb).
  apply bootstrap_explicit in Hb.
  destruct Hb as (first & rest0 & lastIMU & t1 & rest & Hiq & Hr & -> & _).
  cbn [set_gpsOptQ m_ImuOptQ] in Hiq.
  destruct (readImuUpTo_spec _ _ _ _ _ _ _ Hr) as (dropped & Heq & Hall & Hkept & Ht1).
  exists f, pending, dropped, lastIMU. cbn. rewrite Hiq, Heq.
  repeat split; try assumption.
  rewrite Ht1. destruct dropped as [|d dropped]; cbn [app] in Heq.
  - now injection Heq as ->.
  - now injection Heq as ->.
Qed.

(** ** The inertial samples of a correction *)

Lemma deltaTij_integrateMeasurement (pim : PreintegratedImuMeasurements)
  (acc gyro : Vector3) (dt : double) :
  deltaTij (integrateMeasurement pim acc gyro dt) = deltaTij pim + dt.
Proof.
  unfold deltaTij, integrateMeasurement. cbn [integrated].
  now rewrite fold_left_app.
Qed.

Lemma Q_add_sub_diag (a b : Q) : a == a + (b - b).
Proof. ring. Qed.

Lemma Q_telescope (a b c d x : Q) : x == a + (b - c) + (d - b) -> x == a + (d - c).
Proof. intros ->. ring. Qed.

Lemma Q_zero_add_sub (a b x : Q) : x == 0 + (a - b) -> x == a - b.
Proof. intros ->. ring. Qed.

Lemma integrateUpTo_spec (c : Config) (t : double) (pending : list Imu) :
  forall l0 t0 pim l t1 pim' rest,
    integrateUpTo c t l0 t0 pim pending = Some (l, t1, pim', rest) ->
    exists used,
      l0 :: pending = used ++ l :: rest
      /\ Forall (fun m => dlt (imu_stamp m) t = true) used
      /\ dlt (imu_stamp l) t = false
      /\ t1 = last (map imu_stamp used) t0
      /\ samplesOf pim' = samplesOf pim ++ map (GetAccGyro c) used
      /\ biasHat pim' = biasHat pim
      /\ deltaTij pim' == deltaTij pim + (t1 - t0).
Proof.
  induction pending as [|m pending IH]; intros l0 t0 pim l t1 pim' rest Hi;
    cbn [integrateUpTo] in Hi; destruct (dlt (imu_stamp l0) t) eqn:Hl0.
  - destruct (GetAccGyro c l0). discriminate.
  - injection Hi as <- <- <- <-. exists []. cbn [app map last].
    rewrite app_nil_r.
    split; [reflexivity|]. split; [apply Forall_nil|]. split; [exact Hl0|].
    split; [reflexivity|]. split; [reflexivity|]. split; [reflexivity|].
    apply Q_add_sub_diag.
  - destruct (GetAccGyro c l0) as [acc gyro] eqn:Hag.
    destruct (IH _ _ _ _ _ _ _ Hi) as (used & Heq & Hall & Hl & Ht1 & Hs & Hb & Hd).
    exists (l0 :: used). cbn [app map]. rewrite <- Heq, last_cons.
    split; [reflexivity|]. split; [now constructor|]. split; [exact Hl|].
    split; [exact Ht1|]. split; [|split; [exact Hb|]].
    + rewrite Hs. unfold samplesOf, integrateMeasurement. cbn [integrated].
      rewrite map_app, <- app_assoc. cbn [map fst app]. now rewrite Hag.
    + apply Q_telescope with (b := imu_stamp l0).
      now rewrite Hd, deltaTij_integrateMeasurement.
  - injection Hi as <- <- <- <-. exists []. cbn [app map last].
    rewrite app_nil_r.
    split; [reflexivity|]. split; [apply Forall_nil|]. split; [exact Hl0|].
    split; [reflexivity|]. split; [reflexivity|]. split; [reflexivity|].
    apply Q_add_sub_diag.
Qed.

(** A completed iteration after the first fix that has submitted a batch is
    [steady] on the trigger selected. *)
Lemma correction_iteration (c : Config) (reply : BackendReply) (e e' : Estimator)
  (out : list Event) :
  m_gotFirstFix (optimizer e) = true ->
  GpsHelper_iteration c reply e = Completed e' out ->
  m_isam (optimizer e') <> m_isam (optimizer e) ->
  exists trig cur qs,
    selectTrigger e = Some (trig, cur, qs)
    /\ usingGPS trig || usingOdom trig = true
    /\ steady c reply e trig cur qs = Completed e' out.
Proof.
  intros Hgot Hit Hne. apply iteration_completed in Hit.
  destruct Hit as [(Hgot' & _)|[(_ & trig & cur & qs & Hsel & Hu & Hs)|(_ & -> & _)]].
  - congruence.
  - now exists trig, cur, qs.
  - now contradiction Hne.
Qed.

Lemma odomFactors_no_imu (k : Z) (g : bool) (cur : double) (pending : list WheelOdom)
  fs pair rest :
  odomFactors k g cur pending = Some (fs, pair, rest) ->
  flat_map (fun f => match f with ImuFactor _ _ _ _ _ pim => [pim] | _ => [] end) fs = [].
Proof.
  unfold odomFactors. destruct pending as [|a [|b l]]; try discriminate.
  destruct (negb g || dlt (odom_stamp b) cur).
  - destruct (advanceLast cur b l). intros [= <- _ _]. reflexivity.
  - intros [= <- _ _]. reflexivity.
Qed.

(** X3: a correction integrates the inertial sample it holds and the samples
    it pops from the queue as long as they are stamped before the trigger
    time, in order and against the bias of the previous epoch, into the one
    IMU factor of its batch; the first sample not stamped before the trigger
    time is held for the next correction, so the optimized time written is
    never later than the stamp of the sample held. *)
Theorem correction_integrates_samples_before_trigger
  (c : Config) (reply : BackendReply) (e e' : Estimator) (out : list Event) :
  m_gotFirstFix (optimizer e) = true ->
  GpsHelper_iteration c reply e = Completed e' out ->
  m_isam (optimizer e') <> m_isam (optimizer e) ->
  exists held used kept batch pim,
    m_lastIMU (optimizer e) = Some held
    /\ held :: items (m_ImuOptQ (queues e))
       = used ++ kept :: items (m_ImuOptQ (queues e'))
    /\ m_lastIMU (optimizer e') = Some kept
    /\ Forall (fun m => dlt (imu_stamp m) (m_optimizedTime (optimized e')) = true) used
    /\ dlt (imu_stamp kept) (m_optimizedTime (optimized e')) = false
    /\ m_isam (optimizer e') = m_isam (optimizer e) ++ [batch]
    /\ imuFactorPims batch = [pim]
    /\ samplesOf pim = map (GetAccGyro c) used
    /\ biasHat pim = m_previousBias (optimizer e)
    /\ m_lastImuTgps (optimizer e')
       = last (map imu_stamp used) (m_lastImuTgps (optimizer e)).
Proof.
  intros Hgot Hit Hne.
  destruct (correction_iteration c reply e e' out Hgot Hit Hne)
    as (trig & cur & qs & Hsel & _ & Hs).
  apply selectTrigger_queues in Hsel. destruct Hsel as (Hqi & _).
  apply steady_completed in Hs.
  destruct Hs as (sol & odomFs & pair & odomRest & l0 & l1 & t1 & pim & imuRest
                  & gpsFs & _ & Hodom & Hheld & Himu & Hgps & -> & _).
  destruct (integrateUpTo_spec _ _ _ _ _ _ _ _ _ _ Himu)
    as (used & Heq & Hall & Hkept & Ht1 & Hsamples & Hbias & _).
  exists l0, used, l1. eexists. exists pim. cbn. rewrite <- Hqi.
  split; [exact Hheld|]. split; [exact Heq|]. split; [reflexivity|].
  split; [exact Hall|]. split; [exact Hkept|]. split; [reflexivity|].
  split; [|split; [exact Hsamples|split; [exact Hbias|exact Ht1]]].
  unfold imuFactorPims. cbn [newFactors]. rewrite !flat_map_app.
  rewrite (odomFactors_no_imu _ _ _ _ _ _ _ Hodom).
  destruct (usingGPS trig).
  - destruct (fix_ trig); [|discriminate]. now injection Hgps as <-.
  - now injection Hgps as <-.
Qed.

(** X4: the time a correction's preintegration covers is the distance from
    the stamp of the sample integrated last before the correction to the stamp
    of the sample integrated last in it, and the bias-continuity factor is
    scaled by the square root of that time; a correction whose held sample is
    not stamped before the trigger time integrates nothing and leaves the
    inertial queue as it was. *)
Theorem correction_preintegration_covers_elapsed_time
  (c : Config) (reply : BackendReply) (e e' : Estimator) (out : list Event) :
  m_gotFirstFix (optimizer e) = true ->
  GpsHelper_iteration c reply e = Completed e' out ->
  m_isam (optimizer e') <> m_isam (optimizer e) ->
  exists batch pim,
    m_isam (optimizer e') = m_isam (optimizer e) ++ [batch]
    /\ imuFactorPims batch = [pim]
    /\ deltaTij pim == m_lastImuTgps (optimizer e') - m_lastImuTgps (optimizer e)
    /\ In (BetweenFactorBias (B (m_biasKey (optimizer e)))
             (B (m_biasKey (optimizer e) + 1)) zeroBias
             (map (fun s => sqrt (deltaTij pim) * s) (noiseModelBetweenbias_sigma c)))
          (newFactors batch)
    /\ (forall held,
           m_lastIMU (optimizer e) = Some held ->
           dlt (imu_stamp held) (m_optimizedTime (optimized e')) = false ->
           integrated pim = []
           /\ m_lastIMU (optimizer e') = Some held
           /\ m_lastImuTgps (optimizer e') = m_lastImuTgps (optimizer e)
           /\ items (m_ImuOptQ (queues e')) = items (m_ImuOptQ (queues e))).
Proof.
  intros Hgot Hit Hne.
  destruct (correction_iteration c reply e e' out Hgot Hit Hne)
    as (trig & cur & qs & Hsel & _ & Hs).
  apply selectTrigger_queues in Hsel. destruct Hsel as (Hqi & _).
  apply steady_completed in Hs.
  destruct Hs as (sol & odomFs & pair & odomRest & l0 & l1 & t1 & pim & imuRest
                  & gpsFs & _ & Hodom & Hheld & Himu & Hgps & -> & _).
  destruct (integrateUpTo_spec _ _ _ _ _ _ _ _ _ _ Himu)
    as (used & Heq & Hall & Hkept & Ht1 & Hsamples & Hbias & Hdelta).
  eexists. exists pim. cbn.
  split; [reflexivity|]. split; [|split; [|split]].
  - unfold imuFactorPims. cbn [newFactors]. rewrite !flat_map_app.
    rewrite (odomFactors_no_imu _ _ _ _ _ _ _ Hodom).
    destruct (usingGPS trig).
    + destruct (fix_ trig); [|discriminate]. now injection Hgps as <-.
    + now injection Hgps as <-.
  - apply Q_zero_add_sub. exact Hdelta.
  - apply in_or_app. right. right. now left.
  - intros held Hh Hnot. rewrite Hheld in Hh. injection Hh as ->.
    rewrite Hqi in Himu. destruct (items (m_ImuOptQ (queues e))) as [|m pending];
      cbn [integrateUpTo] in Himu; rewrite Hnot in Himu;
      injection Himu as <- <- <- <-; now repeat split.
Qed.

(** ** What a run counts *)

Lemma callbacks_events (c : Config) (a : Action) (e : Estimator) (p : Process)
  (out : list Event) :
  (forall reply, a <> HelperIteration reply) ->
  step c a (Alive e) = (p, out) ->
  exists e',
    p = Alive e'
    /\ optimizer e' = optimizer e
    /\ optimized e' = optimized e
    /\ filter isSleep out = []
    /\ filter isBiasAcc out = []
    /\ filter isBiasGyro out = [].
Proof.
  intros Hcb. destruct a as [f|now imu|od|reply]; cbn [step].
  - unfold GpsCallback. destruct (pushNonBlocking _ _) as [[|] q];
      intros [= <- <-]; eexists; now repeat split.
  - unfold ImuCallback, ImuCallback_from.
    destruct (pushNonBlocking _ _) as [pushed q].
    destruct (deq _ _).
    + intros [= <- <-]. eexists. split; [reflexivity|].
      repeat split; destruct ((m_maxQSize _ <? _)%Z && _); destruct pushed; reflexivity.
    + destruct (discardOlder _ _ _ _) as [[kept t1] nm].
      destruct (if nm then _ else _) as [[pim t2] gyro].
      intros [= <- <-]. eexists. split; [reflexivity|].
      repeat split; destruct ((m_maxQSize _ <? _)%Z && _); destruct pushed; reflexivity.
  - unfold WheelOdomCallback. destruct (pushNonBlocking _ _) as [pushed q].
    intros [= <- <-]. eexists. now repeat split.
  - now contradiction (Hcb reply).
Qed.

Lemma completed_events (c : Config) (reply : BackendReply) (e e' : Estimator)
  (out : list Event) :
  GpsHelper_iteration c reply e = Completed e' out ->
  (List.length (filter isSleep out) + List.length (m_isam (optimizer e)))%nat
  = List.length (m_isam (optimizer e'))
  /\ (Z.of_nat (List.length (filter isBiasAcc out)) + m_poseVelKey (optimizer e))%Z
     = m_poseVelKey (optimizer e')
  /\ (Z.of_nat (List.length (filter isBiasGyro out)) + m_poseVelKey (optimizer e))%Z
     = m_poseVelKey (optimizer e').
Proof.
  intros Hit. apply iteration_completed in Hit.
  destruct Hit as [(_ & f & cur & qs & trig & _ & Hb)
                  |[(_ & trig & cur & qs & _ & _ & Hs)|(_ & -> & ->)]].
  - apply bootstrap_explicit in Hb.
    destruct Hb as (first & rest0 & lastIMU & t1 & rest & _ & _ & -> & ->).
    cbn. rewrite length_app. cbn. repeat split; lia.
  - apply steady_completed in Hs.
    destruct Hs as (sol & odomFs & pair & odomRest & l0 & l1 & t1 & pim & imuRest
                    & gpsFs & _ & _ & _ & _ & _ & -> & ->).
    cbn [optimizer m_isam m_poseVelKey]. rewrite length_app.
    destruct (fix_ trig);
      cbn [filter isSleep isBiasAcc isBiasGyro app List.length];
      repeat split; lia.
  - cbn. repeat split; lia.
Qed.

Lemma faulted_events (c : Config) (reply : BackendReply) (e e' : Estimator)
  (out : list Event) :
  GpsHelper_iteration c reply e = Faulted e' out ->
  filter isSleep out = [] /\ filter isBiasAcc out = [] /\ filter isBiasGyro out = [].
Proof.
  unfold GpsHelper_iteration.
  destruct (selectTrigger e) as [[[trig cur] qs]|]; [|discriminate].
  destruct (m_gotFirstFix (optimizer e)); cbn [negb].
  - destruct (usingGPS trig || usingOdom trig); [|discriminate].
    unfold steady.
    destruct (odomFactors _ _ _ _) as [[[odomFs pair] odomRest]|]; [|discriminate].
    destruct (m_lastIMU (optimizer e)) as [lastIMU0|].
    + destruct (integrateUpTo _ _ _ _ _ _) as [[[[lastIMU lastImuTgps] pim] imuRest]|];
        [|discriminate].
      destruct (if usingGPS trig then _ else _) as [gpsFs|].
      * destruct reply; [discriminate|]. intros [= _ <-].
        destruct (fix_ trig); now repeat split.
      * intros [= _ <-]. destruct (fix_ trig); now repeat split.
    + intros [= _ <-]. destruct (fix_ trig); now repeat split.
  - destruct (fix_ trig) as [f|].
    + unfold bootstrap.
      destruct (if negb (m_fixedOrigin c) then _ else _) as [enu ENU].
      destruct reply.
      * destruct (popBlocking _) as [[first q]|]; [|discriminate].
        destruct (readImuUpTo _ _ _ _) as [[[a b] r]|]; discriminate.
      * intros [= _ <-]. now repeat split.
    + intros [= _ <-]. now repeat split.
Qed.

Lemma step_counts (c : Config) (a : Action) (e : Estimator) (p : Process)
  (out : list Event) :
  step c a (Alive e) = (p, out) ->
  (List.length (filter isSleep out) + List.length (m_isam (optimizer e)))%nat
  = List.length (m_isam (optimizer (estimatorOf p)))
  /\ (Z.of_nat (List.length (filter isBiasAcc out)) + m_poseVelKey (optimizer e))%Z
     = m_poseVelKey (optimizer (estimatorOf p))
  /\ (Z.of_nat (List.length (filter isBiasGyro out)) + m_poseVelKey (optimizer e))%Z
     = m_poseVelKey (optimizer (estimatorOf p)).
Proof.
  intros Hstep.
  assert (Hcase : (forall reply, a <> HelperIteration reply)
                  \/ exists reply, a = HelperIteration reply).
  { destruct a; try (left; intros r; discriminate). right. now eexists. }
  destruct Hcase as [Hcb|[reply ->]].
  - destruct (callbacks_events c a e p out Hcb Hstep)
      as (e' & -> & Ho & _ & Hs & Ha & Hg).
    cbn [estimatorOf]. rewrite Ho, Hs, Ha, Hg. cbn. repeat split; lia.
  - cbn [step] in Hstep.
    destruct (GpsHelper_iteration c reply e) as [e' o| |e' o] eqn:Hit;
      injection Hstep as <- <-; cbn [estimatorOf].
    + exact (completed_events c reply e e' o Hit).
    + cbn. repeat split; lia.
    + destruct (faulted_events c reply e e' o Hit) as (Hs & Ha & Hg).
      apply iteration_faulted in Hit. destruct Hit as (_ & _ & Hisam & Hkey & _).
      rewrite Hs, Ha, Hg, Hisam, Hkey. cbn. repeat split; lia.
Qed.

Lemma run_counts (c : Config) (actions : list Action) :
  forall (e : Estimator) (p : Process) (out : list Event),
    run c actions (Alive e) = (p, out) ->
    (List.length (filter isSleep out) + List.length (m_isam (optimizer e)))%nat
    = List.length (m_isam (optimizer (estimatorOf p)))
    /\ (Z.of_nat (List.length (filter isBiasAcc out)) + m_poseVelKey (optimizer e))%Z
       = m_poseVelKey (optimizer (estimatorOf p))
    /\ (Z.of_nat (List.length (filter isBiasGyro out)) + m_poseVelKey (optimizer e))%Z
       = m_poseVelKey (optimizer (estimatorOf p)).
Proof.
  induction actions as [|a rest IH]; intros e p out Hrun.
  - injection Hrun as <- <-. cbn. repeat split; lia.
  - cbn [run] in Hrun.
    destruct (step c a (Alive e)) as [p1 out1] eqn:Hstep.
    destruct (run c rest p1) as [p2 out2] eqn:Hrest.
    injection Hrun as <- <-.
    destruct (step_counts c a e p1 out1 Hstep) as (Hs1 & Ha1 & Hg1).
    rewrite !filter_app, !length_app.
    destruct p1 as [e1|e1].
    + destruct (IH e1 p2 out2 Hrest) as (Hs2 & Ha2 & Hg2).
      cbn [estimatorOf] in *. repeat split; lia.
    + rewrite run_terminated in Hrest. injection Hrest as <- <-.
      cbn [estimatorOf filter List.length] in *. repeat split; lia.
Qed.


(** X6: every completed correction publishes the accelerometer and the
    gyroscope part of the bias it has just written to the optimized state,
    and nothing else publishes a bias: in every run the number of
    accelerometer-bias messages and the number of gyroscope-bias messages both
    equal the epoch counter. *)
Theorem bias_published_once_per_correction
  (rp : RosParams) (replies : list (option FilterOutput)) (c : Config)
  (e0 : Estimator) (out0 : list Event) (actions : list Action)
  (p : Process) (out : list Event) :
  StateEstimator_ctor rp replies = Constructed c e0 out0 ->
  run c actions (Alive e0) = (p, out) ->
  Z.of_nat (List.length (filter isBiasAcc out)) = m_poseVelKey (optimizer (estimatorOf p))
  /\ Z.of_nat (List.length (filter isBiasGyro out))
     = m_poseVelKey (optimizer (estimatorOf p))
  /\ forall e reply e' o,
       m_gotFirstFix (optimizer e) = true ->
       GpsHelper_iteration c reply e = Completed e' o ->
       m_isam (optimizer e') <> m_isam (optimizer e) ->
       filter (fun ev => isBiasAcc ev || isBiasGyro ev) o
       = [PublishBiasAcc (accelerometer (m_optimizedBias (optimized e')));
          PublishBiasGyro (gyroscope (m_optimizedBias (optimized e')))].
Proof.
  intros Hctor Hrun. apply ctor_constructed in Hctor. destruct Hctor as (-> & _).
  destruct (run_counts c actions _ p out Hrun) as (_ & Ha & Hg).
  cbn in Ha, Hg. split; [lia|]. split; [lia|].
  intros e reply e' o Hgot Hit Hne.
  destruct (correction_iteration c reply e e' o Hgot Hit Hne)
    as (trig & cur & qs & _ & _ & Hs).
  apply steady_completed in Hs.
  destruct Hs as (sol & odomFs & pair & odomRest & l0 & l1 & t1 & pim & imuRest
                  & gpsFs & _ & _ & _ & _ & _ & -> & ->).
  destruct (fix_ trig); reflexivity.
Qed.

(** ** Runs without wheel odometry *)

Lemma steady_needs_two_odometry_samples (c : Config) (reply : BackendReply)
  (e : Estimator) (trig : Trigger) (cur : double) (qs : Queues) :
  (List.length (items (m_odomOptQ qs)) < 2)%nat ->
  steady c reply e trig cur qs = Blocked.
Proof.
  intros Hlen. unfold steady.
  pose proof (tossOlder_length (prevTime (optimizer e)) (items (m_odomOptQ qs))) as Ht.
  unfold odomFactors.
  destruct (tossOlder _ _) as [|a [|b l]]; try reflexivity.
  cbn [List.length] in Ht. lia.
Qed.

Lemma step_without_odometry (c : Config) (a : Action) (e : Estimator) (p : Process)
  (out : list Event) :
  items (m_odomOptQ (queues e)) = [] ->
  isWheelOdomSample a = false ->
  step c a (Alive e) = (p, out) ->
  m_poseVelKey (optimizer (estimatorOf p)) = m_poseVelKey (optimizer e)
  /\ match p with
     | Alive e' => items (m_odomOptQ (queues e')) = []
     | Terminated _ => True
     end.
Proof.
  intros Hodom Ha. destruct a as [f|now imu|od|reply]; cbn [step].
  - unfold GpsCallback. destruct (pushNonBlocking _ _) as [pushed q].
    intros [= <- _]. now split.
  - unfold ImuCallback, ImuCallback_from.
    destruct (pushNonBlocking _ _) as [pushed q].
    destruct (deq _ _).
    + intros [= <- _]. now split.
    + destruct (discardOlder _ _ _ _) as [[kept t1] nm].
      destruct (if nm then _ else _) as [[pim t2] gyro].
      intros [= <- _]. now split.
  - discriminate.
  - destruct (GpsHelper_iteration c reply e) as [e' o| |e' o] eqn:Hit;
      intros [= <- _]; cbn [estimatorOf].
    + apply iteration_completed in Hit.
      destruct Hit as [(_ & f & cur & qs & trig & Hsel & Hb)
                      |[(_ & trig & cur & qs & Hsel & _ & Hs)|(_ & -> & _)]].
      * apply selectTrigger_queues in Hsel. destruct Hsel as (_ & Hqo & _).
        apply bootstrap_completed in Hb.
        destruct Hb as (? & ? & ? & ? & ? & _ & _ & _ & Ho' & _ & _ & _ & Hk & _).
        split; [exact Hk|]. now rewrite Ho', Hqo.
      * apply selectTrigger_queues in Hsel. destruct Hsel as (_ & Hqo & _).
        rewrite steady_needs_two_odometry_samples in Hs; [discriminate|].
        rewrite Hqo, Hodom. cbn. lia.
      * now split.
    + now split.
    + apply iteration_faulted in Hit. now destruct Hit as (_ & _ & _ & -> & _).
Qed.

Lemma run_without_odometry (c : Config) (actions : list Action) :
  forall (e : Estimator) (p : Process) (out : list Event),
    items (m_odomOptQ (queues e)) = [] ->
    forallb (fun a => negb (isWheelOdomSample a)) actions = true ->
    run c actions (Alive e) = (p, out) ->
    m_poseVelKey (optimizer (estimatorOf p)) = m_poseVelKey (optimizer e).
Proof.
  induction actions as [|a rest IH]; intros e p out Hodom Hno Hrun.
  - now injection Hrun as <- _.
  - cbn [forallb] in Hno. apply andb_prop in Hno. destruct Hno as [Ha Hno].
    apply negb_true_iff in Ha.
    cbn [run] in Hrun.
    destruct (step c a (Alive e)) as [p1 out1] eqn:Hstep.
    destruct (run c rest p1) as [p2 out2] eqn:Hrest.
    injection Hrun as <- _.
    destruct (step_without_odometry c a e p1 out1 Hodom Ha Hstep) as (Hk & Hq).
    destruct p1 as [e1|e1].
    + rewrite (IH e1 p2 out2 Hq Hno Hrest). exact Hk.
    + rewrite run_terminated in Hrest. now injection Hrest as <- _.
Qed.

(** X7: a correction pops two wheel-odometry samples whatever its trigger, so
    with fewer than two queued it blocks; in a run in which no wheel odometry
    is ever delivered no correction is made, however many fixes arrive: the
    epoch counter stays 0, the optimized state stays unset and neither a pose
    nor a bias is published. *)
Theorem no_correction_without_wheel_odometry
  (rp : RosParams) (replies : list (option FilterOutput)) (c : Config)
  (e0 : Estimator) (out0 : list Event) (actions : list Action)
  (p : Process) (out : list Event) :
  StateEstimator_ctor rp replies = Constructed c e0 out0 ->
  forallb (fun a => negb (isWheelOdomSample a)) actions = true ->
  run c actions (Alive e0) = (p, out) ->
  m_poseVelKey (optimizer (estimatorOf p)) = 0%Z
  /\ optimized (estimatorOf p) = unsetOptimized
  /\ filter isPublish out = []
  /\ forall e reply,
       m_gotFirstFix (optimizer e) = true ->
       (List.length (items (m_odomOptQ (queues e))) < 2)%nat ->
       (items (m_gpsOptQ (queues e)) <> [] \/ items (m_odomOptQ (queues e)) <> []) ->
       GpsHelper_iteration c reply e = Blocked.
Proof.
  intros Hctor Hno Hrun. apply ctor_constructed in Hctor. destruct Hctor as (-> & _).
  pose proof (run_without_odometry c actions (initialEstimator rp c) p out eq_refl
                Hno Hrun) as Hkey.
  cbn in Hkey.
  pose proof (run_facts c actions _ p out
                (initialEstimator_betweenIterations rp c) Hrun) as (Hp & _ & Hsil).
  destruct (run_counts c actions _ p out Hrun) as (_ & Ha & Hg).
  cbn in Ha, Hg.
  split; [exact Hkey|]. split; [|split].
  - destruct p as [e|e]; cbn [estimatorOf] in *; now apply Hp.
  - specialize (Hsil Hkey).
    assert (Hza : filter isBiasAcc out = [])
      by (destruct (filter isBiasAcc out); [reflexivity|cbn in Ha; lia]).
    assert (Hzg : filter isBiasGyro out = [])
      by (destruct (filter isBiasGyro out); [reflexivity|cbn in Hg; lia]).
    clear - Hsil Hza Hzg. induction out as [|ev out IH]; [reflexivity|].
    destruct ev; cbn in *; try discriminate; auto.
  - intros e reply Hgot Hlen Hsome. unfold GpsHelper_iteration.
    destruct (selectTrigger e) as [[[trig cur] qs]|] eqn:Hsel; [|reflexivity].
    rewrite Hgot. cbn [negb].
    pose proof (selectTrigger_queues e trig cur qs Hsel) as (_ & Hqo & _).
    assert (Hu : usingGPS trig || usingOdom trig = true).
    { unfold selectTrigger, size in Hsel. rewrite Hgot in Hsel. cbn [negb orb andb] in Hsel.
      destruct (items (m_gpsOptQ (queues e))) as [|f pending] eqn:Hgq.
      - destruct (items (m_odomOptQ (queues e))) as [|od rest] eqn:Hoq.
        + destruct Hsome as [Hc|Hc]; now contradiction Hc.
        + cbn [List.length Nat.ltb Nat.leb] in Hsel. unfold back in Hsel.
          rewrite Hoq in Hsel. now injection Hsel as <- _ _.
      - cbn [List.length Nat.ltb Nat.leb] in Hsel. unfold popBlocking in Hsel.
        rewrite Hgq in Hsel. destruct (drainToNewest _ _).
        now injection Hsel as <- _ _. }
    rewrite Hu. apply steady_needs_two_odometry_samples. now rewrite Hqo.
Qed.

(** ** What the predictor publishes and keeps *)

Lemma Subsequence_nil_l {A} (l : list A) : Subsequence [] l.
Proof. induction l; now constructor. Qed.

Lemma Subsequence_app {A} (a b c d : list A) :
  Subsequence a b -> Subsequence c d -> Subsequence (a ++ c) (b ++ d).
Proof.
  intros Hab Hcd. induction Hab; cbn; try now constructor. exact Hcd.
Qed.

(** The optimizer thread publishes no pose, reports no queue size and leaves
    the members of the predictor alone. *)
Lemma iteration_leaves_predictor (c : Config) (reply : BackendReply) (e : Estimator) :
  match GpsHelper_iteration c reply e with
  | Completed e' out | Faulted e' out =>
      predictor e' = predictor e
      /\ publishedPoses out = []
      /\ queueSizeWarnings out = []
  | Blocked => True
  end.
Proof.
  unfold GpsHelper_iteration.
  destruct (selectTrigger e) as [[[trig cur] qs]|]; [|exact I].
  destruct (m_gotFirstFix (optimizer e)); cbn [negb].
  - destruct (usingGPS trig || usingOdom trig); [|now repeat split].
    unfold steady.
    destruct (odomFactors _ _ _ _) as [[[odomFs pair] odomRest]|]; [|exact I].
    destruct (m_lastIMU (optimizer e)) as [lastIMU0|].
    + destruct (integrateUpTo _ _ _ _ _ _) as [[[[lastIMU lastImuTgps] pim] imuRest]|];
        [|exact I].
      destruct (if usingGPS trig then _ else _) as [gpsFs|].
      * destruct reply; destruct (fix_ trig); now repeat split.
      * destruct (fix_ trig); now repeat split.
    + destruct (fix_ trig); now repeat split.
  - destruct (fix_ trig) as [f|]; [|now repeat split].
    unfold bootstrap.
    destruct (if negb (m_fixedOrigin c) then _ else _) as [enu ENU].
    destruct reply; [|now repeat split].
    destruct (popBlocking _) as [[first q]|]; [|exact I].
    destruct (readImuUpTo _ _ _ _) as [[[a b] r]|]; [|exact I].
    now repeat split.
Qed.

(** One invocation publishes at most one pose; it carries the stamp of the
    sample and the frame names. *)
Lemma ImuCallback_pose (snapshot : Optimized) (c : Config) (now : double) (imu : Imu)
  (qs : Queues) (p : Predictor) :
  publishedPoses (snd (ImuCallback_from snapshot c now imu qs p)) = []
  \/ exists m,
       publishedPoses (snd (ImuCallback_from snapshot c now imu qs p)) = [m]
       /\ out_stamp m = imu_stamp imu
       /\ out_frame_id m = "odom"%string
       /\ out_child_frame_id m = "base_link"%string.
Proof.
  unfold ImuCallback_from.
  destruct (pushNonBlocking _ _) as [pushed q].
  destruct (deq _ _).
  - left. destruct ((m_maxQSize _ <? _)%Z && _); destruct pushed; reflexivity.
  - destruct (discardOlder _ _ _ _) as [[kept t1] nm].
    destruct (if nm then _ else _) as [[pim t2] gyro].
    right. eexists. split.
    + cbn [snd]. destruct ((m_maxQSize _ <? _)%Z && _); destruct pushed; reflexivity.
    + now repeat split.
Qed.

Lemma step_poses (c : Config) (a : Action) (e : Estimator) :
  Subsequence (map out_stamp (publishedPoses (snd (step c a (Alive e)))))
    (map imu_stamp (imuSamplesOf [a]))
  /\ Forall (fun m => out_frame_id m = "odom"%string
                      /\ out_child_frame_id m = "base_link"%string)
       (publishedPoses (snd (step c a (Alive e)))).
Proof.
  destruct a as [f|now imu|od|reply]; cbn [step imuSamplesOf flat_map app map].
  - unfold GpsCallback. destruct (pushNonBlocking _ _) as [[|] q]; cbn;
      split; constructor.
  - unfold ImuCallback.
    pose proof (ImuCallback_pose (optimized e) c now imu (queues e) (predictor e)) as Hp.
    destruct (ImuCallback_from _ _ _ _ _ _) as [[qs pr] o]. cbn [snd] in *.
    destruct Hp as [->|(m & -> & Hs & Hf & Hc)]; cbn [map].
    + split; [apply Subsequence_nil_l|constructor].
    + rewrite Hs. split; [apply subseq_take, subseq_nil|].
      constructor; [split; assumption|constructor].
  - unfold WheelOdomCallback. destruct (pushNonBlocking _ _) as [pushed q]. cbn.
    split; constructor.
  - pose proof (iteration_leaves_predictor c reply e) as Hi.
    destruct (GpsHelper_iteration c reply e) as [e' o| |e' o]; cbn [snd].
    + destruct Hi as (_ & -> & _). split; constructor.
    + cbn. split; constructor.
    + destruct Hi as (_ & -> & _). split; constructor.
Qed.

(** X8: the poses published in a run carry, in order, stamps of the inertial
    samples delivered in it, each sample giving at most one pose, and every
    pose names the frames "odom" and "base_link". *)
Theorem published_poses_carry_sample_stamps
  (c : Config) (actions : list Action) (p : Process) :
  Subsequence (map out_stamp (publishedPoses (snd (run c actions p))))
    (map imu_stamp (imuSamplesOf actions))
  /\ Forall (fun m => out_frame_id m = "odom"%string
                      /\ out_child_frame_id m = "base_link"%string)
       (publishedPoses (snd (run c actions p))).
Proof.
  revert p. induction actions as [|a rest IH]; intros p.
  - cbn. split; constructor.
  - cbn [run].
    destruct (step c a p) as [p1 out1] eqn:Hstep.
    specialize (IH p1). destruct (run c rest p1) as [p2 out2]. cbn [snd] in *.
    unfold publishedPoses in *. rewrite flat_map_app, map_app.
    replace (imuSamplesOf (a :: rest)) with (imuSamplesOf [a] ++ imuSamplesOf rest)
      by (unfold imuSamplesOf; cbn [flat_map]; now rewrite app_nil_r).
    rewrite map_app.
    assert (Hs : Subsequence
                   (map out_stamp
                      (flat_map (fun ev => match ev with PublishPose m => [m] | _ => [] end)
                         out1))
                   (map imu_stamp (imuSamplesOf [a]))
                 /\ Forall (fun m => out_frame_id m = "odom"%string
                                     /\ out_child_frame_id m = "base_link"%string)
                      (flat_map (fun ev => match ev with PublishPose m => [m] | _ => [] end)
                         out1)).
    { destruct p as [e|e].
      - pose proof (step_poses c a e) as Hp. rewrite Hstep in Hp. exact Hp.
      - cbn [step] in Hstep. injection Hstep as _ <-. cbn.
        split; [apply Subsequence_nil_l|constructor]. }
    destruct Hs as [Hs Hf]. destruct IH as [IHs IHf].
    split; [now apply Subsequence_app|]. apply Forall_app. now split.
Qed.

(** X9: what an invocation of [ImuCallback] buffers, integrates and publishes
    does not depend on the queue to the optimizer thread, in particular not on
    whether the push into it succeeds; the invocation leaves the GPS queue and
    the wheel-odometry queue as they are. *)
Theorem prediction_ignores_optimizer_queue
  (snapshot : Optimized) (c : Config) (now : double) (imu : Imu)
  (qs1 qs2 : Queues) (p : Predictor) :
  let r1 := ImuCallback_from snapshot c now imu qs1 p in
  let r2 := ImuCallback_from snapshot c now imu qs2 p in
  m_imuMeasurements (snd (fst r1)) = m_imuMeasurements (snd (fst r2))
  /\ m_imuPredictor (snd (fst r1)) = m_imuPredictor (snd (fst r2))
  /\ m_lastImuT (snd (fst r1)) = m_lastImuT (snd (fst r2))
  /\ m_imuQPrevTime (snd (fst r1)) = m_imuQPrevTime (snd (fst r2))
  /\ filter isPredictorOutput (snd r1) = filter isPredictorOutput (snd r2)
  /\ m_gpsOptQ (fst (fst r1)) = m_gpsOptQ qs1
  /\ m_odomOptQ (fst (fst r1)) = m_odomOptQ qs1.
Proof.
  cbv zeta. unfold ImuCallback_from.
  destruct (pushNonBlocking (m_ImuOptQ qs1) imu) as [pushed1 q1].
  destruct (pushNonBlocking (m_ImuOptQ qs2) imu) as [pushed2 q2].
  destruct (deq _ _).
  - cbn [fst snd m_imuMeasurements m_imuPredictor m_lastImuT m_imuQPrevTime].
    repeat split.
    destruct ((m_maxQSize p <? Z.of_nat (size (m_ImuOptQ qs1)))%Z && _);
      destruct ((m_maxQSize p <? Z.of_nat (size (m_ImuOptQ qs2)))%Z && _);
      destruct pushed1; destruct pushed2; reflexivity.
  - destruct (discardOlder _ _ _ _) as [[kept t1] nm].
    destruct (if nm then _ else _) as [[pim t2] gyro].
    cbn [fst snd m_imuMeasurements m_imuPredictor m_lastImuT m_imuQPrevTime].
    repeat split.
    destruct ((m_maxQSize p <? Z.of_nat (size (m_ImuOptQ qs1)))%Z && _);
      destruct ((m_maxQSize p <? Z.of_nat (size (m_ImuOptQ qs2)))%Z && _);
      destruct pushed1; destruct pushed2; reflexivity.
Qed.

(** ** The queue-size warning *)

Lemma risingAbove_weaken (l : list Z) (m m' : Z) :
  (m <= m')%Z -> risingAbove m' l -> risingAbove m l.
Proof.
  destruct l as [|x rest]; [easy|]. cbn. intros Hm [Hx Hr]. split; [lia|exact Hr].
Qed.

(** [m_maxQSize] never goes down; a warning is given exactly when it goes up
    to a value above 20, and reports the new value. *)
Lemma ImuCallback_warning (snapshot : Optimized) (c : Config) (now : double) (imu : Imu)
  (qs : Queues) (p : Predictor) :
  let r := ImuCallback_from snapshot c now imu qs p in
  (queueSizeWarnings (snd r) = []
   /\ (m_maxQSize p <= m_maxQSize (snd (fst r)))%Z)
  \/ (queueSizeWarnings (snd r) = [m_maxQSize (snd (fst r))]
      /\ (Z.max 20 (m_maxQSize p) < m_maxQSize (snd (fst r)))%Z).
Proof.
  cbv zeta. unfold ImuCallback_from.
  destruct (pushNonBlocking _ _) as [pushed q].
  destruct (deq _ _).
  - cbn [fst snd m_maxQSize].
    destruct (m_maxQSize p <? Z.of_nat (size (m_ImuOptQ qs)))%Z eqn:Hg; cbn [andb].
    + apply Z.ltb_lt in Hg.
      destruct (20 <? Z.of_nat (size (m_ImuOptQ qs)))%Z eqn:H20.
      * apply Z.ltb_lt in H20. right. split; [destruct pushed; reflexivity|lia].
      * left. split; [destruct pushed; reflexivity|lia].
    + left. split; [destruct pushed; reflexivity|lia].
  - destruct (discardOlder _ _ _ _) as [[kept t1] nm].
    destruct (if nm then _ else _) as [[pim t2] gyro].
    cbn [fst snd m_maxQSize].
    destruct (m_maxQSize p <? Z.of_nat (size (m_ImuOptQ qs)))%Z eqn:Hg; cbn [andb].
    + apply Z.ltb_lt in Hg.
      destruct (20 <? Z.of_nat (size (m_ImuOptQ qs)))%Z eqn:H20.
      * apply Z.ltb_lt in H20. right. split; [destruct pushed; reflexivity|lia].
      * left. split; [destruct pushed; reflexivity|lia].
    + left. split; [destruct pushed; reflexivity|lia].
Qed.

Lemma step_warnings (c : Config) (a : Action) (p : Process) :
  let r := step c a p in
  (queueSizeWarnings (snd r) = []
   /\ (m_maxQSize (predictor (estimatorOf p))
       <= m_maxQSize (predictor (estimatorOf (fst r))))%Z)
  \/ (queueSizeWarnings (snd r) = [m_maxQSize (predictor (estimatorOf (fst r)))]
      /\ (Z.max 20 (m_maxQSize (predictor (estimatorOf p)))
          < m_maxQSize (predictor (estimatorOf (fst r))))%Z).
Proof.
  cbv zeta. destruct p as [e|e]; [|left; cbn; split; [reflexivity|lia]].
  destruct a as [f|now imu|od|reply]; cbn [step].
  - left. unfold GpsCallback. destruct (pushNonBlocking _ _) as [[|] q]; cbn;
      split; try reflexivity; lia.
  - unfold ImuCallback.
    pose proof (ImuCallback_warning (optimized e) c now imu (queues e) (predictor e)) as Hw.
    cbv zeta in Hw.
    destruct (ImuCallback_from _ _ _ _ _ _) as [[qs pr] o].
    cbn [fst snd estimatorOf predictor] in *. exact Hw.
  - left. unfold WheelOdomCallback. destruct (pushNonBlocking _ _) as [pushed q]. cbn.
    split; [reflexivity|lia].
  - left. pose proof (iteration_leaves_predictor c reply e) as Hi.
    destruct (GpsHelper_iteration c reply e) as [e' o| |e' o]; cbn [fst snd estimatorOf].
    + destruct Hi as (-> & _ & ->). split; [reflexivity|lia].
    + split; [reflexivity|lia].
    + destruct Hi as (-> & _ & ->). split; [reflexivity|lia].
Qed.

(** X10: the sizes that the "Queue size" warnings of a run report are strictly
    increasing, all above 20 and above the largest size seen before the run,
    and none exceeds the largest size seen by its end: the warning is given
    only when the queue to the optimizer thread is longer than it has ever
    been. *)
Theorem queue_size_warnings_strictly_increase
  (c : Config) (actions : list Action) (p : Process) :
  risingAbove (Z.max 20 (m_maxQSize (predictor (estimatorOf p))))
    (queueSizeWarnings (snd (run c actions p)))
  /\ Forall (fun n => (n <= m_maxQSize (predictor (estimatorOf (fst (run c actions p)))))%Z)
       (queueSizeWarnings (snd (run c actions p)))
  /\ (m_maxQSize (predictor (estimatorOf p))
      <= m_maxQSize (predictor (estimatorOf (fst (run c actions p)))))%Z.
Proof.
  revert p. induction actions as [|a rest IH]; intros p.
  - cbn. split; [exact I|]. split; [constructor|lia].
  - cbn [run]. pose proof (step_warnings c a p) as Hs. cbv zeta in Hs.
    destruct (step c a p) as [p1 out1]. cbn [fst snd] in Hs.
    specialize (IH p1). destruct (run c rest p1) as [p2 out2]. cbn [fst snd] in *.
    destruct IH as (IHr & IHf & IHm).
    unfold queueSizeWarnings in *. rewrite flat_map_app.
    destruct Hs as [[-> Hm]|[-> Hm]]; cbn [app].
    + split; [|split; [exact IHf|lia]].
      eapply risingAbove_weaken; [|exact IHr]. lia.
    + split; [|split; [|lia]].
      * cbn [risingAbove]. split; [exact Hm|].
        eapply risingAbove_weaken; [|exact IHr]. lia.
      * constructor; [exact IHm|exact IHf].
Qed.

(** ** The buffer of the predictor *)

Lemma step_buffers (c : Config) (a : Action) (e e' : Estimator) (out : list Event) :
  optimized e = unsetOptimized ->
  step c a (Alive e) = (Alive e', out) ->
  m_imuMeasurements (predictor e') = m_imuMeasurements (predictor e) ++ imuSamplesOf [a]
  /\ m_imuPredictor (predictor e') = m_imuPredictor (predictor e).
Proof.
  intros Hunset. destruct a as [f|now imu|od|reply]; cbn [step imuSamplesOf flat_map app].
  - pose proof (GpsCallback_frame f e) as (_ & _ & Hp & _).
    destruct (GpsCallback f e) as [e1 o]. intros [= <- _]. cbn [fst] in Hp.
    rewrite Hp, app_nil_r. now split.
  - unfold ImuCallback.
    assert (Hz : deq (m_optimizedTime (optimized e)) 0 = true) by now rewrite Hunset.
    pose proof (ImuCallback_from_unset (optimized e) c now imu (queues e) (predictor e) Hz)
      as (_ & Hpim & Hbuf & _).
    destruct (ImuCallback_from _ _ _ _ _ _) as [[qs pr] o]. cbn [fst snd] in Hpim, Hbuf.
    intros [= <- _]. cbn [predictor]. now split.
  - pose proof (WheelOdomCallback_frame od e) as (_ & _ & Hp & _).
    destruct (WheelOdomCallback od e) as [e1 o]. intros [= <- _]. cbn [fst] in Hp.
    rewrite Hp, app_nil_r. now split.
  - pose proof (iteration_leaves_predictor c reply e) as Hi.
    destruct (GpsHelper_iteration c reply e) as [e1 o| |e1 o]; intros [= <- _].
    + destruct Hi as (-> & _). rewrite app_nil_r. now split.
    + rewrite app_nil_r. now split.
Qed.

Lemma run_buffers (c : Config) (actions : list Action) :
  forall (e e' : Estimator) (out : list Event),
    betweenIterations e ->
    run c actions (Alive e) = (Alive e', out) ->
    m_poseVelKey (optimizer e') = 0%Z ->
    m_imuMeasurements (predictor e') = m_imuMeasurements (predictor e) ++ imuSamplesOf actions
    /\ m_imuPredictor (predictor e') = m_imuPredictor (predictor e).
Proof.
  induction actions as [|a rest IH]; intros e e' out Hinv Hrun Hkey.
  - injection Hrun as <- _. cbn. now rewrite app_nil_r.
  - cbn [run] in Hrun.
    destruct (step c a (Alive e)) as [p1 out1] eqn:Hstep.
    destruct (run c rest p1) as [p2 out2] eqn:Hrest.
    injection Hrun as -> _.
    destruct p1 as [e1|e1]; [|rewrite run_terminated in Hrest; discriminate].
    destruct (step_facts c a e _ _ Hinv Hstep) as (Hinv1 & Hk1 & _).
    cbn [estimatorOf] in Hk1.
    destruct (run_facts c rest e1 _ _ Hinv1 Hrest) as (_ & Hk2 & _).
    cbn [estimatorOf] in Hk2.
    assert (Hk0 : m_poseVelKey (optimizer e) = 0%Z).
    { destruct Hinv as (_ & H0 & _). lia. }
    assert (Hunset : optimized e = unsetOptimized).
    { destruct Hinv as (_ & _ & _ & _ & Hcell). now apply Hcell. }
    destruct (step_buffers c a e e1 out1 Hunset Hstep) as (Hb1 & Hp1).
    destruct (IH e1 e' out2 Hinv1 Hrest Hkey) as (Hb2 & Hp2).
    rewrite Hb2, Hp2, Hb1, Hp1, <- app_assoc. split; [|reflexivity].
    f_equal. unfold imuSamplesOf. cbn [flat_map]. now rewrite app_nil_r.
Qed.

(** X11: as long as no correction has completed, the predictor drops nothing:
    in a run of the node that is still at epoch 0, [m_imuMeasurements] holds
    every inertial sample delivered so far, in order, and the preintegration
    of the predictor is still the empty one of the constructor. *)
Theorem predictor_buffers_every_sample_before_first_correction
  (rp : RosParams) (replies : list (option FilterOutput)) (c : Config)
  (e0 e : Estimator) (out0 out : list Event) (actions : list Action) :
  StateEstimator_ctor rp replies = Constructed c e0 out0 ->
  run c actions (Alive e0) = (Alive e, out) ->
  m_poseVelKey (optimizer e) = 0%Z ->
  m_imuMeasurements (predictor e) = imuSamplesOf actions
  /\ integrated (m_imuPredictor (predictor e)) = []
  /\ List.length (m_imuMeasurements (predictor e))
     = List.length (filter (fun a => match a with ImuSample _ _ => true | _ => false end)
                      actions).
Proof.
  intros Hctor Hrun Hkey. apply ctor_constructed in Hctor. destruct Hctor as (-> & _).
  destruct (run_buffers c actions _ e out (initialEstimator_betweenIterations rp c)
              Hrun Hkey) as (Hb & Hp).
  cbn in Hb. rewrite Hb, Hp. split; [reflexivity|]. split; [reflexivity|].
  clear. induction actions as [|a rest IH]; [reflexivity|].
  unfold imuSamplesOf in *. cbn [flat_map filter].
  destruct a; cbn [app List.length]; now rewrite ?IH.
Qed.

(** ** The preintegration of the predictor and its buffer *)

Lemma discardOlder_popped (t : double) (buffered : list Imu) :
  forall t0, snd (discardOlder t buffered t0 true) = true.
Proof.
  induction buffered as [|m rest IH]; intros t0; cbn [discardOlder]; [reflexivity|].
  destruct (dlt (imu_stamp m) t); [apply IH|reflexivity].
Qed.

(** What is left starts with a sample that is not older. *)
Lemma discardOlder_front (t : double) (buffered : list Imu) :
  forall t0 b,
    match fst (fst (discardOlder t buffered t0 b)) with
    | [] => True
    | m :: _ => older t m = false
    end.
Proof.
  induction buffered as [|m rest IH]; intros t0 b; cbn [discardOlder]; [exact I|].
  destruct (dlt (imu_stamp m) t) eqn:Hm; [apply IH|exact Hm].
Qed.

(** [newMeasurements] is set exactly when the front of the buffer is older. *)
Lemma discardOlder_flag (t : double) (buffered : list Imu) (t0 : double) :
  match buffered with
  | [] => discardOlder t buffered t0 false = ([], t0, false)
  | m :: _ =>
      if older t m
      then snd (discardOlder t buffered t0 false) = true
      else discardOlder t buffered t0 false = (buffered, t0, false)
  end.
Proof.
  destruct buffered as [|m rest]; [reflexivity|].
  unfold older. cbn [discardOlder].
  destruct (dlt (imu_stamp m) t); [apply discardOlder_popped|reflexivity].
Qed.

(** X12: once the optimized time is set, an invocation of [ImuCallback] leaves
    the preintegration of the predictor holding exactly the samples of the
    buffer, in order, provided it held them before or the front of
    the buffer is older than the optimized time; the buffer then starts with a
    sample that is not older.  In the remaining case (the preintegration and
    the buffer differ and nothing is popped) the newest sample is added to
    both and they still differ. *)
Theorem predictor_integrates_exactly_its_buffer
  (snapshot : Optimized) (c : Config) (now : double) (imu : Imu)
  (qs : Queues) (p : Predictor) :
  deq (m_optimizedTime snapshot) 0 = false ->
  let p' := snd (fst (ImuCallback_from snapshot c now imu qs p)) in
  (synced c p
   \/ older (m_optimizedTime snapshot) (hd imu (m_imuMeasurements p)) = true ->
   synced c p')
  /\ (older (m_optimizedTime snapshot) (hd imu (m_imuMeasurements p)) = false ->
      (synced c p' <-> synced c p)
      /\ m_imuMeasurements p' = m_imuMeasurements p ++ [imu])
  /\ match m_imuMeasurements p' with
     | [] => True
     | m :: _ => older (m_optimizedTime snapshot) m = false
     end.
Proof.
  intros Hset. cbv zeta. unfold ImuCallback_from.
  destruct (pushNonBlocking _ _) as [pushed q]. rewrite Hset.
  pose proof (discardOlder_flag (m_optimizedTime snapshot) (m_imuMeasurements p ++ [imu])
                (m_imuQPrevTime p)) as Hflag.
  pose proof (discardOlder_front (m_optimizedTime snapshot) (m_imuMeasurements p ++ [imu])
                (m_imuQPrevTime p) false) as Hfront.
  assert (Hhd : exists rest,
             m_imuMeasurements p ++ [imu] = hd imu (m_imuMeasurements p) :: rest).
  { destruct (m_imuMeasurements p) as [|m l]; cbn; eauto. }
  destruct Hhd as [rest Hhd]. rewrite Hhd in Hflag. rewrite <- Hhd in Hflag.
  destruct (discardOlder _ _ _ _) as [[kept t1] nm] eqn:Hd. cbn [fst snd] in Hflag, Hfront.
  destruct (older (m_optimizedTime snapshot) (hd imu (m_imuMeasurements p))) eqn:Hold.
  - subst nm.
    pose proof (reintegrate_samples c kept t1 (resetIntegration (m_imuPredictor p)) None)
      as (Hs & _).
    destruct (reintegrate _ _ _ _ _) as [[pim t2] gyro]. cbn [fst snd] in Hs.
    cbn [fst snd m_imuMeasurements]. split; [|split; [discriminate|exact Hfront]].
    intros _. unfold synced. cbn [m_imuPredictor m_imuMeasurements]. exact Hs.
  - injection Hflag as -> -> ->.
    destruct (GetAccGyro c imu) as [acc g] eqn:Hag.
    cbn [fst snd m_imuMeasurements]. unfold synced.
    cbn [m_imuPredictor m_imuMeasurements].
    unfold samplesOf, integrateMeasurement. cbn [integrated].
    rewrite !map_app. cbn [map fst]. rewrite Hag.
    split; [|split; [|exact Hfront]].
    + intros [Hs|Hc]; [|discriminate]. unfold synced, samplesOf in Hs. now rewrite Hs.
    + intros _. split; [|reflexivity]. unfold samplesOf. split.
      * intros Heq. now apply app_inv_tail in Heq.
      * intros ->. reflexivity.
Qed.

(** ** The keys of the batches *)

Lemma wellKeyed_snoc (batches : list Batch) :
  forall (i j : Z) (b : Batch),
    j = (i + Z.of_nat (List.length batches))%Z ->
    wellKeyed i batches ->
    batchOfEpoch j b ->
    wellKeyed i (batches ++ [b]).
Proof.
  induction batches as [|b0 rest IH]; intros i j b Hj Hw Hb.
  - cbn in Hj. rewrite Z.add_0_r in Hj. subst j. cbn [app wellKeyed]. now split.
  - destruct Hw as (Hb0 & Hw). cbn [app wellKeyed].
    split; [exact Hb0|].
    apply (IH (i + 1)%Z j b); try assumption.
    cbn [List.length] in Hj. lia.
Qed.

Ltac in_epoch :=
  solve [ cbn [In epochKeys stateKeys]; repeat (first [left; reflexivity | right]) ].

Ltac keys_of_epochs :=
  repeat (apply Forall_cons; [first [left; in_epoch | right; split; [lia|in_epoch]]|]);
  apply Forall_nil.

Ltac no_antenna_key :=
  cbn [In]; intros Hin;
  repeat match type of Hin with
         | _ \/ _ => destruct Hin as [Hin|Hin]
         end;
  solve [discriminate Hin | contradiction Hin].

(** The batch of a completed iteration: the first fix gives the batch of epoch
    0, a correction at epoch counter [k] the batch of epoch [k + 1]. *)
Lemma iteration_batch (c : Config) (reply : BackendReply) (e : Estimator) :
  m_biasKey (optimizer e) = m_poseVelKey (optimizer e) ->
  (0 <= m_poseVelKey (optimizer e))%Z ->
  match GpsHelper_iteration c reply e with
  | Completed e' _ =>
      m_isam (optimizer e') = m_isam (optimizer e)
      \/ exists b,
           m_isam (optimizer e') = m_isam (optimizer e) ++ [b]
           /\ batchOfEpoch
                (if m_gotFirstFix (optimizer e)
                 then m_poseVelKey (optimizer e) + 1 else 0)%Z b
  | Faulted e' _ => m_isam (optimizer e') = m_isam (optimizer e)
  | Blocked => True
  end.
Proof.
  intros Hbk Hk0. unfold GpsHelper_iteration.
  destruct (selectTrigger e) as [[[trig cur] qs]|]; [|exact I].
  destruct (m_gotFirstFix (optimizer e)); cbn [negb].
  - destruct (usingGPS trig || usingOdom trig); [|now left].
    unfold steady.
    destruct (odomFactors _ _ _ _) as [[[odomFs [firstOdom lastOdom]] odomRest]|] eqn:Hodom;
      [|exact I].
    apply odomFactors_content in Hodom.
    destruct (m_lastIMU (optimizer e)) as [lastIMU0|]; [|reflexivity].
    destruct (integrateUpTo _ _ _ _ _ _) as [[[[lastIMU lastImuTgps] pim] imuRest]|];
      [|exact I].
    rewrite Hbk.
    set (k := m_poseVelKey (optimizer e)) in *.
    assert (Hprev : (k + 1 - 1)%Z = k) by lia.
    destruct (usingGPS trig).
    + destruct (fix_ trig) as [f|]; cbn [option_map]; [|reflexivity].
      destruct reply as [sol|]; [|reflexivity].
      right. eexists. split; [reflexivity|]. unfold batchOfEpoch. rewrite Hprev.
      split; [reflexivity|].
      destruct Hodom as [->| ->];
        cbn [newFactors app flat_map factorKeys gpsFactors filter isGPSFactor];
        (split; [keys_of_epochs|intros _ Hnone; discriminate Hnone]).
    + destruct reply as [sol|]; [|reflexivity].
      right. eexists. split; [reflexivity|]. unfold batchOfEpoch. rewrite Hprev.
      split; [reflexivity|].
      destruct Hodom as [->| ->]; cbn [newFactors app flat_map factorKeys];
        (split; [keys_of_epochs|intros _ _; no_antenna_key]).
  - destruct (fix_ trig) as [f|]; [|reflexivity].
    unfold bootstrap.
    destruct (if negb (m_fixedOrigin c) then _ else _) as [enu ENU].
    destruct reply; [|reflexivity].
    destruct (popBlocking _) as [[first q]|]; [|exact I].
    destruct (readImuUpTo _ _ _ _) as [[[a b] r]|]; [|exact I].
    right. eexists. split; [reflexivity|]. unfold batchOfEpoch.
    split; [reflexivity|].
    cbn [newFactors app flat_map factorKeys].
    split; [keys_of_epochs|intros Hpos; lia].
Qed.

Lemma step_wellKeyed (c : Config) (a : Action) (e : Estimator) (p : Process)
  (out : list Event) :
  betweenIterations e ->
  wellKeyed 0 (m_isam (optimizer e)) ->
  step c a (Alive e) = (p, out) ->
  wellKeyed 0 (m_isam (optimizer (estimatorOf p))).
Proof.
  intros Hinv Hw. destruct a as [f|now imu|od|reply]; cbn [step].
  - pose proof (GpsCallback_frame f e) as (Ho & _).
    destruct (GpsCallback f e) as [e1 o]. intros [= <- _]. cbn [fst] in Ho.
    cbn [estimatorOf]. now rewrite Ho.
  - pose proof (ImuCallback_frame c now imu e) as (Ho & _).
    destruct (ImuCallback c now imu e) as [e1 o]. intros [= <- _]. cbn [fst] in Ho.
    cbn [estimatorOf]. now rewrite Ho.
  - pose proof (WheelOdomCallback_frame od e) as (Ho & _).
    destruct (WheelOdomCallback od e) as [e1 o]. intros [= <- _]. cbn [fst] in Ho.
    cbn [estimatorOf]. now rewrite Ho.
  - destruct Hinv as (Hbk & Hk0 & _ & Hlen & _).
    pose proof (iteration_batch c reply e Hbk Hk0) as Hb.
    destruct (GpsHelper_iteration c reply e) as [e1 o| |e1 o]; intros [= <- _];
      cbn [estimatorOf].
    + destruct Hb as [->|(b & -> & Hb)]; [exact Hw|].
      apply (wellKeyed_snoc _ 0%Z _ b) with (3 := Hb); [|exact Hw].
      destruct (m_gotFirstFix (optimizer e)).
      * lia.
      * destruct Hlen as [-> _]. reflexivity.
    + exact Hw.
    + now rewrite Hb.
Qed.

Lemma run_wellKeyed (c : Config) (actions : list Action) :
  forall (e : Estimator) (p : Process) (out : list Event),
    betweenIterations e ->
    wellKeyed 0 (m_isam (optimizer e)) ->
    run c actions (Alive e) = (p, out) ->
    wellKeyed 0 (m_isam (optimizer (estimatorOf p))).
Proof.
  induction actions as [|a rest IH]; intros e p out Hinv Hw Hrun.
  - injection Hrun as <- _. exact Hw.
  - cbn [run] in Hrun.
    destruct (step c a (Alive e)) as [p1 out1] eqn:Hstep.
    destruct (run c rest p1) as [p2 out2] eqn:Hrest.
    injection Hrun as <- _.
    pose proof (step_wellKeyed c a e p1 out1 Hinv Hw Hstep) as Hw1.
    destruct (step_facts c a e _ _ Hinv Hstep) as (Hinv1 & _).
    destruct p1 as [e1|e1].
    + exact (IH e1 p2 out2 Hinv1 Hw1 Hrest).
    + rewrite run_terminated in Hrest. injection Hrest as <- _. exact Hw1.
Qed.

(** X13: the batches the solver has accepted in a run are, in order, those of
    the epochs 0, 1, 2, ...: the batch of epoch [i] inserts exactly the pose,
    velocity, bias and antenna-pose variables of epoch [i], and each of its
    factors constrains only variables of epoch [i] or, after the first batch,
    the pose, velocity and bias of epoch [i - 1]; so no factor ever names a
    variable that has not been inserted by its own batch or the one before. *)
Theorem batches_constrain_own_and_previous_epoch
  (rp : RosParams) (replies : list (option FilterOutput)) (c : Config)
  (e0 : Estimator) (out0 : list Event) (actions : list Action)
  (p : Process) (out : list Event) :
  StateEstimator_ctor rp replies = Constructed c e0 out0 ->
  run c actions (Alive e0) = (p, out) ->
  wellKeyed 0 (m_isam (optimizer (estimatorOf p))).
Proof.
  intros Hctor Hrun. apply ctor_constructed in Hctor. destruct Hctor as (-> & _).
  apply (run_wellKeyed c actions (initialEstimator rp c) p out); try assumption.
  - apply initialEstimator_betweenIterations.
  - exact I.
Qed.

Lemma wellKeyed_later (batches : list Batch) :
  forall (i j : Z),
    (i < j)%Z ->
    wellKeyed j batches ->
    Forall (fun b => ~ In (G i) (flat_map factorKeys (newFactors b))) batches.
Proof.
  induction batches as [|b0 rest IH]; intros i j Hij Hw; [constructor|].
  destruct Hw as ((_ & Hkeys & _) & Hw). constructor.
  - intros Hin. rewrite Forall_forall in Hkeys.
    destruct (Hkeys _ Hin) as [Hown|[_ Hprev]].
    + cbn [In epochKeys] in Hown.
      destruct Hown as [Hx|[Hx|[Hx|[Hx|[]]]]]; try discriminate Hx.
      injection Hx as Hx. lia.
    + cbn [In stateKeys] in Hprev.
      destruct Hprev as [Hx|[Hx|[Hx|[]]]]; discriminate Hx.
  - apply (IH i (j + 1)%Z); [lia|exact Hw].
Qed.

Lemma wellKeyed_antenna (batches : list Batch) :
  forall (i j : Z) (b : Batch),
    (j <= i)%Z ->
    (0 < i)%Z ->
    wellKeyed j batches ->
    nth_error batches (Z.to_nat (i - j)) = Some b ->
    filter isGPSFactor (newFactors b) = [] ->
    Forall (fun b' => ~ In (G i) (flat_map factorKeys (newFactors b'))) batches.
Proof.
  induction batches as [|b0 rest IH]; intros i j b Hji Hpos Hw Hnth Hnone; [constructor|].
  destruct Hw as ((Hins & Hkeys & Hgps) & Hw).
  destruct (Z.eq_dec i j) as [->|Hne].
  - rewrite Z.sub_diag in Hnth. cbn in Hnth. injection Hnth as ->.
    constructor; [now apply Hgps|].
    apply (wellKeyed_later rest j (j + 1)%Z); [lia|exact Hw].
  - constructor.
    + intros Hin. rewrite Forall_forall in Hkeys.
      destruct (Hkeys _ Hin) as [Hown|[_ Hprev]].
      * cbn [In epochKeys] in Hown.
        destruct Hown as [Hx|[Hx|[Hx|[Hx|[]]]]]; try discriminate Hx.
        injection Hx as Hx. lia.
      * cbn [In stateKeys] in Hprev.
        destruct Hprev as [Hx|[Hx|[Hx|[]]]]; discriminate Hx.
    + apply (IH i (j + 1)%Z b); try assumption; try lia.
      replace (Z.to_nat (i - j)) with (S (Z.to_nat (i - (j + 1)))) in Hnth by lia.
      exact Hnth.
Qed.

(** X14: the antenna pose of an epoch that was corrected without a fix is
    never constrained: if the batch of an epoch after the first holds no GPS
    factor (a correction triggered by wheel odometry), it still inserts the
    antenna-pose variable of the epoch, and no factor of any batch of the run
    names that variable. *)
Theorem antenna_pose_unconstrained_without_fix
  (rp : RosParams) (replies : list (option FilterOutput)) (c : Config)
  (e0 : Estimator) (out0 : list Event) (actions : list Action)
  (p : Process) (out : list Event) (i : nat) (b : Batch) :
  StateEstimator_ctor rp replies = Constructed c e0 out0 ->
  run c actions (Alive e0) = (p, out) ->
  nth_error (m_isam (optimizer (estimatorOf p))) (S i) = Some b ->
  filter isGPSFactor (newFactors b) = [] ->
  In (G (Z.of_nat (S i))) (insertedKeys b)
  /\ Forall (fun b' => ~ In (G (Z.of_nat (S i))) (flat_map factorKeys (newFactors b')))
       (m_isam (optimizer (estimatorOf p))).
Proof.
  intros Hctor Hrun Hnth Hnone. apply ctor_constructed in Hctor. destruct Hctor as (-> & _).
  assert (Hw : wellKeyed 0 (m_isam (optimizer (estimatorOf p)))).
  { apply (run_wellKeyed c actions (initialEstimator rp c) p out); try assumption.
    - apply initialEstimator_betweenIterations.
    - exact I. }
  split.
  - assert (Hall : forall batches j n,
               wellKeyed j batches -> nth_error batches n = Some b ->
               insertedKeys b = epochKeys (j + Z.of_nat n)).
    { induction batches as [|b0 rest IH]; intros j n Hwj Hn; [now destruct n|].
      destruct Hwj as ((Hins & _) & Hwj). destruct n as [|n].
      - cbn in Hn. injection Hn as <-. now rewrite Z.add_0_r.
      - cbn [nth_error] in Hn. rewrite (IH (j + 1)%Z n Hwj Hn). f_equal. lia. }
    rewrite (Hall _ 0%Z (S i) Hw Hnth). rewrite Z.add_0_l.
    cbn [In epochKeys]. now right; right; right; left.
  - apply (wellKeyed_antenna _ (Z.of_nat (S i)) 0%Z b); try assumption; try lia.
    rewrite Z.sub_0_r, Nat2Z.id. exact Hnth.
Qed.

(** ** Parameters that are read and not used *)

Ltac rewrite_members c1 c2 :=
  repeat match goal with
         | Heq : ?f c1 = ?f c2 |- _ => rewrite ?Heq; clear Heq
         end.

Lemma GetAccGyro_used (c1 c2 : Config) (imu : Imu) :
  usedMembers c1 = usedMembers c2 -> GetAccGyro c1 imu = GetAccGyro c2 imu.
Proof.
  unfold usedMembers. intros Hu. injection Hu; intros.
  unfold GetAccGyro. rewrite_members c1 c2. reflexivity.
Qed.

Lemma reintegrate_used (c1 c2 : Config) (buffered : list Imu) :
  usedMembers c1 = usedMembers c2 ->
  forall t0 pim g,
    reintegrate c1 buffered t0 pim g = reintegrate c2 buffered t0 pim g.
Proof.
  intros Hu. induction buffered as [|m rest IH]; intros t0 pim g; [reflexivity|].
  cbn [reintegrate]. rewrite (GetAccGyro_used c1 c2 m Hu).
  destruct (GetAccGyro c2 m). apply IH.
Qed.

Lemma integrateUpTo_used (c1 c2 : Config) (t : double) (pending : list Imu) :
  usedMembers c1 = usedMembers c2 ->
  forall lastIMU t0 pim,
    integrateUpTo c1 t lastIMU t0 pim pending = integrateUpTo c2 t lastIMU t0 pim pending.
Proof.
  intros Hu. induction pending as [|m rest IH]; intros lastIMU t0 pim;
    cbn [integrateUpTo]; rewrite (GetAccGyro_used c1 c2 lastIMU Hu);
    destruct (dlt _ _); try reflexivity.
  destruct (GetAccGyro c2 lastIMU). apply IH.
Qed.

Lemma ImuCallback_used (c1 c2 : Config) (now : double) (imu : Imu) (e : Estimator) :
  usedMembers c1 = usedMembers c2 ->
  ImuCallback c1 now imu e = ImuCallback c2 now imu e.
Proof.
  intros Hu. unfold ImuCallback, ImuCallback_from.
  destruct (pushNonBlocking _ _) as [pushed q].
  destruct (deq _ _); [reflexivity|].
  destruct (discardOlder _ _ _ _) as [[kept t1] nm].
  rewrite (reintegrate_used c1 c2 kept Hu), (GetAccGyro_used c1 c2 imu Hu).
  reflexivity.
Qed.

Lemma GpsHelper_iteration_used (c1 c2 : Config) (reply : BackendReply) (e : Estimator) :
  usedMembers c1 = usedMembers c2 ->
  GpsHelper_iteration c1 reply e = GpsHelper_iteration c2 reply e.
Proof.
  intros Hu. unfold GpsHelper_iteration.
  destruct (selectTrigger e) as [[[trig cur] qs]|]; [|reflexivity].
  destruct (negb _).
  - destruct (fix_ trig); [|reflexivity].
    unfold bootstrap. unfold usedMembers in Hu. injection Hu; intros.
    rewrite_members c1 c2. reflexivity.
  - destruct (_ || _); [|reflexivity].
    unfold steady.
    destruct (odomFactors _ _ _ _) as [[[odomFs pair] odomRest]|]; [|reflexivity].
    destruct (m_lastIMU (optimizer e)) as [lastIMU0|]; [|reflexivity].
    rewrite (integrateUpTo_used c1 c2 cur (items (m_ImuOptQ qs)) Hu).
    unfold gpsFactors. unfold usedMembers in Hu. injection Hu; intros.
    rewrite_members c1 c2. reflexivity.
Qed.

Lemma run_used (c1 c2 : Config) (actions : list Action) :
  usedMembers c1 = usedMembers c2 ->
  forall p, run c1 actions p = run c2 actions p.
Proof.
  intros Hu. induction actions as [|a rest IH]; intros p; [reflexivity|].
  cbn [run].
  assert (Hstep : step c1 a p = step c2 a p).
  { destruct p as [e|e]; [|reflexivity].
    destruct a as [f|now imu|od|reply]; cbn [step]; try reflexivity.
    - now rewrite (ImuCallback_used c1 c2 now imu e Hu).
    - now rewrite (GpsHelper_iteration_used c1 c2 reply e Hu). }
  rewrite Hstep. destruct (step c2 a p) as [p1 out1]. now rewrite IH.
Qed.

(** X15: the parameters "InitialYaw" and "Imudt" are read and, but for the
    line the constructor prints for the first, not used: two nodes whose
    parameters differ only in them, given the same replies to the wait for
    the initial pose and the same messages and solver answers, end with the
    same members and produce the same outputs apart from the parameter
    listing. *)
Theorem InitialYaw_and_Imudt_have_no_effect
  (rp : RosParams) (yaw dt : option double)
  (replies : list (option FilterOutput)) (actions : list Action) :
  match node (set_p_InitialYaw_Imudt rp yaw dt) replies actions,
        node rp replies actions with
  | Some (p1, out1), Some (p2, out2) =>
      p1 = p2 /\ filter notParamListing out1 = filter notParamListing out2
  | None, None => True
  | _, _ => False
  end.
Proof.
  unfold node, StateEstimator_ctor.
  change (p_FixedInitialPose (set_p_InitialYaw_Imudt rp yaw dt))
    with (p_FixedInitialPose rp).
  destruct (negb _).
  - destruct (waitForInitialPose replies) as [[ip|] w]; [|exact I].
    rewrite (run_used (makeConfig (set_p_InitialYaw_Imudt rp yaw dt) ip)
               (makeConfig rp ip) actions eq_refl).
    change (initialEstimator (set_p_InitialYaw_Imudt rp yaw dt)
              (makeConfig (set_p_InitialYaw_Imudt rp yaw dt) ip))
      with (initialEstimator rp (makeConfig rp ip)).
    destruct (run _ _ _) as [p out']. split; [reflexivity|].
    rewrite !filter_app. reflexivity.
  - match goal with
    | |- context [run (makeConfig (set_p_InitialYaw_Imudt rp yaw dt) ?ip)] =>
        rewrite (run_used (makeConfig (set_p_InitialYaw_Imudt rp yaw dt) ip)
                   (makeConfig rp ip) actions eq_refl);
        change (initialEstimator (set_p_InitialYaw_Imudt rp yaw dt)
                  (makeConfig (set_p_InitialYaw_Imudt rp yaw dt) ip))
          with (initialEstimator rp (makeConfig rp ip))
    end.
    destruct (run _ _ _) as [p out']. split; [reflexivity|].
    rewrite !filter_app. reflexivity.
Qed.

(** ** The time a rebuilt preintegration spans *)

Lemma reintegrate_span (c : Config) (kept : list Imu) :
  forall t0 pim g,
    snd (fst (reintegrate c kept t0 pim g)) = last (map imu_stamp kept) t0
    /\ deltaTij (fst (fst (reintegrate c kept t0 pim g)))
       == deltaTij pim + (last (map imu_stamp kept) t0 - t0).
Proof.
  induction kept as [|m rest IH]; intros t0 pim g.
  - cbn [reintegrate fst snd map last]. split; [reflexivity|apply Q_add_sub_diag].
  - cbn [reintegrate]. destruct (GetAccGyro c m) as [acc gy].
    destruct (IH (imu_stamp m) (integrateMeasurement pim acc gy (imu_stamp m - t0))
                (Some gy)) as (Ht & Hd).
    cbn [map]. rewrite last_cons. split; [exact Ht|].
    apply Q_telescope with (b := imu_stamp m).
    now rewrite Hd, deltaTij_integrateMeasurement.
Qed.

(** X16: when the buffer is in stamp order and its front is older than the
    optimized time, [ImuCallback] rebuilds the preintegration so that it spans
    the time from the stamp of the last sample it has discarded to the stamp
    of the sample just received: the prediction starts from the optimized
    state and covers that interval, whatever the optimized time is within
    it. *)
Theorem predictor_rebuild_spans_since_last_discarded_sample
  (snapshot : Optimized) (c : Config) (now : double) (imu : Imu)
  (qs : Queues) (p : Predictor) :
  deq (m_optimizedTime snapshot) 0 = false ->
  nondecreasing (map imu_stamp (m_imuMeasurements p ++ [imu])) = true ->
  older (m_optimizedTime snapshot) (hd imu (m_imuMeasurements p)) = true ->
  let p' := snd (fst (ImuCallback_from snapshot c now imu qs p)) in
  let discarded :=
    filter (older (m_optimizedTime snapshot)) (m_imuMeasurements p ++ [imu]) in
  deltaTij (m_imuPredictor p')
  == imu_stamp imu - last (map imu_stamp discarded) (m_imuQPrevTime p)
  /\ m_imuQPrevTime p' = imu_stamp imu
  /\ discarded <> [].
Proof.
  intros Hset Hsorted Hold. cbv zeta. unfold ImuCallback_from.
  destruct (pushNonBlocking _ _) as [pushed q]. rewrite Hset.
  pose proof (discardOlder_newest (m_optimizedTime snapshot) imu (m_imuMeasurements p)
                (m_imuQPrevTime p) false) as Hnew.
  cbv zeta in Hnew.
  rewrite (discardOlder_sorted _ _ (m_imuQPrevTime p) false Hsorted) in *.
  cbn [fst snd] in Hnew.
  assert (Hex : existsb (older (m_optimizedTime snapshot)) (m_imuMeasurements p ++ [imu])
                = true).
  { destruct (m_imuMeasurements p) as [|m l]; cbn [hd app existsb] in *;
      now rewrite Hold. }
  rewrite Hex. cbn [orb].
  assert (Hne : filter (older (m_optimizedTime snapshot)) (m_imuMeasurements p ++ [imu])
                <> []).
  { destruct (m_imuMeasurements p) as [|m l]; cbn [hd app filter] in *;
      now rewrite Hold. }
  set (t1 := last (map imu_stamp
                     (filter (older (m_optimizedTime snapshot))
                        (m_imuMeasurements p ++ [imu])))
               (m_imuQPrevTime p)) in *.
  pose proof (reintegrate_span c
                (filter (notOlder (m_optimizedTime snapshot)) (m_imuMeasurements p ++ [imu]))
                t1 (resetIntegration (m_imuPredictor p)) None) as (Ht & Hd).
  destruct (reintegrate _ _ _ _ _) as [[pim t2] gyro]. cbn [fst snd] in Ht, Hd.
  cbn [fst snd m_imuPredictor m_imuQPrevTime].
  assert (Hlast : t2 = imu_stamp imu).
  { rewrite Ht. destruct Hnew as [[Hnil Himu]|[before Hkept]].
    - rewrite Hnil. cbn [map last]. unfold t1.
      rewrite filter_app. cbn [filter]. rewrite Himu.
      rewrite map_app. cbn [map]. apply last_last.
    - rewrite Hkept, map_app. cbn [map]. apply last_last. }
  split; [|split; [exact Hlast|exact Hne]].
  rewrite <- Hlast, Ht. apply Q_zero_add_sub. exact Hd.
Qed.

End FurtherProperties.

(** ** The further properties on concrete runs *)

(** The first-fix iteration that follows [beforeFirstFix]. *)
Lemma beforeFirstFix_iteration :
  GpsHelper_iteration (H := flatExternal) reachedConfig
    (Some (constantSolution zeroBias)) (reached beforeFirstFix)
  = Completed
      (completedEstimator
         (GpsHelper_iteration (H := flatExternal) reachedConfig
            (Some (constantSolution zeroBias)) (reached beforeFirstFix)))
      (outputOf
         (GpsHelper_iteration (H := flatExternal) reachedConfig
            (Some (constantSolution zeroBias)) (reached beforeFirstFix))).
Proof. vm_compute. reflexivity. Qed.

Lemma defaultParams_constructed :
  StateEstimator_ctor (H := flatExternal) defaultParams [Some sampleFilterOutput]
  = Constructed reachedConfig startEstimator startupOutput.
Proof. vm_compute. reflexivity. Qed.

Lemma first_fix_sets_origin_and_priors_witness :
  m_gotFirstFix (optimizer (reached beforeFirstFix)) = false
  /\ exists f pending,
       items (m_gpsOptQ (queues (reached beforeFirstFix))) = f :: pending
       /\ prevTime
            (optimizer
               (completedEstimator
                  (GpsHelper_iteration (H := flatExternal) reachedConfig
                     (Some (constantSolution zeroBias)) (reached beforeFirstFix))))
          = fix_stamp (last pending f).
Proof.
  assert (Hgot : m_gotFirstFix (optimizer (reached beforeFirstFix)) = false)
    by (vm_compute; reflexivity).
  split; [exact Hgot|].
  destruct (@first_fix_sets_origin_and_priors flatExternal reachedConfig
              (Some (constantSolution zeroBias)) (reached beforeFirstFix) _ _
              Hgot beforeFirstFix_iteration)
    as (f & pending & Hq & _ & _ & Hprev & _).
  exists f, pending. split; [exact Hq|exact Hprev].
Defined.

Lemma first_fix_aligns_inertial_queue_witness :
  m_gotFirstFix (optimizer (reached beforeFirstFix)) = false
  /\ exists dropped kept,
       items (m_ImuOptQ (queues (reached beforeFirstFix)))
       = dropped ++ kept ::
         items (m_ImuOptQ
                  (queues
                     (completedEstimator
                        (GpsHelper_iteration (H := flatExternal) reachedConfig
                           (Some (constantSolution zeroBias)) (reached beforeFirstFix))))).
Proof.
  assert (Hgot : m_gotFirstFix (optimizer (reached beforeFirstFix)) = false)
    by (vm_compute; reflexivity).
  split; [exact Hgot|].
  destruct (@first_fix_aligns_inertial_queue flatExternal reachedConfig
              (Some (constantSolution zeroBias)) (reached beforeFirstFix) _ _
              Hgot beforeFirstFix_iteration)
    as (f & pending & dropped & kept & _ & Hq & _).
  exists dropped, kept. exact Hq.
Defined.

Lemma correction_integrates_samples_before_trigger_witness :
  m_gotFirstFix (optimizer (reached beforeCorrection)) = true
  /\ m_isam (optimizer (reached fixAfterOdometry))
     <> m_isam (optimizer (reached beforeCorrection))
  /\ exists held used kept,
       m_lastIMU (optimizer (reached beforeCorrection)) = Some held
       /\ held :: items (m_ImuOptQ (queues (reached beforeCorrection)))
          = used ++ kept :: items (m_ImuOptQ (queues (reached fixAfterOdometry))).
Proof.
  assert (Hgot : m_gotFirstFix (optimizer (reached beforeCorrection)) = true)
    by (vm_compute; reflexivity).
  assert (Hne : m_isam (optimizer (reached fixAfterOdometry))
                <> m_isam (optimizer (reached beforeCorrection))).
  { intros Heq. apply (f_equal (@List.length Batch)) in Heq.
    vm_compute in Heq. discriminate Heq. }
  split; [exact Hgot|]. split; [exact Hne|].
  destruct (@correction_integrates_samples_before_trigger flatExternal reachedConfig
              (Some (constantSolution zeroBias)) (reached beforeCorrection)
              (reached fixAfterOdometry) _ Hgot fixAfterOdometry_correction Hne)
    as (held & used & kept & batch & pim & Hheld & Hq & _).
  exists held, used, kept. split; [exact Hheld|exact Hq].
Defined.

Lemma correction_preintegration_covers_elapsed_time_witness :
  m_gotFirstFix (optimizer (reached beforeCorrection)) = true
  /\ m_isam (optimizer (reached fixAfterOdometry))
     <> m_isam (optimizer (reached beforeCorrection))
  /\ exists batch pim,
       m_isam (optimizer (reached fixAfterOdometry))
       = m_isam (optimizer (reached beforeCorrection)) ++ [batch]
       /\ imuFactorPims batch = [pim]
       /\ deltaTij pim
          == m_lastImuTgps (optimizer (reached fixAfterOdometry))
             - m_lastImuTgps (optimizer (reached beforeCorrection)).
Proof.
  assert (Hgot : m_gotFirstFix (optimizer (reached beforeCorrection)) = true)
    by (vm_compute; reflexivity).
  assert (Hne : m_isam (optimizer (reached fixAfterOdometry))
                <> m_isam (optimizer (reached beforeCorrection))).
  { intros Heq. apply (f_equal (@List.length Batch)) in Heq.
    vm_compute in Heq. discriminate Heq. }
  split; [exact Hgot|]. split; [exact Hne|].
  destruct (@correction_preintegration_covers_elapsed_time flatExternal reachedConfig
              (Some (constantSolution zeroBias)) (reached beforeCorrection)
              (reached fixAfterOdometry) _ Hgot fixAfterOdometry_correction Hne)
    as (batch & pim & Hisam & Hpim & Hd & _).
  exists batch, pim. split; [exact Hisam|]. split; [exact Hpim|exact Hd].
Defined.


Lemma bias_published_once_per_correction_witness :
  StateEstimator_ctor (H := flatExternal) defaultParams [Some sampleFilterOutput]
  = Constructed reachedConfig startEstimator startupOutput
  /\ Z.of_nat
       (List.length
          (filter isBiasAcc
             (snd (run (H := flatExternal) reachedConfig fixAfterOdometry
                     (Alive startEstimator)))))
     = m_poseVelKey (optimizer (reached fixAfterOdometry)).
Proof.
  split; [exact defaultParams_constructed|].
  exact (proj1
           (@bias_published_once_per_correction flatExternal defaultParams
              [Some sampleFilterOutput] reachedConfig startEstimator startupOutput
              fixAfterOdometry
              (fst (run (H := flatExternal) reachedConfig fixAfterOdometry
                      (Alive startEstimator)))
              (snd (run (H := flatExternal) reachedConfig fixAfterOdometry
                      (Alive startEstimator)))
              defaultParams_constructed
              (surjective_pairing _))).
Defined.

Lemma no_correction_without_wheel_odometry_witness :
  StateEstimator_ctor (H := flatExternal) defaultParams [Some sampleFilterOutput]
  = Constructed reachedConfig startEstimator startupOutput
  /\ forallb (fun a => negb (isWheelOdomSample a)) gpsWithoutOdometry = true
  /\ m_poseVelKey (optimizer (reached gpsWithoutOdometry)) = 0%Z
  /\ optimized (reached gpsWithoutOdometry) = unsetOptimized.
Proof.
  assert (Hnone : forallb (fun a => negb (isWheelOdomSample a)) gpsWithoutOdometry = true)
    by (vm_compute; reflexivity).
  split; [exact defaultParams_constructed|]. split; [exact Hnone|].
  destruct (@no_correction_without_wheel_odometry flatExternal defaultParams
              [Some sampleFilterOutput] reachedConfig startEstimator startupOutput
              gpsWithoutOdometry
              (fst (run (H := flatExternal) reachedConfig gpsWithoutOdometry
                      (Alive startEstimator)))
              (snd (run (H := flatExternal) reachedConfig gpsWithoutOdometry
                      (Alive startEstimator)))
              defaultParams_constructed Hnone (surjective_pairing _))
    as (Hkey & Hopt & _).
  split; [exact Hkey|exact Hopt].
Defined.

Lemma predictor_buffers_every_sample_before_first_correction_witness :
  StateEstimator_ctor (H := flatExternal) defaultParams [Some sampleFilterOutput]
  = Constructed reachedConfig startEstimator startupOutput
  /\ m_poseVelKey (optimizer (reached beforeFirstFix)) = 0%Z
  /\ m_imuMeasurements (predictor (reached beforeFirstFix)) = imuSamplesOf beforeFirstFix.
Proof.
  assert (Hrun : run (H := flatExternal) reachedConfig beforeFirstFix (Alive startEstimator)
                 = (Alive (reached beforeFirstFix),
                    snd (run (H := flatExternal) reachedConfig beforeFirstFix
                           (Alive startEstimator))))
    by (vm_compute; reflexivity).
  assert (Hkey : m_poseVelKey (optimizer (reached beforeFirstFix)) = 0%Z)
    by (vm_compute; reflexivity).
  split; [exact defaultParams_constructed|]. split; [exact Hkey|].
  exact (proj1
           (@predictor_buffers_every_sample_before_first_correction flatExternal
              defaultParams [Some sampleFilterOutput] reachedConfig startEstimator
              (reached beforeFirstFix) startupOutput _ beforeFirstFix
              defaultParams_constructed Hrun Hkey)).
Defined.

Lemma predictor_integrates_exactly_its_buffer_witness :
  deq (m_optimizedTime (optimized (reached biasedStart))) 0 = false
  /\ match
       m_imuMeasurements
         (snd (fst (ImuCallback_from (H := flatExternal) (optimized (reached biasedStart))
                      reachedConfig 13 (imuAt 13 2 0 0) (queues (reached biasedStart))
                      (predictor (reached biasedStart)))))
     with
     | [] => True
     | m :: _ => older (m_optimizedTime (optimized (reached biasedStart))) m = false
     end.
Proof.
  assert (Hset : deq (m_optimizedTime (optimized (reached biasedStart))) 0 = false)
    by (vm_compute; reflexivity).
  split; [exact Hset|].
  exact (proj2 (proj2
           (@predictor_integrates_exactly_its_buffer flatExternal
              (optimized (reached biasedStart)) reachedConfig 13 (imuAt 13 2 0 0)
              (queues (reached biasedStart)) (predictor (reached biasedStart)) Hset))).
Defined.

Lemma batches_constrain_own_and_previous_epoch_witness :
  StateEstimator_ctor (H := flatExternal) defaultParams [Some sampleFilterOutput]
  = Constructed reachedConfig startEstimator startupOutput
  /\ wellKeyed 0 (m_isam (optimizer (reached fixAfterOdometry))).
Proof.
  split; [exact defaultParams_constructed|].
  exact (@batches_constrain_own_and_previous_epoch flatExternal defaultParams
           [Some sampleFilterOutput] reachedConfig startEstimator startupOutput
           fixAfterOdometry
           (fst (run (H := flatExternal) reachedConfig fixAfterOdometry
                   (Alive startEstimator)))
           (snd (run (H := flatExternal) reachedConfig fixAfterOdometry
                   (Alive startEstimator)))
           defaultParams_constructed
           (surjective_pairing _)).
Defined.

Lemma antenna_pose_unconstrained_without_fix_witness :
  StateEstimator_ctor (H := flatExternal) defaultParams [Some sampleFilterOutput]
  = Constructed reachedConfig startEstimator startupOutput
  /\ exists b,
       nth_error (m_isam (optimizer (reached odometryOnly))) 1 = Some b
       /\ filter isGPSFactor (newFactors b) = []
       /\ In (G 1) (insertedKeys b)
       /\ Forall (fun b' => ~ In (G 1) (flat_map factorKeys (newFactors b')))
            (m_isam (optimizer (reached odometryOnly))).
Proof.
  assert (Hnth : nth_error (m_isam (optimizer (reached odometryOnly))) 1
                 = Some (last (m_isam (optimizer (reached odometryOnly))) (mkBatch [] [])))
    by (vm_compute; reflexivity).
  assert (Hnone : filter isGPSFactor
                    (newFactors
                       (last (m_isam (optimizer (reached odometryOnly))) (mkBatch [] [])))
                  = [])
    by (vm_compute; reflexivity).
  split; [exact defaultParams_constructed|].
  exists (last (m_isam (optimizer (reached odometryOnly))) (mkBatch [] [])).
  split; [exact Hnth|]. split; [exact Hnone|].
  exact (@antenna_pose_unconstrained_without_fix flatExternal defaultParams
           [Some sampleFilterOutput] reachedConfig startEstimator startupOutput
           odometryOnly
           (fst (run (H := flatExternal) reachedConfig odometryOnly
                   (Alive startEstimator)))
           (snd (run (H := flatExternal) reachedConfig odometryOnly
                   (Alive startEstimator)))
           0%nat
           (last (m_isam (optimizer (reached odometryOnly))) (mkBatch [] []))
           defaultParams_constructed
           (surjective_pairing _) Hnth Hnone).
Defined.

Lemma predictor_rebuild_spans_since_last_discarded_sample_witness :
  deq (m_optimizedTime (optimized (reached biasedStart))) 0 = false
  /\ nondecreasing
       (map imu_stamp (m_imuMeasurements (predictor (reached biasedStart))
                       ++ [imuAt 13 2 0 0])) = true
  /\ older (m_optimizedTime (optimized (reached biasedStart)))
       (hd (imuAt 13 2 0 0) (m_imuMeasurements (predictor (reached biasedStart)))) = true
  /\ m_imuQPrevTime
       (snd (fst (ImuCallback_from (H := flatExternal) (optimized (reached biasedStart))
                    reachedConfig 13 (imuAt 13 2 0 0) (queues (reached biasedStart))
                    (predictor (reached biasedStart)))))
     = imu_stamp (imuAt 13 2 0 0).
Proof.
  assert (Hset : deq (m_optimizedTime (optimized (reached biasedStart))) 0 = false)
    by (vm_compute; reflexivity).
  assert (Hsorted : nondecreasing
                      (map imu_stamp (m_imuMeasurements (predictor (reached biasedStart))
                                      ++ [imuAt 13 2 0 0])) = true)
    by (vm_compute; reflexivity).
  assert (Hold : older (m_optimizedTime (optimized (reached biasedStart)))
                   (hd (imuAt 13 2 0 0)
                      (m_imuMeasurements (predictor (reached biasedStart)))) = true)
    by (vm_compute; reflexivity).
  split; [exact Hset|]. split; [exact Hsorted|]. split; [exact Hold|].
  exact (proj1 (proj2
           (@predictor_rebuild_spans_since_last_discarded_sample flatExternal
              (optimized (reached biasedStart)) reachedConfig 13 (imuAt 13 2 0 0)
              (queues (reached biasedStart)) (predictor (reached biasedStart))
              Hset Hsorted Hold))).
Defined.
